(** * The self-refreshing cache of package [httpclient]

    A shallow embedding of [CachedClient]: the entry store, the per-key stop
    channels, the tickers and the shared cron scheduler, together with the
    operations [SetupCachedEndpoint], [updateCache], [GetCached],
    [GetCachedOrFetch], [StopCacheUpdates] and [Stop]. Line numbers are those
    of the source file that declares [CachedClient].

    Everything the package only calls (the HTTP round trip, [encoding/json],
    [time.ParseDuration], the cron parser) is a field of [Backend]; the
    destination objects behind the [result interface{}] pointers live in an
    explicit heap, because [json.Unmarshal] decodes in place into an object
    that the cache entry and the callers share.

    The base [Client] with its options and request methods is embedded
    separately, further down. *)

From Stdlib Require Import ZArith Ascii String List Bool Lia.
From stdpp Require Import base gmap strings list.

Local Open Scope Z_scope.

(** ** package time *)

Module time.

(** [time.Duration] is an int64 count of nanoseconds. *)
Definition Duration := Z.

(** An instant, in nanoseconds counted from the zero [Time]
    (1 January of year 1, 00:00 UTC). *)
Definition Time := Z.

Definition minDuration : Duration := - 2 ^ 63.
Definition maxDuration : Duration := 2 ^ 63 - 1.

Definition Nanosecond : Duration := 1.
Definition Millisecond : Duration := 1000000.
Definition Second : Duration := 1000000000.
Definition Minute : Duration := 60 * Second.
Definition Hour : Duration := 60 * Minute.

(** [time.Time{}] *)
Definition zero : Time := 0.

Definition IsZero (t : Time) : bool := t =? 0.

(** [t.Sub(u)]: "If the result exceeds the maximum (or minimum) value that
    can be stored in a Duration, the maximum (or minimum) duration will be
    returned." *)
Definition Sub (t u : Time) : Duration :=
  if maxDuration <? t - u then maxDuration
  else if t - u <? minDuration then minDuration
  else t - u.

(** [time.Since(t)] is [time.Now().Sub(t)]. *)
Definition Since (now t : Time) : Duration := Sub now t.

(** The wall clock reads 1970 at the earliest: the Unix epoch lies
    62135596800 seconds after the zero [Time]. *)
Definition unixEpoch : Time := 62135596800 * Second.

End time.

(** ** package strings *)

Module strings.

Definition HasPrefix (s prefix : string) : bool := String.prefix prefix s.

Definition TrimPrefix (s prefix : string) : string :=
  if HasPrefix s prefix
  then String.substring (String.length prefix)
                        (String.length s - String.length prefix) s
  else s.

End strings.

(** ** Values of the package *)

(** Address of a destination object ([&data] at the call sites). *)
Definition Ptr := positive.

(** An [interface{}] as this package uses it: nil, or a pointer to the
    destination object handed to [SetupCachedEndpoint]. *)
Inductive iface : Type :=
  | Nil
  | Ref (p : Ptr).

(** [context.Context] values that reach the package. *)
Inductive Context : Type :=
  | Background
  | WithTimeout (parent : Context) (d : time.Duration)
  | Caller (id : nat).

(** One constructor per [fmt.Errorf] call site of the file; [ext] is an error
    value made outside the package (net/http, io, encoding/json, time, cron). *)
Inductive error : Type :=
  | ext (msg : string)
  | no_cache_entry (path : string)        (* "no cache entry for path: %s" *)
  | cache_expired (path : string)         (* "cache expired for path: %s" *)
  | failed_to_fetch_data (e : error)      (* "failed to fetch data: %w" *)
  | unexpected_status_code (code : Z)     (* "unexpected status code: %d" *)
  | failed_to_read_body (e : error)       (* "failed to read response body: %w" *)
  | failed_to_unmarshal (e : error)       (* "failed to unmarshal response: %w" *)
  | initial_update_failed (e : error)     (* "initial cache update failed: %w" *)
  | failed_to_fetch_fresh (e : error)     (* "failed to fetch fresh data: %w" *)
  | invalid_every_duration (e : error)    (* "invalid duration in @every: %w" *)
  | failed_to_schedule (e : error).       (* "failed to schedule cache updates: %w" *)

(** A Go [(T, error)] pair of which exactly one side is meaningful. *)
Inductive result (A : Type) : Type :=
  | Ok (a : A)
  | Err (e : error).
Arguments Ok {A} a.
Arguments Err {A} e.

(** The part of [*http.Response] that [updateCache] looks at; [Body] is what
    [io.ReadAll(resp.Body)] yields. *)
Record Response : Type := mkResponse {
  StatusCode : Z;
  Body : result string
}.

Definition StatusOK : Z := 200.

Module CacheConfig.
Record t : Type := mk {
  Path : string;
  CronSpec : string;
  Expiration : time.Duration;
  SkipInitialFetch : bool
}.
End CacheConfig.

Module CacheEntry.
Record t : Type := mk {
  Data : iface;
  UpdatedAt : time.Time;
  Expiration : time.Duration
}.
End CacheEntry.

(** ** Runtime objects *)

(** A channel made by [make(chan struct{})] is the index of its closed flag. *)
Definition chan := nat.

(** The closure [updateFunc] of [SetupCachedEndpoint]: it captures
    [config.Path], [result] and [stopChan]. *)
Record closure : Type := mkClosure {
  uf_path : string;
  uf_result : iface;
  uf_stopChan : chan
}.

(** A [*time.Ticker]. *)
Record Ticker : Type := mkTicker {
  period : time.Duration;
  stopped : bool
}.

(** The goroutine started at line 95 for a sub-minute [@every] spec. *)
Record Goroutine : Type := mkGoroutine {
  g_ticker : nat;
  g_job : closure;
  g_alive : bool
}.

(** The shared [*cron.Cron]. *)
Module Cron.
Record t : Type := mk {
  entries : list (string * closure);
  running : bool
}.
Definition New : t := mk [] false.
End Cron.

(** The fields of [CachedClient]. The embedded [*Client] is the [Get] of
    [Backend] below; [cacheMux] has no field: its locked regions are the
    steps of [thread_step]. *)
Record CachedClient : Type := mkCachedClient {
  cache : gmap string CacheEntry.t;
  cron : Cron.t;
  stopChans : gmap string chan;
  ticker : gmap string nat
}.

Definition NewCachedClient : CachedClient :=
  {| cache := ∅; cron := Cron.New; stopChans := ∅; ticker := ∅ |}.

(** ** Concurrent callers of GetCachedOrFetch

    A caller's progress through [GetCachedOrFetch] and the [updateCache] it
    calls, cut where other goroutines can run: each lock-protected region is
    one step, and so are the round trip and the decoding, which hold no
    lock. *)

Inductive pc : Type :=
  | AtEntry                                       (* line 171 *)
  | AtGet (data : iface)                          (* line 140, before [c.Get] *)
  | AtDecode (data : iface) (r : result Response) (* lines 141-157 *)
  | AtStore (data : iface)                        (* line 159, before [Lock] *)
  | AtReget                                       (* line 189 *)
  | Finished (v : iface) (e : option error)
  | Crashed.

(** Callers of [GetCachedOrFetch(ctx, path)] on one [path], each with its
    own context and program point. *)
Abbreviation pool := (list (Context * pc)).

(** ** Scheduled refreshes under way

    Where a call of [updateFunc] that has passed its stop test (lines 64-67)
    stands in the [updateCache] it runs: before [c.Get], with the response
    in hand, decoded and waiting for the lock, or returned. *)

Inductive stage : Type :=
  | ToGet                            (* line 140, before [c.Get] *)
  | ToDecode (r : result Response)   (* lines 141-157 *)
  | ToStore                          (* line 159, before [Lock] *)
  | Over.

(** ** What the package calls but does not define *)

Record Backend (Val : Type) : Type := mkBackend {
  (** [c.Get(ctx, path)]; the first argument counts the calls made before. *)
  Get : nat -> Context -> string -> result Response;
  (** [checkValid] of encoding/json: [None] on well-formed JSON text. *)
  json_checkValid : string -> option error;
  (** The in-place decoder run on well-formed text: the destination's
      contents afterwards and the error returned, if any. *)
  json_decode : string -> Val -> Val * option error;
  (** [time.ParseDuration] *)
  ParseDuration : string -> result time.Duration;
  (** The cron parser used by [cron.AddFunc]: [None] when it accepts. *)
  cron_Parse : string -> option error;
  (** How long the [n]-th call of [c.Get] takes, in nanoseconds. *)
  rtt : nat -> N;
  (** How much later than the clock reading of line 162 the refresh that
      took it goes on, when [m] calls of [c.Get] have been made: the next
      reading of the clock, by anyone, is at least that much later. *)
  lag : nat -> N
}.
Arguments Get {Val} _ _ _ _.
Arguments json_checkValid {Val} _ _.
Arguments json_decode {Val} _ _ _.
Arguments ParseDuration {Val} _ _.
Arguments cron_Parse {Val} _ _.
Arguments rtt {Val} _ _.
Arguments lag {Val} _ _.

Section Cache.

Context {Val : Type} (env : Backend Val).

(** The client together with the objects it points to and the observable
    traces: every [c.Get] call and every line printed by [updateFunc]. *)
Record World : Type := mkWorld {
  client : CachedClient;
  chans : list bool;                 (* closed flag of every channel made *)
  tickers : list Ticker;
  goroutines : list Goroutine;
  heap : gmap Ptr Val;               (* destination objects *)
  now : time.Time;                   (* what [time.Now()] returns *)
  gets : list (Context * string);    (* calls of [c.Get], oldest first *)
  stdout : list (string * error);    (* "Error updating cache for %s: %v" *)
  inflight : list (closure * stage)  (* scheduled refreshes under way *)
}.

Definition with_client (f : CachedClient -> CachedClient) (w : World) : World :=
  mkWorld (f (client w)) (chans w) (tickers w) (goroutines w) (heap w)
          (now w) (gets w) (stdout w) (inflight w).
Definition with_chans (x : list bool) (w : World) : World :=
  mkWorld (client w) x (tickers w) (goroutines w) (heap w)
          (now w) (gets w) (stdout w) (inflight w).
Definition with_tickers (x : list Ticker) (w : World) : World :=
  mkWorld (client w) (chans w) x (goroutines w) (heap w)
          (now w) (gets w) (stdout w) (inflight w).
Definition with_goroutines (x : list Goroutine) (w : World) : World :=
  mkWorld (client w) (chans w) (tickers w) x (heap w)
          (now w) (gets w) (stdout w) (inflight w).
Definition with_heap (x : gmap Ptr Val) (w : World) : World :=
  mkWorld (client w) (chans w) (tickers w) (goroutines w) x
          (now w) (gets w) (stdout w) (inflight w).
Definition with_now (x : time.Time) (w : World) : World :=
  mkWorld (client w) (chans w) (tickers w) (goroutines w) (heap w)
          x (gets w) (stdout w) (inflight w).
Definition with_gets (x : list (Context * string)) (w : World) : World :=
  mkWorld (client w) (chans w) (tickers w) (goroutines w) (heap w)
          (now w) x (stdout w) (inflight w).
Definition with_stdout (x : list (string * error)) (w : World) : World :=
  mkWorld (client w) (chans w) (tickers w) (goroutines w) (heap w)
          (now w) (gets w) x (inflight w).
Definition with_inflight (x : list (closure * stage)) (w : World) : World :=
  mkWorld (client w) (chans w) (tickers w) (goroutines w) (heap w)
          (now w) (gets w) (stdout w) x.

(** The clock moves on by [d] nanoseconds. *)
Definition elapse (d : N) (w : World) : World :=
  with_now (now w + Z.of_N d) w.

Definition set_cache (x : gmap string CacheEntry.t) (c : CachedClient) :=
  mkCachedClient x (cron c) (stopChans c) (ticker c).
Definition set_cron (x : Cron.t) (c : CachedClient) :=
  mkCachedClient (cache c) x (stopChans c) (ticker c).
Definition set_stopChans (x : gmap string chan) (c : CachedClient) :=
  mkCachedClient (cache c) (cron c) x (ticker c).
Definition set_ticker (x : gmap string nat) (c : CachedClient) :=
  mkCachedClient (cache c) (cron c) (stopChans c) x.

(** A call either returns, leaving a world behind, or panics. *)
Inductive outcome (A : Type) : Type :=
  | Return (a : A) (w : World)
  | Panic (msg : string).
Arguments Return {A} a w.
Arguments Panic {A} msg.

(** *** encoding/json *)

(** [json.Unmarshal(data, v)]: the text is checked for well-formedness
    before anything is written ("avoids filling out half a data structure
    before discovering a JSON syntax error"); a nil or dangling [v] is an
    [InvalidUnmarshalError]; otherwise the object behind [v] is decoded
    into in place. *)
Definition json_Unmarshal (data : string) (v : iface) (h : gmap Ptr Val)
  : gmap Ptr Val * option error :=
  match json_checkValid env data with
  | Some e => (h, Some e)
  | None =>
    match v with
    | Nil => (h, Some (ext "json: Unmarshal(nil)"))
    | Ref p =>
      match h !! p with
      | None => (h, Some (ext "json: Unmarshal(nil)"))
      | Some old =>
        let '(new, e) := json_decode env data old in (<[p := new]> h, e)
      end
    end
  end.

(** *** updateCache (line 139) *)

Definition store_entry (path : string) (result : iface) (w : World) : World :=
  match cache (client w) !! path with
  | Some entry =>
    with_client (set_cache
      (<[path := CacheEntry.mk result (now w) (CacheEntry.Expiration entry)]>
         (cache (client w)))) w
  | None => w
  end.

(** The world when the response to the request made in [w] is in hand: the
    call is on record and the round trip has taken its time. *)
Definition answered (ctx : Context) (path : string) (w : World) : World :=
  elapse (rtt env (length (gets w))) (with_gets (gets w ++ [(ctx, path)]) w).

(** The clock is read once, at line 162, after the round trip; by the time
    a successful refresh returns it has moved on by [lag]. *)
Definition updateCache (ctx : Context) (path : string) (result : iface)
    (w : World) : option error * World :=
  let w1 := answered ctx path w in
  match Get env (length (gets w)) ctx path with
  | Err err => (Some (failed_to_fetch_data err), w1)
  | Ok resp =>
    if negb (StatusCode resp =? StatusOK)
    then (Some (unexpected_status_code (StatusCode resp)), w1)
    else
      match Body resp with
      | Err err => (Some (failed_to_read_body err), w1)
      | Ok body =>
        match json_Unmarshal body result (heap w1) with
        | (h, Some err) => (Some (failed_to_unmarshal err), with_heap h w1)
        | (h, None) =>
          (None, elapse (lag env (length (gets w1)))
                        (store_entry path result (with_heap h w1)))
        end
      end
  end.

(** The clock reading of line 162 in a refresh that starts in [w], and the
    clock when that refresh has stored and returned. *)
Definition refresh_stamp (w : World) : time.Time :=
  now w + Z.of_N (rtt env (length (gets w))).

Definition refresh_end (w : World) : time.Time :=
  refresh_stamp w + Z.of_N (lag env (S (length (gets w)))).

(** *** GetCached (line 198) *)

Definition GetCached (path : string) (w : World) : iface * option error :=
  match cache (client w) !! path with
  | None => (Nil, Some (no_cache_entry path))
  | Some entry =>
    if CacheEntry.Expiration entry <? time.Since (now w) (CacheEntry.UpdatedAt entry)
    then (CacheEntry.Data entry, Some (cache_expired path))
    else (CacheEntry.Data entry, None)
  end.

(** *** GetCachedOrFetch (line 170) *)

Definition needsFetch (entry : CacheEntry.t) (w : World) : bool :=
  time.IsZero (CacheEntry.UpdatedAt entry)
  || (CacheEntry.Expiration entry <? time.Since (now w) (CacheEntry.UpdatedAt entry)).

Definition GetCachedOrFetch (ctx : Context) (path : string) (w : World)
  : outcome (iface * option error) :=
  match cache (client w) !! path with
  | None => Return (Nil, Some (no_cache_entry path)) w
  | Some entry =>
    if needsFetch entry w then
      match updateCache ctx path (CacheEntry.Data entry) w with
      | (Some err, w') => Return (Nil, Some (failed_to_fetch_fresh err)) w'
      | (None, w') =>
        match cache (client w') !! path with
        | Some entry' => Return (CacheEntry.Data entry', None) w'
        | None => Panic "invalid memory address or nil pointer dereference"
        end
      end
    else Return (CacheEntry.Data entry, None) w
  end.

(** *** Runtime primitives *)

Definition bind {A B : Type} (m : outcome A) (k : A -> World -> outcome B)
  : outcome B :=
  match m with
  | Return a w => k a w
  | Panic msg => Panic msg
  end.

(** [make(chan struct{})] *)
Definition make_chan (w : World) : chan * World :=
  (length (chans w), with_chans (chans w ++ [false]) w).

(** [close(ch)] panics on a channel that is already closed. *)
Definition close (ch : chan) (w : World) : outcome unit :=
  match chans w !! ch with
  | Some false => Return tt (with_chans (<[ch := true]> (chans w)) w)
  | Some true => Panic "close of closed channel"
  | None => Panic "close of nil channel"
  end.

(** Whether [<-ch] is ready: a [chan struct{}] nobody sends on delivers
    only once it is closed. *)
Definition is_closed (ch : chan) (w : World) : bool :=
  match chans w !! ch with
  | Some b => b
  | None => false
  end.

(** [time.NewTicker(d)]: "The duration d must be greater than zero; if
    not, NewTicker will panic." *)
Definition NewTicker (d : time.Duration) (w : World) : outcome nat :=
  if d <=? 0 then Panic "non-positive interval for NewTicker"
  else Return (length (tickers w))
              (with_tickers (tickers w ++ [mkTicker d false]) w).

(** [ticker.Stop()] *)
Definition Ticker_Stop (tk : nat) (w : World) : World :=
  with_tickers (alter (fun t => mkTicker (period t) true) tk (tickers w)) w.

(** [c.cron.AddFunc(spec, cmd)], [c.cron.Start()], [c.cron.Stop()] *)
Definition cron_AddFunc (spec : string) (cmd : closure) (w : World)
  : option error * World :=
  match cron_Parse env spec with
  | Some err => (Some err, w)
  | None =>
    (None, with_client (fun c =>
       set_cron (Cron.mk (Cron.entries (cron c) ++ [(spec, cmd)])
                         (Cron.running (cron c))) c) w)
  end.

Definition cron_Start (w : World) : World :=
  with_client (fun c => set_cron (Cron.mk (Cron.entries (cron c)) true) c) w.

Definition cron_Stop (w : World) : World :=
  with_client (fun c => set_cron (Cron.mk (Cron.entries (cron c)) false) c) w.

(** *** updateFunc (line 63) *)

Definition updateCtx : Context := WithTimeout Background (10 * time.Second).

Definition updateFunc (f : closure) (w : World) : World :=
  if is_closed (uf_stopChan f) w then w
  else
    match updateCache updateCtx (uf_path f) (uf_result f) w with
    | (Some err, w') => with_stdout (stdout w' ++ [(uf_path f, err)]) w'
    | (None, w') => w'
    end.

(** *** SetupCachedEndpoint (line 50) *)

(** Lines 110-116, reached for every spec that is not a sub-minute
    [@every]. *)
Definition schedule_with_cron (spec : string) (cmd : closure) (w : World)
  : outcome (option error) :=
  match cron_AddFunc spec cmd w with
  | (Some err, w') => Return (Some (failed_to_schedule err)) w'
  | (None, w') => Return None (cron_Start w')
  end.

(** Lines 92-106: the ticker, its map slot and the goroutine. *)
Definition schedule_with_ticker (path : string) (duration : time.Duration)
    (cmd : closure) (w : World) : outcome (option error) :=
  bind (NewTicker duration w) (fun tk w' =>
    Return None
      (with_goroutines (goroutines w' ++ [mkGoroutine tk cmd true])
         (with_client (fun c => set_ticker (<[path := tk]> (ticker c)) c) w'))).

(** Lines 84-116. *)
Definition schedule (config : CacheConfig.t) (cmd : closure) (w : World)
  : outcome (option error) :=
  let spec := CacheConfig.CronSpec config in
  if strings.HasPrefix spec "@every " then
    match ParseDuration env (strings.TrimPrefix spec "@every ") with
    | Err err => Return (Some (invalid_every_duration err)) w
    | Ok duration =>
      if duration <? time.Minute
      then schedule_with_ticker (CacheConfig.Path config) duration cmd w
      else schedule_with_cron spec cmd w
    end
  else schedule_with_cron spec cmd w.

(** The policy resolution as the specification words it, "a pure function
    expression -> Policy returning a tagged variant": an [@every P] with [P]
    under a minute is a fixed period, every other expression goes to the
    cron evaluator, and what neither parser accepts is not resolved. *)
Inductive Policy : Type :=
  | FixedPeriod (d : time.Duration)
  | CronRules (spec : string)
  | Unresolved (e : error).

Definition resolve_cron (spec : string) : Policy :=
  match cron_Parse env spec with
  | Some err => Unresolved (failed_to_schedule err)
  | None => CronRules spec
  end.

Definition resolve (spec : string) : Policy :=
  if strings.HasPrefix spec "@every " then
    match ParseDuration env (strings.TrimPrefix spec "@every ") with
    | Err err => Unresolved (invalid_every_duration err)
    | Ok d => if d <? time.Minute then FixedPeriod d else resolve_cron spec
    end
  else resolve_cron spec.

(** Lines 52-61: the fresh entry and the stop channel. *)
Definition register (config : CacheConfig.t) (result : iface) (w : World)
  : chan * World :=
  let path := CacheConfig.Path config in
  let w1 := with_client (fun c => set_cache
              (<[path := CacheEntry.mk result time.zero
                           (CacheConfig.Expiration config)]> (cache c)) c) w in
  let '(stopChan, w2) := make_chan w1 in
  (stopChan,
   with_client (fun c => set_stopChans (<[path := stopChan]> (stopChans c)) c) w2).

Definition SetupCachedEndpoint (ctx : Context) (config : CacheConfig.t)
    (result : iface) (w : World) : outcome (option error) :=
  let path := CacheConfig.Path config in
  let '(stopChan, w1) := register config result w in
  let cmd := mkClosure path result stopChan in
  let '(err, w2) :=
    if CacheConfig.SkipInitialFetch config then (None, w1)
    else updateCache ctx path result w1 in
  match err with
  | Some e => Return (Some (initial_update_failed e)) w2
  | None => schedule config cmd w2
  end.

(** *** StopCacheUpdates (line 215) *)

Definition StopCacheUpdates (path : string) (w : World) : outcome unit :=
  match stopChans (client w) !! path with
  | Some stopChan =>
    bind (close stopChan w) (fun _ w' =>
      Return tt (with_client
        (fun c => set_stopChans (delete path (stopChans c)) c) w'))
  | None => Return tt w
  end.

(** *** Stop (line 119) *)

(** A [for ... range] loop whose body may panic. *)
Fixpoint range {A : Type} (body : A -> World -> outcome unit) (l : list A)
    (w : World) : outcome unit :=
  match l with
  | [] => Return tt w
  | x :: l' => bind (body x w) (fun _ w' => range body l' w')
  end.

Definition Stop (w : World) : outcome unit :=
  let w1 := foldl (fun w kv => Ticker_Stop (snd kv) w) w
                  (map_to_list (ticker (client w))) in
  bind (range StopCacheUpdates (map_to_list (stopChans (client w1))).*1 w1)
       (fun _ w2 => Return tt (cron_Stop w2)).

(** *** What runs in the background

    The ticker goroutines and the cron scheduler act through these events.
    When a tick or a cron run happens is left open: a live goroutine may
    take the tick branch at any moment (a stopped ticker can still hold one
    buffered tick), and the scheduler, while running, may call any entry.
    This only adds behaviours to those of the program.

    A call of [updateFunc] is not one step of the program: between its stop
    test and its [c.Get], between the response and the decoding, and between
    the decoding and the locked store, callers and other refreshes run.
    [Begin] and [BeginCron] are the stop test alone, which puts the refresh
    in [inflight] if it passes; [Advance] is the next step of a refresh
    under way. [Tick] and [CronRun] are the runs in which nothing happens in
    between. A goroutine busy with a refresh takes no other branch until
    the refresh has returned; the events do not enforce this, which again
    only adds behaviours. *)

Inductive event : Type :=
  | Tick (g : nat)               (* goroutine g takes [case <-ticker.C] *)
  | StopSeen (g : nat)           (* goroutine g takes [case <-stopChan] *)
  | CronRun (j : nat)            (* the running scheduler calls its entry j *)
  | Sleep (d : time.Duration)    (* the clock moves on *)
  | Begin (g : nat)              (* goroutine g enters [updateFunc] *)
  | BeginCron (j : nat)          (* the scheduler enters [updateFunc] of entry j *)
  | Advance (i : nat).           (* the refresh [i] under way takes a step *)

(** Lines 64-67: the stop test of [updateFunc]. *)
Definition begin (f : closure) (w : World) : World :=
  if is_closed (uf_stopChan f) w then w
  else with_inflight (inflight w ++ [(f, ToGet)]) w.

(** Line 71: the failure is printed. *)
Definition report (f : closure) (err : error) (w : World) : World :=
  with_stdout (stdout w ++ [(uf_path f, err)]) w.

(** One step of [updateCache(updateCtx, config.Path, result)] as called at
    line 70. *)
Definition refresh_step (f : closure) (s : stage) (w : World) : stage * World :=
  match s with
  | ToGet =>
    (ToDecode (Get env (length (gets w)) updateCtx (uf_path f)),
     answered updateCtx (uf_path f) w)
  | ToDecode r =>
    match r with
    | Err err => (Over, report f (failed_to_fetch_data err) w)
    | Ok resp =>
      if negb (StatusCode resp =? StatusOK)
      then (Over, report f (unexpected_status_code (StatusCode resp)) w)
      else
        match Body resp with
        | Err err => (Over, report f (failed_to_read_body err) w)
        | Ok body =>
          match json_Unmarshal body (uf_result f) (heap w) with
          | (h, Some err) => (Over, report f (failed_to_unmarshal err) (with_heap h w))
          | (h, None) => (ToStore, with_heap h w)
          end
        end
    end
  | ToStore =>
    (Over, elapse (lag env (length (gets w)))
                  (store_entry (uf_path f) (uf_result f) w))
  | Over => (Over, w)
  end.

Definition set_alive (b : bool) (g : Goroutine) : Goroutine :=
  mkGoroutine (g_ticker g) (g_job g) b.

(** One background step; [None] when the event cannot happen. *)
Definition bg_step (e : event) (w : World) : option World :=
  match e with
  | Tick g =>
    match goroutines w !! g with
    | Some gr => if g_alive gr then Some (updateFunc (g_job gr) w) else None
    | None => None
    end
  | StopSeen g =>
    match goroutines w !! g with
    | Some gr =>
      if g_alive gr && is_closed (uf_stopChan (g_job gr)) w
      then Some (with_goroutines (alter (set_alive false) g (goroutines w))
                   (Ticker_Stop (g_ticker gr) w))
      else None
    | None => None
    end
  | CronRun j =>
    if Cron.running (cron (client w)) then
      match Cron.entries (cron (client w)) !! j with
      | Some (_, cmd) => Some (updateFunc cmd w)
      | None => None
      end
    else None
  | Sleep d => if 0 <=? d then Some (with_now (now w + d) w) else None
  | Begin g =>
    match goroutines w !! g with
    | Some gr => if g_alive gr then Some (begin (g_job gr) w) else None
    | None => None
    end
  | BeginCron j =>
    if Cron.running (cron (client w)) then
      match Cron.entries (cron (client w)) !! j with
      | Some (_, cmd) => Some (begin cmd w)
      | None => None
      end
    else None
  | Advance i =>
    match inflight w !! i with
    | Some (f, Over) => None
    | Some (f, s) =>
      let '(s', w') := refresh_step f s w in
      Some (with_inflight (<[i := (f, s')]> (inflight w')) w')
    | None => None
    end
  end.

Fixpoint bg_run (es : list event) (w : World) : option World :=
  match es with
  | [] => Some w
  | e :: es' =>
    match bg_step e w with
    | Some w' => bg_run es' w'
    | None => None
    end
  end.

(** *** One step of a caller of GetCachedOrFetch *)

Definition thread_step (ctx : Context) (path : string) (p : pc) (w : World)
  : pc * World :=
  match p with
  | AtEntry =>
    match cache (client w) !! path with
    | None => (Finished Nil (Some (no_cache_entry path)), w)
    | Some entry =>
      if needsFetch entry w then (AtGet (CacheEntry.Data entry), w)
      else (Finished (CacheEntry.Data entry) None, w)
    end
  | AtGet data =>
    (AtDecode data (Get env (length (gets w)) ctx path), answered ctx path w)
  | AtDecode data r =>
    let fail err := Finished Nil (Some (failed_to_fetch_fresh err)) in
    match r with
    | Err err => (fail (failed_to_fetch_data err), w)
    | Ok resp =>
      if negb (StatusCode resp =? StatusOK)
      then (fail (unexpected_status_code (StatusCode resp)), w)
      else
        match Body resp with
        | Err err => (fail (failed_to_read_body err), w)
        | Ok body =>
          match json_Unmarshal body data (heap w) with
          | (h, Some err) => (fail (failed_to_unmarshal err), with_heap h w)
          | (h, None) => (AtStore data, with_heap h w)
          end
        end
    end
  | AtStore data =>
    (AtReget, elapse (lag env (length (gets w))) (store_entry path data w))
  | AtReget =>
    match cache (client w) !! path with
    | Some entry => (Finished (CacheEntry.Data entry) None, w)
    | None => (Crashed, w)
    end
  | Finished v e => (Finished v e, w)
  | Crashed => (Crashed, w)
  end.

(** The caller [i] takes its next step. *)
Definition pool_step (path : string) (i : nat) (cfg : pool * World)
  : pool * World :=
  match fst cfg !! i with
  | Some (ctx, p) =>
    let '(p', w') := thread_step ctx path p (snd cfg) in
    (<[i := (ctx, p')]> (fst cfg), w')
  | None => cfg
  end.

Definition pool_run (path : string) (sched : list nat) (cfg : pool * World)
  : pool * World :=
  foldl (fun cfg i => pool_step path i cfg) cfg sched.

Definition callers (ctxs : list Context) : pool :=
  map (fun ctx => (ctx, AtEntry)) ctxs.

(** Calls made one after the other, each returning before the next
    starts; a call [(d, ctx)] starts [d] nanoseconds after the one before it
    returned. *)
Fixpoint in_sequence (calls : list (N * Context)) (path : string) (w : World)
  : outcome (list (iface * option error)) :=
  match calls with
  | [] => Return [] w
  | (d, ctx) :: rest =>
    bind (GetCachedOrFetch ctx path (elapse d w)) (fun r w' =>
      bind (in_sequence rest path w') (fun rs w'' => Return (r :: rs) w''))
  end.

(** The time that passes between such calls, all in all. *)
Definition waited (calls : list (N * Context)) : N :=
  foldr (fun c acc => (fst c + acc)%N) 0%N calls.

End Cache.

Arguments Return {Val A} a w.
Arguments Panic {Val A} msg.

Arguments World Val : clear implicits.

(** A freshly made client ([NewCachedClient]) in a process whose destination
    objects are [h] and whose clock reads [t]. *)
Definition NewWorld {Val : Type} (h : gmap Ptr Val) (t : time.Time) : World Val :=
  mkWorld NewCachedClient [] [] [] h t [] [] [].

(** ** The error taxonomy of the specification

    The package has no error types, only messages; this reads the
    specification's kinds off the [fmt.Errorf] call site, through the
    wrappers added by [SetupCachedEndpoint] and [GetCachedOrFetch]. *)

Inductive ErrorKind : Type :=
  | NotFoundError
  | ExpiredError
  | FetchError
  | DecodeError
  | ScheduleError
  | Foreign.

Fixpoint kind (e : error) : ErrorKind :=
  match e with
  | ext _ => Foreign
  | no_cache_entry _ => NotFoundError
  | cache_expired _ => ExpiredError
  | failed_to_fetch_data _ => FetchError
  | unexpected_status_code _ => FetchError
  | failed_to_read_body _ => FetchError
  | failed_to_unmarshal _ => DecodeError
  | initial_update_failed e' => kind e'
  | failed_to_fetch_fresh e' => kind e'
  | invalid_every_duration _ => ScheduleError
  | failed_to_schedule _ => ScheduleError
  end.

(** ** Reading through the pointer

    [GetCached] returns [entry.Data], a pointer; this is the payload a caller
    finds behind it. *)
Definition payload {Val : Type} (path : string) (w : World Val) : option Val :=
  match fst (GetCached path w) with
  | Ref p => heap w !! p
  | Nil => None
  end.

(** ** Counting fetches of concurrent callers *)

(** Whether a caller at this program point can still call [c.Get]. *)
Definition may_fetch (p : pc) : nat :=
  match p with
  | AtEntry | AtGet _ => 1
  | _ => 0
  end.

Definition potential (ps : pool) : nat :=
  sum_list_with (fun t => may_fetch (snd t)) ps.

(** A caller's program point agrees with the destination [d] of the entry:
    it carries [d] while refreshing, returns [d] when it returns without
    error and nil otherwise, and has not dereferenced a missing entry. *)
Definition pc_ok (d : iface) (p : pc) : Prop :=
  match p with
  | AtEntry | AtReget => True
  | AtGet x | AtDecode x _ | AtStore x => x = d
  | Finished v None => v = d
  | Finished v (Some _) => v = Nil
  | Crashed => False
  end.

(** ** Stop channels and the tasks that listen on them *)

(** Every channel filed under a key of [stopChans] is open, and no two keys
    share a channel. *)
Definition stopChans_ok {Val : Type} (w : World Val) : Prop :=
  (forall path ch,
     stopChans (client w) !! path = Some ch -> chans w !! ch = Some false)
  /\ (forall p1 p2 ch,
        stopChans (client w) !! p1 = Some ch ->
        stopChans (client w) !! p2 = Some ch -> p1 = p2).

(** The closures that can still be called: the jobs of the live ticker
    goroutines and the entries of the cron scheduler. *)
Definition tasks {Val : Type} (w : World Val) : list closure :=
  map g_job (List.filter g_alive (goroutines w))
  ++ map snd (Cron.entries (cron (client w))).

(** Every task has seen its stop channel closed: none will fetch again. *)
Definition silent {Val : Type} (w : World Val) : Prop :=
  forall f, In f (tasks w) -> is_closed (uf_stopChan f) w = true.

(** The same for the tasks of one key. *)
Definition quiet {Val : Type} (path : string) (w : World Val) : Prop :=
  forall f, In f (tasks w) -> uf_path f = path ->
            is_closed (uf_stopChan f) w = true.

(** Every task of the key that is not cancelled listens on the channel
    filed under the key, the one [StopCacheUpdates] will close. *)
Definition tracked {Val : Type} (path : string) (w : World Val) : Prop :=
  forall f, In f (tasks w) -> uf_path f = path ->
            is_closed (uf_stopChan f) w = true
            \/ stopChans (client w) !! path = Some (uf_stopChan f).

(** [w'] differs from [w] at most in the channels and in [stopChans]. *)
Definition stop_frame {Val : Type} (w w' : World Val) : Prop :=
  cache (client w') = cache (client w) /\ cron (client w') = cron (client w)
  /\ ticker (client w') = ticker (client w) /\ tickers w' = tickers w
  /\ goroutines w' = goroutines w /\ heap w' = heap w /\ now w' = now w
  /\ gets w' = gets w /\ stdout w' = stdout w /\ inflight w' = inflight w.

(** The calls of [c.Get] made for one path. *)
Definition gets_of (path : string) (l : list (Context * string))
  : list (Context * string) :=
  List.filter (fun c => bool_decide (snd c = path)) l.

(** ** Refreshes under way when a key, or the client, is stopped

    [Q] picks the paths in question: one path for [StopCacheUpdates], all of
    them for [Stop]. *)

Definition is_ToGet (s : stage) : bool :=
  match s with ToGet => true | _ => false end.

Definition is_Over (s : stage) : bool :=
  match s with Over => true | _ => false end.

Definition only (path : string) : string -> bool :=
  fun k => bool_decide (k = path).

Definition any : string -> bool := fun _ => true.

(** The calls of [c.Get] made for the paths of [Q]. *)
Definition gets_in (Q : string -> bool) (l : list (Context * string))
  : list (Context * string) :=
  List.filter (fun c => Q (snd c)) l.

(** The scheduled refreshes of those paths that have passed their stop test
    and have not returned, and how many of them have still to call
    [c.Get]. *)
Definition under_way {Val : Type} (Q : string -> bool) (w : World Val)
  : list (closure * stage) :=
  List.filter (fun r => Q (uf_path (fst r)) && negb (is_Over (snd r))) (inflight w).

Definition owed {Val : Type} (Q : string -> bool) (w : World Val) : nat :=
  length (List.filter (fun r => Q (uf_path (fst r)) && is_ToGet (snd r))
                      (inflight w)).

(** No task of those paths passes its stop test any more. *)
Definition muted {Val : Type} (Q : string -> bool) (w : World Val) : Prop :=
  forall f, In f (tasks w) -> Q (uf_path f) = true ->
            is_closed (uf_stopChan f) w = true.

(** What a program does with a client, and what happens behind its back. *)
Inductive call : Type :=
  | CallSetup (ctx : Context) (config : CacheConfig.t) (result : iface)
  | CallGetCachedOrFetch (ctx : Context) (path : string)
  | CallStopCacheUpdates (path : string)
  | CallStop.

Definition world_of {Val A : Type} (o : outcome A) : option (World Val) :=
  match o with
  | Return _ w => Some w
  | Panic _ => None
  end.

(** The world after a call; [None] if it panicked. [GetCached] is absent: it
    changes nothing. *)
Definition exec {Val : Type} (env : Backend Val) (c : call) (w : World Val)
  : option (World Val) :=
  match c with
  | CallSetup ctx config result => world_of (SetupCachedEndpoint env ctx config result w)
  | CallGetCachedOrFetch ctx path => world_of (GetCachedOrFetch env ctx path w)
  | CallStopCacheUpdates path => world_of (StopCacheUpdates path w)
  | CallStop => world_of (Stop w)
  end.

(** Calls and background events in the order they happen. *)
Fixpoint history {Val : Type} (env : Backend Val) (l : list (call + event))
    (w : World Val) : option (World Val) :=
  match l with
  | [] => Some w
  | inl c :: l' =>
    match exec env c w with Some w' => history env l' w' | None => None end
  | inr e :: l' =>
    match bg_step env e w with Some w' => history env l' w' | None => None end
  end.

(** A history in which [SetupCachedEndpoint] is only called on keys whose
    tasks, if any, have all been cancelled. *)
Definition setup_on_quiet_key {Val : Type} (x : call + event) (w : World Val)
  : Prop :=
  match x with
  | inl (CallSetup _ config _) => quiet (CacheConfig.Path config) w
  | _ => True
  end.

Fixpoint registers_quiet_keys {Val : Type} (env : Backend Val)
    (l : list (call + event)) (w : World Val) : Prop :=
  match l with
  | [] => True
  | x :: l' =>
    setup_on_quiet_key x w
    /\ match history env [x] w with
       | Some w' => registers_quiet_keys env l' w'
       | None => True
       end
  end.

(** ** Reading a history *)

(** The keys [SetupCachedEndpoint] was called on. *)
Definition setup_paths (l : list (call + event)) : list string :=
  flat_map (fun x => match x with
                     | inl (CallSetup _ config _) => [CacheConfig.Path config]
                     | _ => []
                     end) l.

(** The key and the destination of every call of [SetupCachedEndpoint]. *)
Definition setup_pairs (l : list (call + event)) : list (string * iface) :=
  flat_map (fun x => match x with
                     | inl (CallSetup _ config result) =>
                       [(CacheConfig.Path config, result)]
                     | _ => []
                     end) l.

(** The context and the path of every call that may fetch on behalf of its
    caller. *)
Definition foreground_calls (l : list (call + event)) : list (Context * string) :=
  flat_map (fun x => match x with
                     | inl (CallSetup ctx config _) => [(ctx, CacheConfig.Path config)]
                     | inl (CallGetCachedOrFetch ctx path) => [(ctx, path)]
                     | _ => []
                     end) l.

(** The expiration window of key [k] after [x], if it was [acc] before. *)
Definition configure (k : string) (acc : option time.Duration)
    (x : call + event) : option time.Duration :=
  match x with
  | inl (CallSetup _ config _) =>
    if decide (CacheConfig.Path config = k)
    then Some (CacheConfig.Expiration config) else acc
  | _ => acc
  end.

(** No entry is stamped before the zero time or after the present. *)
Definition stamps_ok {Val : Type} (w : World Val) : Prop :=
  0 <= now w
  /\ forall k e, cache (client w) !! k = Some e ->
                 0 <= CacheEntry.UpdatedAt e <= now w.

(** How one call or event changes what the store holds under [k]: a
    registration of [k] puts a new entry there; a foreground refresh stamps
    the entry and keeps its destination; a background refresh stamps it and
    installs the destination of the task that ran. A stamp is a clock
    reading taken during the call or the event. *)
Definition entry_change {Val : Type} (x : call + event) (k : string)
    (w w' : World Val) : Prop :=
  match x with
  | inl (CallSetup _ config result) =>
    if decide (k = CacheConfig.Path config) then
      exists e',
        cache (client w') !! k = Some e'
        /\ CacheEntry.Data e' = result
        /\ CacheEntry.Expiration e' = CacheConfig.Expiration config
        /\ (CacheEntry.UpdatedAt e' = time.zero
            \/ now w <= CacheEntry.UpdatedAt e' <= now w')
    else cache (client w') !! k = cache (client w) !! k
  | inl _ =>
    cache (client w') !! k = cache (client w) !! k
    \/ exists e t,
         cache (client w) !! k = Some e /\ now w <= t <= now w'
         /\ cache (client w') !! k
            = Some (CacheEntry.mk (CacheEntry.Data e) t (CacheEntry.Expiration e))
  | inr _ =>
    cache (client w') !! k = cache (client w) !! k
    \/ exists e f t,
         (In f (tasks w) \/ In f (map fst (inflight w))) /\ uf_path f = k
         /\ cache (client w) !! k = Some e /\ now w <= t <= now w'
         /\ cache (client w') !! k
            = Some (CacheEntry.mk (uf_result f) t (CacheEntry.Expiration e))
  end.

(** Why a call of [c.Get] was made during [x]. *)
Definition request_cause {Val : Type} (x : call + event) (c : Context * string)
    (w : World Val) : Prop :=
  match x with
  | inl (CallSetup ctx config _) => c = (ctx, CacheConfig.Path config)
  | inl (CallGetCachedOrFetch ctx path) =>
    c = (ctx, path) /\ is_Some (cache (client w) !! path)
  | inl _ => False
  | inr _ =>
    exists f, ((In f (tasks w) /\ is_closed (uf_stopChan f) w = false)
               \/ In (f, ToGet) (inflight w))
              /\ c = (updateCtx, uf_path f)
  end.

(** Why the object at [p] may have been written during [x]. *)
Definition write_cause {Val : Type} (x : call + event) (p : Ptr) (w : World Val)
  : Prop :=
  match x with
  | inl (CallSetup _ _ result) => result = Ref p
  | inl (CallGetCachedOrFetch _ path) =>
    exists e, cache (client w) !! path = Some e /\ CacheEntry.Data e = Ref p
  | inl _ => False
  | inr _ =>
    exists f, (In f (tasks w) \/ In f (map fst (inflight w))) /\ uf_result f = Ref p
  end.

(** Everything the client holds or has done goes back to a registration in
    [ps] or a foreground call in [fs]: the destinations in the store, in the
    tasks and in the refreshes under way, the requests made, and the objects
    that differ from [h0]. *)
Definition accounted {Val : Type} (ps : list (string * iface))
    (fs : list (Context * string)) (h0 : gmap Ptr Val) (w : World Val) : Prop :=
  (forall k e, cache (client w) !! k = Some e -> In (k, CacheEntry.Data e) ps)
  /\ (forall f, In f (tasks w) \/ In f (map fst (inflight w)) ->
                In (uf_path f, uf_result f) ps)
  /\ (forall c, In c (gets w) ->
        In (snd c) (map fst ps) /\ (In c fs \/ fst c = updateCtx))
  /\ (forall p, ~ In (Ref p) (map snd ps) -> heap w !! p = h0 !! p).

(** ** The base client

    [Client], its options [WithTimeout] and [WithHeader], [NewClient],
    [doRequest] and the four request methods. Line numbers in this part are
    those of the source file that declares [Client]. The JSON encoder, the
    URL parser and the transport behind [c.client.Do] are fields of [Net];
    the order in which [doRequest] walks the map of default headers, which
    the language leaves open, is an argument of the model. *)

(** *** net/textproto *)

Module textproto.

(** The bytes of an RFC 7230 token: letters, digits and fifteen marks. *)
Definition validHeaderFieldByte (c : ascii) : bool :=
  let n := nat_of_ascii c in
  ((48 <=? n) && (n <=? 57) || (65 <=? n) && (n <=? 90)
   || (97 <=? n) && (n <=? 122))%nat
  || existsb (Ascii.eqb c)
       ["!"; "#"; "$"; "%"; "&"; "'"; "*"; "+"; "-"; "."; "^"; "_"; "`"; "|"; "~"]%char.

Definition upper_case (c : ascii) : ascii :=
  let n := nat_of_ascii c in
  if ((97 <=? n) && (n <=? 122))%nat then ascii_of_nat (n - 32) else c.

Definition lower_case (c : ascii) : ascii :=
  let n := nat_of_ascii c in
  if ((65 <=? n) && (n <=? 90))%nat then ascii_of_nat (n + 32) else c.

Fixpoint canonical (upper : bool) (s : string) : string :=
  match s with
  | EmptyString => EmptyString
  | String c s' =>
    let c' := if upper then upper_case c else lower_case c in
    String c' (canonical (Ascii.eqb c' "-") s')
  end.

(** [textproto.CanonicalMIMEHeaderKey]: "The canonicalization converts the
    first letter and any letter following a hyphen to upper case; the rest
    are converted to lowercase. If s contains a space or invalid header
    field bytes, it is returned without modifications." *)
Definition CanonicalMIMEHeaderKey (s : string) : string :=
  if forallb validHeaderFieldByte (list_ascii_of_string s)
  then canonical true s else s.

End textproto.

(** *** net/http *)

Module http.

Definition MethodGet : string := "GET".
Definition MethodPost : string := "POST".
Definition MethodPut : string := "PUT".
Definition MethodDelete : string := "DELETE".

(** [http.Client]. The package sets [Timeout] and nothing else; the other
    fields keep their zero value. *)
Record Client : Type := mkClient { Timeout : time.Duration }.

(** [http.Header], a [map[string][]string]. *)
Abbreviation Header := (gmap string (list string)).

(** [h.Set(key, value)]: "It replaces any existing values associated with
    key. The key is case insensitive; it is canonicalized by
    textproto.CanonicalMIMEHeaderKey." *)
Definition Header_Set (key value : string) (h : Header) : Header :=
  <[textproto.CanonicalMIMEHeaderKey key := [value]]> h.

Module Request.

Record t : Type := mk {
  Ctx : Context;
  Method : string;
  URL : string;
  Header : gmap string (list string);
  Body : string
}.

Definition with_Header (h : gmap string (list string)) (r : t) : t :=
  mk (Ctx r) (Method r) (URL r) h (Body r).

End Request.

(** A method is a non-empty token. *)
Definition validMethod (method : string) : bool :=
  negb (String.eqb method EmptyString)
  && forallb textproto.validHeaderFieldByte (list_ascii_of_string method).

(** [http.NewRequestWithContext(ctx, method, url, body)] with a
    [*bytes.Buffer] holding [body]; [None] is the nil context. The URL
    parser is external. *)
Definition NewRequestWithContext (url_Parse : string -> option error)
    (ctx : option Context) (method url body : string) : result Request.t :=
  let method := if String.eqb method EmptyString then MethodGet else method in
  if negb (validMethod method) then Err (ext "net/http: invalid method")
  else
    match ctx with
    | None => Err (ext "net/http: nil Context")
    | Some ctx =>
      match url_Parse url with
      | Some err => Err err
      | None => Ok (Request.mk ctx method url ∅ body)
      end
    end.

End http.

(** What the base client relies on: the JSON encoder over the bodies [B]
    a caller may pass, the URL parser, and [c.client.Do], whose answer to
    the [n]-th request sent is anything the transport may produce. *)
Record Net (B : Type) : Type := mkNet {
  json_Marshal : B -> result string;
  url_Parse : string -> option error;
  Do : nat -> http.Client -> http.Request.t -> result Response
}.

Arguments json_Marshal {B} _ _.
Arguments url_Parse {B} _ _.
Arguments Do {B} _ _ _ _.

Module Client.

Record t : Type := mk {
  client : http.Client;
  baseURL : string;
  headers : gmap string string
}.

(** An [Option] is a function that edits the client it is given. *)
Definition Option : Type := t -> t.

(** Line 20. *)
Definition WithTimeout (timeout : time.Duration) : Option :=
  fun c => mk (http.mkClient timeout) (baseURL c) (headers c).

(** Line 27. *)
Definition WithHeader (key value : string) : Option :=
  fun c => mk (client c) (baseURL c) (<[key := value]> (headers c)).

(** Line 34. *)
Definition NewClient (baseURL : string) (opts : list Option) : t :=
  foldl (fun c opt => opt c)
        (mk (http.mkClient (30 * time.Second)) baseURL
            {[ "Content-Type" := "application/json" ]})
        opts.

(** Lines 69-71, [for k, v := range c.headers { req.Header.Set(k, v) }],
    along the order in which the runtime hands out the pairs of the map. *)
Definition set_headers (order : list (string * string))
    (h : gmap string (list string)) : gmap string (list string) :=
  foldl (fun h kv => http.Header_Set (fst kv) (snd kv) h) h order.

(** Line 53. [order] is the iteration order of [c.headers] in this call, a
    permutation of its pairs the language leaves open; [sent] lists the
    requests handed to the transport so far. A [body] of [None] is the nil
    interface. *)
Definition doRequest {B : Type} (net : Net B) (c : t)
    (order : list (string * string)) (ctx : option Context)
    (method path : string) (body : option B) (sent : list http.Request.t)
  : result Response * list http.Request.t :=
  match (match body with
         | Some b => json_Marshal net b
         | None => Ok EmptyString
         end) with
  | Err err => (Err err, sent)
  | Ok reqBody =>
    match http.NewRequestWithContext (url_Parse net) ctx method
                                     (baseURL c ++ path) reqBody with
    | Err err => (Err err, sent)
    | Ok req =>
      let req := http.Request.with_Header
                   (set_headers order (http.Request.Header req)) req in
      (Do net (length sent) (client c) req, sent ++ [req])
    end
  end.

(** Lines 77-93. *)
Definition Get {B : Type} (net : Net B) (c : t) (order : list (string * string))
    (ctx : option Context) (path : string) (sent : list http.Request.t)
  : result Response * list http.Request.t :=
  doRequest net c order ctx http.MethodGet path None sent.

Definition Post {B : Type} (net : Net B) (c : t) (order : list (string * string))
    (ctx : option Context) (path : string) (body : option B)
    (sent : list http.Request.t) : result Response * list http.Request.t :=
  doRequest net c order ctx http.MethodPost path body sent.

Definition Put {B : Type} (net : Net B) (c : t) (order : list (string * string))
    (ctx : option Context) (path : string) (body : option B)
    (sent : list http.Request.t) : result Response * list http.Request.t :=
  doRequest net c order ctx http.MethodPut path body sent.

Definition Delete {B : Type} (net : Net B) (c : t) (order : list (string * string))
    (ctx : option Context) (path : string) (sent : list http.Request.t)
  : result Response * list http.Request.t :=
  doRequest net c order ctx http.MethodDelete path None sent.

(** An option that leaves the default header [k], or the timeout, alone. *)
Definition keeps_header (k : string) (o : Option) : Prop :=
  forall c, headers (o c) !! k = headers c !! k.

Definition keeps_timeout (o : Option) : Prop :=
  forall c, http.Timeout (client (o c)) = http.Timeout (client c).

(** No other default header is sent under the name of [k] with another
    value. *)
Definition unrivalled (c : t) (k v : string) : Prop :=
  forall k' v',
    headers c !! k' = Some v' ->
    textproto.CanonicalMIMEHeaderKey k' = textproto.CanonicalMIMEHeaderKey k ->
    v' = v.

End Client.

(** ** A concrete backend

    The destination is a [[2]int]; the server plays a fixed script of
    responses; the parsers are given on the handful of texts the scenarios
    below use. *)

Module Demo.

Definition Val : Type := Z * Z.

Definition ok (body : string) : result Response :=
  Ok (mkResponse StatusOK (Ok body)).

Definition refused : result Response := Err (ext "connection refused").

(** The [n]-th call of [c.Get] receives the [n]-th response of the script. *)
Definition script (rs : list (result Response))
  : nat -> Context -> string -> result Response :=
  fun n _ _ => match rs !! n with Some r => r | None => refused end.

(** Well-formed JSON among the texts used here: ["[1,2]"], ["[3,4]"] and
    ["[7,true]"]; the empty and the truncated text are not. *)
Definition checkValid (data : string) : option error :=
  if decide (data = "[1,2]") then None
  else if decide (data = "[3,4]") then None
  else if decide (data = "[7,true]") then None
  else Some (ext "unexpected end of JSON input").

(** Decoding into a [[2]int]: elements are stored one by one; an element of
    the wrong type is skipped and reported once the array has been walked. *)
Definition decode (data : string) (old : Val) : Val * option error :=
  if decide (data = "[1,2]") then ((1, 2), None)
  else if decide (data = "[3,4]") then ((3, 4), None)
  else if decide (data = "[7,true]")
       then ((7, snd old),
             Some (ext "json: cannot unmarshal bool into Go value of type int"))
  else (old, None).

Definition parseDuration (s : string) : result time.Duration :=
  if decide (s = "0s") then Ok 0
  else if decide (s = "100ms") then Ok (100 * time.Millisecond)
  else if decide (s = "90s") then Ok (90 * time.Second)
  else Err (ext "time: invalid duration").

Definition cronParse (spec : string) : option error :=
  if decide (spec = "* * * * *") then None
  else if decide (spec = "@every 90s") then None
  else Some (ext "expected exactly 5 fields").

Definition backend (rs : list (result Response)) : Backend Val :=
  mkBackend Val (script rs) checkValid decode parseDuration cronParse
            (fun _ => 20000000%N) (fun _ => 1000%N).

(** [var data [2]int] at address 1, and a clock reading some instant of 2024. *)
Definition data : iface := Ref 1%positive.
Definition t0 : time.Time := time.unixEpoch + 1704067200 * time.Second.
Definition boot : World Val := NewWorld {[ 1%positive := (0, 0) ]} t0.

Definition config (spec : string) (exp : time.Duration) (skip : bool)
  : CacheConfig.t :=
  CacheConfig.mk "/test" spec exp skip.

(** The world a call leaves behind, or the world it started in if it
    panicked. *)
Definition after {A : Type} (o : outcome A) (w : World Val) : World Val :=
  match o with
  | Return _ w' => w'
  | Panic _ => w
  end.

(** The world a run of background events leaves behind, or the world it
    started in if one of them cannot happen. *)
Definition after_events (rs : list (result Response)) (es : list event)
    (w : World Val) : World Val :=
  match bg_run (backend rs) es w with
  | Some w' => w'
  | None => w
  end.

(** *** Scenarios *)

(** [SetupCachedEndpoint] on "/test" with the destination [data]. *)
Definition setup (rs : list (result Response)) (spec : string)
    (exp : time.Duration) (skip : bool) (w : World Val) : World Val :=
  after (SetupCachedEndpoint (backend rs) (Caller 0) (config spec exp skip) data w) w.

(** One step of a single caller of [GetCachedOrFetch]. *)
Definition step (rs : list (result Response)) (ctx : Context)
    (c : pc * World Val) : pc * World Val :=
  thread_step (backend rs) ctx "/test" (fst c) (snd c).

(** Registered without an initial fetch, one-minute window. *)
Definition unpopulated : World Val := setup [] "* * * * *" time.Minute true boot.

(** Registered and populated with [[1,2]], one-minute window. *)
Definition populated (rs : list (result Response)) : World Val :=
  setup rs "* * * * *" time.Minute false boot.

(** The same key registered twice with a 100ms ticker. *)
Definition registered_twice (rs : list (result Response)) : World Val :=
  setup rs "@every 100ms" time.Second true
    (setup rs "@every 100ms" time.Second true boot).

(** The key registered once with a 100ms ticker, as one call of a history. *)
Definition register_once : call :=
  CallSetup (Caller 0) (config "@every 100ms" time.Second true) data.

Definition registered_once (rs : list (result Response)) : World Val :=
  setup rs "@every 100ms" time.Second true boot.

(** Register, let the ticker fire, stop the key, stop the client. *)
Definition a_day : list (call + event) :=
  [inl register_once; inr (Sleep (100 * time.Millisecond)); inr (Tick 0%nat);
   inl (CallStopCacheUpdates "/test"); inl CallStop].

Definition evening (rs : list (result Response)) : World Val :=
  match history (backend rs) a_day boot with
  | Some w => w
  | None => boot
  end.

(** Two objects, of which only the first is ever registered. *)
Definition boot2 : World Val :=
  NewWorld {[ 1%positive := (0, 0); 2%positive := (5, 6) ]} t0.

(** Register with an initial fetch and a 100ms ticker, come back two
    minutes later, let the ticker fire, ask for a key nobody set up. *)
Definition busy_day : list (call + event) :=
  [inl (CallSetup (Caller 0) (config "@every 100ms" time.Minute false) data);
   inr (Sleep (2 * time.Minute));
   inl (CallGetCachedOrFetch (Caller 1) "/test");
   inr (Tick 0%nat);
   inl (CallGetCachedOrFetch (Caller 2) "/other")].

Definition busy_evening (rs : list (result Response)) : World Val :=
  match history (backend rs) busy_day boot2 with
  | Some w => w
  | None => boot2
  end.

End Demo.

(** ** A concrete network for the base client *)

Module DemoNet.

(** Bodies are texts already; the one named [chan] stands for a value the
    encoder refuses. *)
Definition marshal (b : string) : result string :=
  if decide (b = "chan") then Err (ext "json: unsupported type: chan int")
  else Ok b.

(** Every URL parses but those that start with a colon. *)
Definition parse (u : string) : option error :=
  if strings.HasPrefix u ":" then Some (ext "parse: missing protocol scheme")
  else None.

Definition transport (n : nat) (c : http.Client) (r : http.Request.t)
  : result Response :=
  Ok (mkResponse StatusOK (Ok "{}")).

Definition net : Net string := mkNet string marshal parse transport.

(** A client whose caller tried to replace the default content type,
    spelling the header in lower case. *)
Definition plain : Client.t :=
  Client.NewClient "https://api.example.com"
    [Client.WithHeader "content-type" "text/plain"].

Definition default_first : list (string * string) :=
  [("Content-Type", "application/json"); ("content-type", "text/plain")].

Definition default_last : list (string * string) :=
  [("content-type", "text/plain"); ("Content-Type", "application/json")].

(** A client with one more default header. *)
Definition keyed : Client.t :=
  Client.NewClient "https://api.example.com"
    [Client.WithHeader "X-API-Key" "secret"].

End DemoNet.


(** * Properties *)

(** Case analysis along [updateCache]: the round trip, the status, the body
    and the decoding, in the order the code inspects them. *)
Ltac response_cases :=
  repeat match goal with
  | |- context [Get ?e ?n ?c ?p] =>
    destruct (Get e n c p) as [?resp|?err]
  | |- context [negb (StatusCode ?r =? StatusOK)] =>
    destruct (negb (StatusCode r =? StatusOK))
  | |- context [Body ?r] =>
    destruct (Body r) as [?body|?err]
  | |- context [json_Unmarshal ?e ?b ?v ?m] =>
    destruct (json_Unmarshal e b v m) as [?h [?err|]]
  end.

(** The conjuncts of a frame lemma as hypotheses. *)
Ltac frame_of lemma H := pose proof lemma as H; cbv zeta in H; cbn [fst snd] in H.

(** ** Saturating time arithmetic *)

Lemma Sub_exact (t u : time.Time) :
  time.minDuration <= t - u <= time.maxDuration -> time.Sub t u = t - u.
Proof.
  intros [Hlo Hhi]. unfold time.Sub.
  destruct (Z.ltb_spec time.maxDuration (t - u)); [lia|].
  destruct (Z.ltb_spec (t - u) time.minDuration); [lia|]. reflexivity.
Qed.

Lemma Sub_saturates (t u : time.Time) :
  time.maxDuration < t - u -> time.Sub t u = time.maxDuration.
Proof.
  intros H. unfold time.Sub.
  destruct (Z.ltb_spec time.maxDuration (t - u)); [reflexivity|lia].
Qed.

Lemma Since_self (t : time.Time) : time.Since t t = 0.
Proof.
  unfold time.Since. rewrite Sub_exact; [lia|].
  replace (t - t) with 0 by lia. unfold time.minDuration, time.maxDuration. lia.
Qed.

(** Any clock reading of the Unix era is more than 292 years past the zero
    [Time], so the age of [time.Time{}] is the largest [Duration]. *)
Lemma Since_zero (now : time.Time) :
  time.unixEpoch <= now -> time.Since now time.zero = time.maxDuration.
Proof.
  intros H. unfold time.Since. apply Sub_saturates.
  unfold time.zero, time.maxDuration, time.unixEpoch, time.Second in *. lia.
Qed.

Lemma Since_le_max (now t : time.Time) : time.Since now t <= time.maxDuration.
Proof.
  unfold time.Since, time.Sub.
  destruct (Z.ltb_spec time.maxDuration (now - t)); [lia|].
  destruct (Z.ltb_spec (now - t) time.minDuration); [|lia].
  unfold time.minDuration, time.maxDuration. lia.
Qed.

Section Properties.

Context {Val : Type} (env : Backend Val).

Implicit Types (w : World Val) (path : string) (ctx : Context).

(** ** GetCached *)

Lemma GetCached_unregistered path w :
  cache (client w) !! path = None ->
  GetCached path w = (Nil, Some (no_cache_entry path)).
Proof. intros H. unfold GetCached. rewrite H. reflexivity. Qed.

Lemma GetCached_stale path w entry :
  cache (client w) !! path = Some entry ->
  CacheEntry.Expiration entry < time.Since (now w) (CacheEntry.UpdatedAt entry) ->
  GetCached path w = (CacheEntry.Data entry, Some (cache_expired path)).
Proof.
  intros H Hage. unfold GetCached. rewrite H.
  destruct (Z.ltb_spec (CacheEntry.Expiration entry)
              (time.Since (now w) (CacheEntry.UpdatedAt entry))); [reflexivity|lia].
Qed.

Lemma GetCached_fresh path w entry :
  cache (client w) !! path = Some entry ->
  time.Since (now w) (CacheEntry.UpdatedAt entry) <= CacheEntry.Expiration entry ->
  GetCached path w = (CacheEntry.Data entry, None).
Proof.
  intros H Hage. unfold GetCached. rewrite H.
  destruct (Z.ltb_spec (CacheEntry.Expiration entry)
              (time.Since (now w) (CacheEntry.UpdatedAt entry))); [lia|reflexivity].
Qed.

(** A never-populated entry is reported expired for every window short of
    the largest [Duration]. *)
Lemma GetCached_never_populated path w entry :
  cache (client w) !! path = Some entry ->
  CacheEntry.UpdatedAt entry = time.zero ->
  time.unixEpoch <= now w ->
  CacheEntry.Expiration entry < time.maxDuration ->
  GetCached path w = (CacheEntry.Data entry, Some (cache_expired path)).
Proof.
  intros H Hz Hnow Hexp. apply GetCached_stale; [exact H|].
  rewrite Hz, Since_zero by exact Hnow. exact Hexp.
Qed.

(** C3, at the input where the code departs from it: a registered entry that
    was never populated ([UpdatedAt] is the zero time) and whose window is
    the largest [Duration] is returned by [GetCached] with no error, because
    the saturated age [time.Since(time.Time{})] does not exceed the window;
    [GetCachedOrFetch] tests [IsZero] first and does treat the same entry as
    needing a fetch. *)
Theorem GetCached_never_populated_max_window path w entry :
  cache (client w) !! path = Some entry ->
  CacheEntry.UpdatedAt entry = time.zero ->
  CacheEntry.Expiration entry = time.maxDuration ->
  GetCached path w = (CacheEntry.Data entry, None)
  /\ needsFetch entry w = true.
Proof.
  intros H Hz Hexp. split.
  - apply GetCached_fresh; [exact H|]. rewrite Hexp. apply Since_le_max.
  - unfold needsFetch. rewrite Hz. reflexivity.
Qed.

(** ** updateCache *)

Lemma json_Unmarshal_syntax_error data v (h : gmap Ptr Val) e :
  json_checkValid env data = Some e ->
  json_Unmarshal env data v h = (h, Some e).
Proof. intros H. unfold json_Unmarshal. rewrite H. reflexivity. Qed.

(** Only the cell behind the destination pointer can change. *)
Lemma json_Unmarshal_other data p (h : gmap Ptr Val) q :
  q <> p -> fst (json_Unmarshal env data (Ref p) h) !! q = h !! q.
Proof.
  intros Hq. unfold json_Unmarshal.
  destruct (json_checkValid env data); [reflexivity|].
  destruct (h !! p) eqn:Hp; [|reflexivity].
  destruct (json_decode env data v) as [new e]. simpl.
  rewrite lookup_insert_ne by congruence. reflexivity.
Qed.

Lemma store_entry_lookup path result w k :
  cache (client (store_entry path result w)) !! k =
  if decide (k = path)
  then (fun entry => CacheEntry.mk result (now w) (CacheEntry.Expiration entry))
         <$> cache (client w) !! path
  else cache (client w) !! k.
Proof.
  unfold store_entry. destruct (cache (client w) !! path) as [entry|] eqn:H.
  - simpl. destruct (decide (k = path)) as [->|Hne].
    + rewrite lookup_insert_eq. reflexivity.
    + rewrite lookup_insert_ne by congruence. reflexivity.
  - destruct (decide (k = path)) as [->|Hne]; [rewrite H|]; reflexivity.
Qed.

Lemma store_entry_frame path result w :
  let w' := store_entry path result w in
  cron (client w') = cron (client w) /\ stopChans (client w') = stopChans (client w)
  /\ ticker (client w') = ticker (client w) /\ chans w' = chans w
  /\ tickers w' = tickers w /\ goroutines w' = goroutines w
  /\ heap w' = heap w /\ now w' = now w /\ gets w' = gets w
  /\ stdout w' = stdout w /\ inflight w' = inflight w.
Proof.
  unfold store_entry. destruct (cache (client w) !! path); simpl; tauto.
Qed.

(** What [updateCache] never touches, whatever the response. *)
Lemma updateCache_frame ctx path result w :
  let w' := snd (updateCache env ctx path result w) in
  gets w' = gets w ++ [(ctx, path)]
  /\ cron (client w') = cron (client w) /\ stopChans (client w') = stopChans (client w)
  /\ ticker (client w') = ticker (client w) /\ chans w' = chans w
  /\ tickers w' = tickers w /\ goroutines w' = goroutines w
  /\ refresh_stamp env w <= now w' <= refresh_end env w
  /\ stdout w' = stdout w /\ inflight w' = inflight w.
Proof.
  unfold updateCache, refresh_end, refresh_stamp. response_cases;
    try (simpl; repeat split; try reflexivity; lia).
  cbv zeta. cbn [snd].
  match goal with
  | |- context [store_entry ?p ?r ?w0] => frame_of (store_entry_frame p r w0) F
  end.
  simpl in F. simpl. rewrite length_app, Nat.add_1_r.
  repeat split; try tauto; lia.
Qed.

(** A failed refresh: the whole client, in particular every entry's [Data],
    [UpdatedAt] and [Expiration], is as before; the error is a fetch or a
    decode error; the heap can differ only by what [json.Unmarshal] did. *)
Lemma updateCache_failed ctx path result w err w' :
  updateCache env ctx path result w = (Some err, w') ->
  client w' = client w
  /\ ((kind err = FetchError /\ heap w' = heap w)
      \/ (kind err = DecodeError /\
          exists body e,
            Get env (length (gets w)) ctx path = Ok (mkResponse StatusOK (Ok body))
            /\ json_Unmarshal env body result (heap w) = (heap w', Some e)
            /\ err = failed_to_unmarshal e)).
Proof.
  unfold updateCache.
  destruct (Get env (length (gets w)) ctx path) as [resp|e0].
  2:{ intros [= <- <-]. simpl. auto. }
  destruct resp as [code rbody]. cbn [StatusCode Body].
  destruct (Z.eqb_spec code StatusOK) as [->|Hcode]; cbn [negb].
  2:{ intros [= <- <-]. simpl. auto. }
  destruct rbody as [body|e0].
  2:{ intros [= <- <-]. simpl. auto. }
  destruct (json_Unmarshal env body result _) as [h [e|]] eqn:Hj.
  - intros [= <- <-]. simpl. split; [reflexivity|]. right.
    split; [reflexivity|]. exists body, e. simpl in Hj. rewrite Hj. auto.
  - intros [= _]. 
Qed.

(** A successful refresh assigns [Data] and [UpdatedAt] of the entry of
    [path], and nothing else in the store, in one step. *)
Lemma updateCache_succeeded ctx path result w w' :
  updateCache env ctx path result w = (None, w') ->
  forall k, cache (client w') !! k =
            if decide (k = path)
            then (fun entry => CacheEntry.mk result (refresh_stamp env w)
                                 (CacheEntry.Expiration entry))
                   <$> cache (client w) !! path
            else cache (client w) !! k.
Proof.
  unfold updateCache. response_cases; try discriminate.
  intros [= <-] k. cbn [client elapse with_now]. rewrite store_entry_lookup.
  reflexivity.
Qed.

(** The clock after a refresh: a failed one returns when the round trip is
    over, a successful one after the stamp has been taken. *)
Lemma updateCache_clock ctx path result w r w' :
  updateCache env ctx path result w = (r, w') ->
  now w' = match r with
           | Some _ => refresh_stamp env w
           | None => refresh_end env w
           end.
Proof.
  unfold updateCache, refresh_end, refresh_stamp.
  response_cases; intros [= <- <-]; try reflexivity.
  cbn [now elapse with_now].
  match goal with
  | |- context [store_entry ?p ?r ?w0] => frame_of (store_entry_frame p r w0) F
  end.
  destruct F as (_ & _ & _ & _ & _ & _ & _ & Fn & _). rewrite Fn. simpl.
  rewrite length_app, Nat.add_1_r. reflexivity.
Qed.

(** ** updateFunc, the scheduled refresh *)

Lemma updateFunc_cancelled (f : closure) w :
  is_closed (uf_stopChan f) w = true -> updateFunc env f w = w.
Proof. intros H. unfold updateFunc. rewrite H. reflexivity. Qed.

Lemma updateFunc_runs (f : closure) w :
  is_closed (uf_stopChan f) w = false ->
  updateFunc env f w =
  match updateCache env updateCtx (uf_path f) (uf_result f) w with
  | (Some err, w') => with_stdout (stdout w' ++ [(uf_path f, err)]) w'
  | (None, w') => w'
  end.
Proof. intros H. unfold updateFunc. rewrite H. reflexivity. Qed.

(** What a failed refresh keeps. The client, hence every entry's [Data],
    [UpdatedAt] and [Expiration], is unchanged. After a failed round trip, a
    status other than 200 or an unreadable body the destination objects are
    unchanged too; after a decode failure they are as [json.Unmarshal] left
    them when run on the body of the response, which is unchanged when that
    body is not well-formed JSON. A scheduled refresh changes the client
    only if its [updateCache] succeeded, and prints the failure otherwise.
    A successful refresh assigns [Data] and [UpdatedAt] of the entry of
    [path], and no other entry, in one locked step, and that step is the
    only one of a refresh that writes to the store. *)
Lemma failed_refresh_keeps_entries :
  (forall ctx path result w err w',
     updateCache env ctx path result w = (Some err, w') ->
     client w' = client w
     /\ ((kind err = FetchError /\ heap w' = heap w)
         \/ (kind err = DecodeError /\
             exists body e,
               Get env (length (gets w)) ctx path = Ok (mkResponse StatusOK (Ok body))
               /\ json_Unmarshal env body result (heap w) = (heap w', Some e)
               /\ err = failed_to_unmarshal e
               /\ (json_checkValid env body <> None -> heap w' = heap w))))
  /\ (forall (f : closure) w,
        updateFunc env f w = w
        \/ (exists err w1,
              updateCache env updateCtx (uf_path f) (uf_result f) w = (Some err, w1)
              /\ updateFunc env f w = with_stdout (stdout w ++ [(uf_path f, err)]) w1
              /\ client (updateFunc env f w) = client w)
        \/ updateCache env updateCtx (uf_path f) (uf_result f) w
             = (None, updateFunc env f w))
  /\ (forall ctx path result w w',
        updateCache env ctx path result w = (None, w') ->
        forall k, cache (client w') !! k =
                  if decide (k = path)
                  then (fun entry => CacheEntry.mk result (refresh_stamp env w)
                                       (CacheEntry.Expiration entry))
                         <$> cache (client w) !! path
                  else cache (client w) !! k)
  /\ (forall ctx path p w,
        (forall d, p <> AtStore d) ->
        client (snd (thread_step env ctx path p w)) = client w).
Proof.
  split; [|split; [|split]].
  - intros ctx path result w err w' H.
    destruct (updateCache_failed _ _ _ _ _ _ H)
      as [Hc [Hf|[Hk (body & e & Hg & Hj & He)]]].
    + auto.
    + split; [exact Hc|]. right. split; [exact Hk|]. exists body, e.
      split; [exact Hg|]. split; [exact Hj|]. split; [exact He|]. intros Hv.
      destruct (json_checkValid env body) as [e'|] eqn:Hcv; [|congruence].
      rewrite (json_Unmarshal_syntax_error _ _ _ _ Hcv) in Hj. congruence.
  - intros f w. destruct (is_closed (uf_stopChan f) w) eqn:Hcl.
    + left. apply updateFunc_cancelled, Hcl.
    + right. rewrite (updateFunc_runs _ _ Hcl).
      destruct (updateCache env updateCtx (uf_path f) (uf_result f) w)
        as [[err|] w1] eqn:Hu.
      * left. exists err, w1.
        pose proof (updateCache_frame updateCtx (uf_path f) (uf_result f) w) as F.
        rewrite Hu in F. cbv zeta in F. cbn [snd] in F.
        destruct F as (_ & _ & _ & _ & _ & _ & _ & _ & Hout & _).
        rewrite Hout. split; [reflexivity|]. split; [reflexivity|].
        apply (updateCache_failed _ _ _ _ _ _ Hu).
      * right. reflexivity.
  - intros ctx path result w w' H. apply (updateCache_succeeded _ _ _ _ _ H).
  - intros ctx path p w Hp.
    destruct p as [|x|x r|x| |v e|]; cbn [thread_step]; try reflexivity.
    + destruct (cache (client w) !! path) as [entry|]; [|reflexivity].
      destruct (needsFetch entry w); reflexivity.
    + destruct r as [resp|e0]; response_cases; reflexivity.
    + destruct (Hp x eq_refl).
    + destruct (cache (client w) !! path); reflexivity.
Qed.

(** ** GetCachedOrFetch *)

Lemma updateCache_keeps_registered ctx path result w k :
  is_Some (cache (client w) !! k) ->
  is_Some (cache (client (snd (updateCache env ctx path result w))) !! k).
Proof.
  intros Hk. destruct (updateCache env ctx path result w) as [[err|] w'] eqn:H.
  - cbn [snd]. destruct (updateCache_failed _ _ _ _ _ _ H) as [-> _]. exact Hk.
  - cbn [snd]. rewrite (updateCache_succeeded _ _ _ _ _ H).
    destruct (decide (k = path)) as [->|]; [|exact Hk].
    destruct Hk as [entry ->]. simpl. eauto.
Qed.

Lemma needsFetch_true entry w :
  needsFetch entry w = true <->
  CacheEntry.UpdatedAt entry = time.zero
  \/ CacheEntry.Expiration entry < time.Since (now w) (CacheEntry.UpdatedAt entry).
Proof.
  unfold needsFetch, time.IsZero, time.zero.
  rewrite orb_true_iff, Z.eqb_eq, Z.ltb_lt. reflexivity.
Qed.

Lemma needsFetch_false entry w :
  needsFetch entry w = false <->
  CacheEntry.UpdatedAt entry <> time.zero
  /\ time.Since (now w) (CacheEntry.UpdatedAt entry) <= CacheEntry.Expiration entry.
Proof.
  unfold needsFetch, time.IsZero, time.zero.
  rewrite orb_false_iff, Z.eqb_neq, Z.ltb_ge. reflexivity.
Qed.

(** What [updateCache] does with each response, in the order the code
    inspects it. *)
Lemma updateCache_cases ctx path result w :
  let request := Get env (length (gets w)) ctx path in
  let w1 := answered env ctx path w in
  (forall err, request = Err err ->
     updateCache env ctx path result w = (Some (failed_to_fetch_data err), w1))
  /\ (forall resp, request = Ok resp -> StatusCode resp <> StatusOK ->
        updateCache env ctx path result w
        = (Some (unexpected_status_code (StatusCode resp)), w1))
  /\ (forall resp err,
        request = Ok resp -> StatusCode resp = StatusOK -> Body resp = Err err ->
        updateCache env ctx path result w = (Some (failed_to_read_body err), w1))
  /\ (forall resp body h e,
        request = Ok resp -> StatusCode resp = StatusOK -> Body resp = Ok body ->
        json_Unmarshal env body result (heap w) = (h, Some e) ->
        updateCache env ctx path result w
        = (Some (failed_to_unmarshal e), with_heap h w1))
  /\ (forall resp body h,
        request = Ok resp -> StatusCode resp = StatusOK -> Body resp = Ok body ->
        json_Unmarshal env body result (heap w) = (h, None) ->
        updateCache env ctx path result w
        = (None, elapse (lag env (S (length (gets w))))
                        (store_entry path result (with_heap h w1)))).
Proof.
  cbv zeta. unfold updateCache.
  assert (length (gets (answered env ctx path w)) = S (length (gets w))) as Hlen
    by (cbn; rewrite length_app, Nat.add_1_r; reflexivity).
  change (heap (answered env ctx path w)) with (heap w). rewrite Hlen.
  split; [|split; [|split; [|split]]].
  - intros err ->. reflexivity.
  - intros resp -> Hs. apply Z.eqb_neq in Hs. rewrite Hs. reflexivity.
  - intros resp err -> Hs ->. apply Z.eqb_eq in Hs. rewrite Hs. reflexivity.
  - intros resp body h e -> Hs -> ->. apply Z.eqb_eq in Hs. rewrite Hs. reflexivity.
  - intros resp body h -> Hs -> ->. apply Z.eqb_eq in Hs. rewrite Hs. reflexivity.
Qed.

Lemma GetCached_data path w entry :
  cache (client w) !! path = Some entry ->
  fst (GetCached path w) = CacheEntry.Data entry.
Proof.
  intros H. unfold GetCached. rewrite H. destruct (_ <? _); reflexivity.
Qed.

(** C2, at the input where the code departs from it. The entry of [path]
    has the destination [p], and a refresh of it, scheduled or foreground,
    gets a 200 response whose body is well-formed JSON. If the body does not
    fit the destination, so that the decoder fails after it has written part
    of the payload, the refresh fails with the decode error and the client,
    hence the entry with its [Data] pointer and its [UpdatedAt], is as
    before, but the value a reader gets through the entry is what the
    decoder left and no longer the value before the refresh. If the body
    decodes, the new value is there for every reader as soon as the caller
    has decoded, while the entry still carries its old [UpdatedAt]: the
    locked step that stamps it comes after, so the two are not written
    together. *)
Theorem failed_decode_writes_destination ctx path p w entry body old new :
  cache (client w) !! path = Some entry ->
  CacheEntry.Data entry = Ref p ->
  heap w !! p = Some old ->
  json_checkValid env body = None ->
  payload path w = Some old
  /\ (forall e,
        Get env (length (gets w)) ctx path = Ok (mkResponse StatusOK (Ok body)) ->
        json_decode env body old = (new, Some e) ->
        exists w',
          updateCache env ctx path (CacheEntry.Data entry) w
          = (Some (failed_to_unmarshal e), w')
          /\ kind (failed_to_unmarshal e) = DecodeError
          /\ client w' = client w
          /\ cache (client w') !! path = Some entry
          /\ heap w' = <[p := new]> (heap w)
          /\ payload path w' = Some new
          /\ (forall ch,
                ctx = updateCtx -> is_closed ch w = false ->
                updateFunc env (mkClosure path (CacheEntry.Data entry) ch) w
                = with_stdout (stdout w ++ [(path, failed_to_unmarshal e)]) w'))
  /\ (json_decode env body old = (new, None) ->
      let mid := thread_step env ctx path
                   (AtDecode (Ref p) (Ok (mkResponse StatusOK (Ok body)))) w in
      fst mid = AtStore (Ref p)
      /\ client (snd mid) = client w
      /\ cache (client (snd mid)) !! path = Some entry
      /\ payload path (snd mid) = Some new).
Proof.
  intros He Hd Hp Hv.
  assert (forall w0, cache (client w0) !! path = Some entry ->
                     fst (GetCached path w0) = Ref p) as Hfst
    by (intros w0 H0; rewrite (GetCached_data _ _ _ H0); exact Hd).
  split; [unfold payload; rewrite (Hfst w He); exact Hp|]. split.
  - intros e Hget Hdec. rewrite Hd.
    assert (json_Unmarshal env body (Ref p) (heap w) = (<[p := new]> (heap w), Some e))
      as Hj by (unfold json_Unmarshal; rewrite Hv, Hp, Hdec; reflexivity).
    frame_of (updateCache_cases ctx path (Ref p) w) C.
    destruct C as (_ & _ & _ & C4 & _).
    pose proof (C4 _ body _ e Hget eq_refl eq_refl Hj) as Hu.
    eexists. split; [exact Hu|]. split; [reflexivity|]. split; [reflexivity|].
    split; [exact He|]. split; [reflexivity|].
    split; [unfold payload; rewrite Hfst by exact He; apply lookup_insert_eq|].
    intros ch -> Hopen. unfold updateFunc. cbn [uf_stopChan uf_path uf_result].
    rewrite Hopen, Hu. reflexivity.
  - intros Hdec. cbv zeta. cbn [thread_step StatusCode Body].
    change (StatusOK =? StatusOK) with true. cbn [negb].
    unfold json_Unmarshal. rewrite Hv, Hp, Hdec. cbn [fst snd].
    split; [reflexivity|]. split; [reflexivity|]. split; [exact He|].
    unfold payload. rewrite Hfst by exact He. apply lookup_insert_eq.
Qed.

(** C4. On a path with no entry [GetCachedOrFetch] returns nil and a
    not-found error and does nothing. On an entry that was never populated
    or whose age exceeds its window it calls [c.Get] exactly once, with the
    caller's context, and what it returns follows the response: a failed
    round trip, a status other than 200 and an unreadable body give nil and
    the wrapped fetch error, with store and destinations untouched; a body
    that does not decode gives nil and the wrapped decode error, with the
    store untouched; a body that decodes gives [entry.Data] and no error,
    with the destination as the decoder left it and the entry stamped. On
    an entry within its window it returns [entry.Data] and leaves the world
    as it is: no call, no write. *)
Theorem GetCachedOrFetch_spec ctx path w :
  (cache (client w) !! path = None ->
   GetCachedOrFetch env ctx path w = Return (Nil, Some (no_cache_entry path)) w)
  /\ (forall entry,
        cache (client w) !! path = Some entry ->
        CacheEntry.UpdatedAt entry = time.zero
        \/ CacheEntry.Expiration entry < time.Since (now w) (CacheEntry.UpdatedAt entry) ->
        let request := Get env (length (gets w)) ctx path in
        let w1 := answered env ctx path w in
        let fails err k w' :=
          GetCachedOrFetch env ctx path w
          = Return (Nil, Some (failed_to_fetch_fresh err)) w'
          /\ kind (failed_to_fetch_fresh err) = k
          /\ client w' = client w
          /\ gets w' = gets w ++ [(ctx, path)] in
        heap w1 = heap w
        /\ (forall err, request = Err err ->
              fails (failed_to_fetch_data err) FetchError w1)
        /\ (forall resp, request = Ok resp -> StatusCode resp <> StatusOK ->
              fails (unexpected_status_code (StatusCode resp)) FetchError w1)
        /\ (forall resp err,
              request = Ok resp -> StatusCode resp = StatusOK ->
              Body resp = Err err ->
              fails (failed_to_read_body err) FetchError w1)
        /\ (forall resp body h e,
              request = Ok resp -> StatusCode resp = StatusOK ->
              Body resp = Ok body ->
              json_Unmarshal env body (CacheEntry.Data entry) (heap w) = (h, Some e) ->
              fails (failed_to_unmarshal e) DecodeError (with_heap h w1))
        /\ (forall resp body h,
              request = Ok resp -> StatusCode resp = StatusOK ->
              Body resp = Ok body ->
              json_Unmarshal env body (CacheEntry.Data entry) (heap w) = (h, None) ->
              exists w',
                GetCachedOrFetch env ctx path w
                = Return (CacheEntry.Data entry, None) w'
                /\ gets w' = gets w ++ [(ctx, path)]
                /\ heap w' = h
                /\ cache (client w') !! path
                   = Some (CacheEntry.mk (CacheEntry.Data entry) (refresh_stamp env w)
                                         (CacheEntry.Expiration entry))
                /\ now w' = refresh_end env w))
  /\ (forall entry,
        cache (client w) !! path = Some entry ->
        CacheEntry.UpdatedAt entry <> time.zero ->
        time.Since (now w) (CacheEntry.UpdatedAt entry) <= CacheEntry.Expiration entry ->
        GetCachedOrFetch env ctx path w = Return (CacheEntry.Data entry, None) w).
Proof.
  split; [|split].
  - intros H. unfold GetCachedOrFetch. rewrite H. reflexivity.
  - intros entry H Hstale. apply needsFetch_true in Hstale. cbv zeta.
    pose proof (updateCache_cases ctx path (CacheEntry.Data entry) w) as C.
    cbv zeta in C. destruct C as (C1 & C2 & C3 & C4 & C5).
    assert (forall err w',
              updateCache env ctx path (CacheEntry.Data entry) w = (Some err, w') ->
              GetCachedOrFetch env ctx path w
              = Return (Nil, Some (failed_to_fetch_fresh err)) w') as Hfail.
    { intros err w' Hu. unfold GetCachedOrFetch. rewrite H, Hstale, Hu. reflexivity. }
    split; [reflexivity|].
    split; [intros err Hr; rewrite (Hfail _ _ (C1 _ Hr)); cbn; auto|].
    split; [intros resp Hr Hs; rewrite (Hfail _ _ (C2 _ Hr Hs)); cbn; auto|].
    split; [intros resp err Hr Hs Hb; rewrite (Hfail _ _ (C3 _ _ Hr Hs Hb)); cbn; auto|].
    split; [intros resp body h e Hr Hs Hb Hj;
            rewrite (Hfail _ _ (C4 _ _ _ _ Hr Hs Hb Hj)); cbn; auto|].
    intros resp body h Hr Hs Hb Hj. pose proof (C5 _ _ _ Hr Hs Hb Hj) as Hu.
    eexists. unfold GetCachedOrFetch. rewrite H, Hstale, Hu.
    pose proof (updateCache_succeeded _ _ _ _ _ Hu path) as Hl.
    rewrite decide_True in Hl by reflexivity. rewrite H in Hl. cbn [fmap option_fmap option_map] in Hl.
    rewrite Hl. split; [reflexivity|].
    frame_of (updateCache_frame ctx path (CacheEntry.Data entry) w) F.
    rewrite Hu in F. cbn [snd] in F. destruct F as (Fg & _).
    split; [exact Fg|]. split; [|split; [exact Hl|exact (updateCache_clock _ _ _ _ _ _ Hu)]].
    cbn [heap elapse with_now].
    match goal with
    | |- context [store_entry ?p ?r ?w0] => frame_of (store_entry_frame p r w0) S0
    end.
    destruct S0 as (_ & _ & _ & _ & _ & _ & Sh & _). rewrite Sh. reflexivity.
  - intros entry H Hnz Hfresh.
    assert (needsFetch entry w = false) as Hn by (apply needsFetch_false; auto).
    unfold GetCachedOrFetch. rewrite H, Hn. reflexivity.
Qed.

(** ** Concurrent and consecutive callers *)

Lemma potential_cons (t : Context * pc) (ps : pool) :
  potential (t :: ps) = (may_fetch (snd t) + potential ps)%nat.
Proof. reflexivity. Qed.

Lemma potential_insert (ps : pool) i ctx p ctx' p' :
  ps !! i = Some (ctx, p) ->
  (potential (<[i := (ctx', p')]> ps) + may_fetch p
   = potential ps + may_fetch p')%nat.
Proof.
  revert i. induction ps as [|[c q] ps IH]; intros [|i] H; [done|done| |].
  - injection H as [= -> ->].
    change (<[0%nat := (ctx', p')]> ((ctx, p) :: ps)) with ((ctx', p') :: ps).
    rewrite !potential_cons. cbn [snd]. lia.
  - change (<[S i := (ctx', p')]> ((c, q) :: ps))
      with ((c, q) :: <[i := (ctx', p')]> ps).
    rewrite !potential_cons. specialize (IH i H). lia.
Qed.

Lemma potential_callers ctxs : potential (callers ctxs) = length ctxs.
Proof.
  unfold potential, callers. induction ctxs as [|c l IH]; simpl; [reflexivity|].
  rewrite IH. reflexivity.
Qed.

(** A step of a caller adds a [c.Get] call only by leaving [AtGet], after
    which that caller can fetch no more. *)
Lemma thread_step_budget ctx path p w :
  let '(p', w') := thread_step env ctx path p w in
  (length (gets w') + may_fetch p' <= length (gets w) + may_fetch p)%nat.
Proof.
  destruct p as [|data|data r|data| |v e|]; simpl; try lia.
  - destruct (cache (client w) !! path) as [entry|]; [|simpl; lia].
    destruct (needsFetch entry w); simpl; lia.
  - rewrite length_app. simpl. lia.
  - destruct r as [resp|err]; response_cases; simpl; lia.
  - pose proof (store_entry_frame path data w) as F. cbv zeta in F.
    destruct F as (_ & _ & _ & _ & _ & _ & _ & _ & -> & _). lia.
  - destruct (cache (client w) !! path); simpl; lia.
Qed.

Lemma pool_step_budget path i (cfg : pool * World Val) :
  (length (gets (snd (pool_step env path i cfg))) + potential (fst (pool_step env path i cfg))
   <= length (gets (snd cfg)) + potential (fst cfg))%nat.
Proof.
  destruct cfg as [ps w]. unfold pool_step. cbn [fst snd].
  destruct (ps !! i) as [[ctx p]|] eqn:Hi; [|cbn [fst snd]; lia].
  pose proof (thread_step_budget ctx path p w) as B.
  destruct (thread_step env ctx path p w) as [p' w']. cbn [fst snd].
  pose proof (potential_insert ps i ctx p ctx p' Hi). lia.
Qed.

Lemma pool_run_budget path sched (cfg : pool * World Val) :
  (length (gets (snd (pool_run env path sched cfg)))
   + potential (fst (pool_run env path sched cfg))
   <= length (gets (snd cfg)) + potential (fst cfg))%nat.
Proof.
  unfold pool_run. revert cfg. induction sched as [|i sched IH]; intros cfg.
  - simpl. lia.
  - simpl. specialize (IH (pool_step env path i cfg)).
    pose proof (pool_step_budget path i cfg). lia.
Qed.

(** Running the steps of one caller with nobody in between is the call. *)
Lemma thread_alone ctx path w :
  match GetCachedOrFetch env ctx path w with
  | Return (v, e) w' =>
    Nat.iter 5 (fun c => thread_step env ctx path (fst c) (snd c)) (AtEntry, w)
    = (Finished v e, w')
  | Panic _ =>
    fst (Nat.iter 5 (fun c => thread_step env ctx path (fst c) (snd c)) (AtEntry, w))
    = Crashed
  end.
Proof.
  unfold GetCachedOrFetch, updateCache.
  cbn [Nat.iter nat_rect thread_step fst snd].
  destruct (cache (client w) !! path) as [entry|] eqn:Hc;
    cbn [thread_step fst snd]; [|reflexivity].
  destruct (needsFetch entry w); cbn [thread_step fst snd]; [|reflexivity].
  destruct (Get env (length (gets w)) ctx path) as [resp|err];
    cbn [thread_step fst snd]; [|reflexivity].
  destruct (negb (StatusCode resp =? StatusOK)); cbn [thread_step fst snd];
    [reflexivity|].
  destruct (Body resp) as [body|err]; cbn [thread_step fst snd]; [|reflexivity].
  change (heap (answered env ctx path w)) with (heap w).
  destruct (json_Unmarshal env body (CacheEntry.Data entry) (heap w)) as [h [err|]];
    cbn [thread_step fst snd]; [reflexivity|].
  change (gets (with_heap h (answered env ctx path w)))
    with (gets (answered env ctx path w)).
  destruct (cache (client (elapse _ (store_entry path (CacheEntry.Data entry) _)))
              !! path); reflexivity.
Qed.

(** A refresh that succeeds leaves the entry stamped with the reading of
    line 162 and the clock at the return of the refresh. *)
Lemma refreshed_entry ctx path result w w' entry :
  updateCache env ctx path result w = (None, w') ->
  cache (client w) !! path = Some entry ->
  cache (client w') !! path
  = Some (CacheEntry.mk result (refresh_stamp env w) (CacheEntry.Expiration entry))
  /\ now w' = refresh_end env w
  /\ gets w' = gets w ++ [(ctx, path)].
Proof.
  intros Hu He.
  pose proof (updateCache_succeeded _ _ _ _ _ Hu path) as Hl.
  rewrite decide_True in Hl by reflexivity. rewrite He in Hl.
  split; [exact Hl|]. split; [exact (updateCache_clock _ _ _ _ _ _ Hu)|].
  frame_of (updateCache_frame ctx path result w) F.
  rewrite Hu in F. apply F.
Qed.

(** The age [time.Since] computes grows with the clock. *)
Lemma Since_mono (t t' u : time.Time) :
  t <= t' -> time.Since t u <= time.Since t' u.
Proof.
  intros H. unfold time.Since, time.Sub.
  destruct (Z.ltb_spec time.maxDuration (t - u)),
           (Z.ltb_spec time.maxDuration (t' - u)),
           (Z.ltb_spec (t - u) time.minDuration),
           (Z.ltb_spec (t' - u) time.minDuration);
    unfold time.maxDuration, time.minDuration in *; lia.
Qed.

Lemma elapse_elapse (d1 d2 : N) w :
  elapse d2 (elapse d1 w) = elapse (d1 + d2) w.
Proof.
  unfold elapse, with_now. cbn. f_equal. lia.
Qed.

Lemma elapse_0 w : elapse 0 w = w.
Proof.
  unfold elapse, with_now. destruct w. cbn. f_equal. lia.
Qed.

(** Calls in sequence on an entry that is within its window when the last
    of them starts: none fetches. *)
Lemma in_sequence_fresh calls path w entry :
  cache (client w) !! path = Some entry ->
  CacheEntry.UpdatedAt entry <> time.zero ->
  time.Since (now w + Z.of_N (waited calls)) (CacheEntry.UpdatedAt entry)
    <= CacheEntry.Expiration entry ->
  in_sequence env calls path w
  = Return (replicate (length calls) (CacheEntry.Data entry, None))
           (elapse (waited calls) w).
Proof.
  revert w. induction calls as [|[d ctx] calls IH]; intros w He Hnz Hage.
  - cbn. rewrite elapse_0. reflexivity.
  - change (waited ((d, ctx) :: calls)) with (d + waited calls)%N in *.
    cbn [in_sequence].
    assert (needsFetch entry (elapse d w) = false) as Hn.
    { apply needsFetch_false. split; [exact Hnz|].
      etransitivity; [|exact Hage]. apply Since_mono.
      unfold elapse. cbn [now with_now]. lia. }
    unfold GetCachedOrFetch at 1.
    change (cache (client (elapse d w))) with (cache (client w)).
    rewrite He, Hn. cbn [bind].
    rewrite (IH (elapse d w)); [|exact He|exact Hnz|].
    + cbn [bind length replicate]. rewrite elapse_elapse. reflexivity.
    + etransitivity; [|exact Hage]. apply Since_mono.
      unfold elapse. cbn [now with_now]. lia.
Qed.

Lemma thread_step_pc_ok ctx path d p w :
  (exists e, cache (client w) !! path = Some e /\ CacheEntry.Data e = d) ->
  pc_ok d p ->
  let '(p', w') := thread_step env ctx path p w in
  (exists e, cache (client w') !! path = Some e /\ CacheEntry.Data e = d)
  /\ pc_ok d p'.
Proof.
  intros (e & He & Hd) Hp.
  destruct p as [|x|x r|x| |v err|]; cbn [thread_step pc_ok] in *.
  - rewrite He. destruct (needsFetch e w); cbn [pc_ok]; eauto.
  - simpl. eauto.
  - destruct r as [resp|e0]; response_cases; cbn [pc_ok]; simpl; eauto.
  - split; [|exact I]. cbn [client elapse with_now].
    rewrite store_entry_lookup, decide_True by reflexivity.
    rewrite He. simpl. eauto.
  - rewrite He. cbn [pc_ok]. eauto.
  - eauto.
  - destruct Hp.
Qed.

Lemma pool_run_pc_ok path d sched (cfg : pool * World Val) :
  (exists e, cache (client (snd cfg)) !! path = Some e /\ CacheEntry.Data e = d) ->
  Forall (fun t => pc_ok d (snd t)) (fst cfg) ->
  Forall (fun t => pc_ok d (snd t)) (fst (pool_run env path sched cfg)).
Proof.
  unfold pool_run. revert cfg. induction sched as [|i sched IH]; intros [ps w] He Hall.
  - exact Hall.
  - cbn [foldl]. apply IH; unfold pool_step; cbn [fst snd] in *.
    + destruct (ps !! i) as [[ctx p]|] eqn:Hi; [|exact He].
      assert (pc_ok d p) as Hp
        by (exact (proj1 (Forall_lookup _ _) Hall i (ctx, p) Hi)).
      pose proof (thread_step_pc_ok ctx path d p w He Hp) as T.
      destruct (thread_step env ctx path p w) as [p' w']. exact (proj1 T).
    + destruct (ps !! i) as [[ctx p]|] eqn:Hi; [|exact Hall].
      assert (pc_ok d p) as Hp
        by (exact (proj1 (Forall_lookup _ _) Hall i (ctx, p) Hi)).
      pose proof (thread_step_pc_ok ctx path d p w He Hp) as T.
      destruct (thread_step env ctx path p w) as [p' w']. cbn [fst].
      apply Forall_insert; [exact Hall|exact (proj2 T)].
Qed.

Lemma callers_pc_ok d ctxs : Forall (fun t => pc_ok d (snd t)) (callers ctxs).
Proof.
  unfold callers. induction ctxs as [|c l IH]; constructor; [exact I|exact IH].
Qed.

(** C1, as amended. Each caller of [GetCachedOrFetch] calls [c.Get] at most
    once, so however [N] concurrent callers on one registered path are
    interleaved, at most [N] calls are added (not at most one: nothing makes
    a caller wait for a refresh that is under way); no caller panics, and
    every caller that returns without error returns the entry's [Data].
    When the calls are made one after the other on a stale entry, the first
    refresh succeeds, and the last call starts while the age of the
    refreshed entry is within the window, there is exactly one [c.Get]
    call, and every call returns the entry's [Data] with no error. A call
    that starts once the age of the entry has passed the window calls
    [c.Get] again. *)
Theorem callers_fetch_at_most_once_each :
  (forall ctxs path w entry sched,
     cache (client w) !! path = Some entry ->
     let final := pool_run env path sched (callers ctxs, w) in
     (length (gets (snd final)) <= length (gets w) + length ctxs)%nat
     /\ forall i ctx p,
          fst final !! i = Some (ctx, p) ->
          p <> Crashed
          /\ forall v, p = Finished v None -> v = CacheEntry.Data entry)
  /\ (forall d ctx calls path w entry w1,
        let w0 := elapse d w in
        cache (client w) !! path = Some entry ->
        needsFetch entry w0 = true ->
        refresh_stamp env w0 <> time.zero ->
        updateCache env ctx path (CacheEntry.Data entry) w0 = (None, w1) ->
        time.Since (now w1 + Z.of_N (waited calls)) (refresh_stamp env w0)
          <= CacheEntry.Expiration entry ->
        in_sequence env ((d, ctx) :: calls) path w
        = Return (replicate (S (length calls)) (CacheEntry.Data entry, None))
                 (elapse (waited calls) w1)
        /\ gets (elapse (waited calls) w1) = gets w ++ [(ctx, path)])
  /\ (forall d ctx path w entry,
        cache (client w) !! path = Some entry ->
        CacheEntry.Expiration entry
          < time.Since (now w + Z.of_N d) (CacheEntry.UpdatedAt entry) ->
        exists r w',
          GetCachedOrFetch env ctx path (elapse d w) = Return r w'
          /\ gets w' = gets w ++ [(ctx, path)]).
Proof.
  split; [|split].
  - intros ctxs path w entry sched He. cbv zeta. split.
    + pose proof (pool_run_budget path sched (callers ctxs, w)) as B.
      cbn [fst snd] in B. rewrite potential_callers in B. lia.
    + intros i ctx p Hi.
      assert (pc_ok (CacheEntry.Data entry) p) as Hp.
      { refine (proj1 (Forall_lookup _ _)
                  (pool_run_pc_ok path (CacheEntry.Data entry) sched (callers ctxs, w)
                     _ (callers_pc_ok _ ctxs)) i (ctx, p) Hi).
        cbn [snd]. eauto. }
      split; [intros ->; exact Hp|]. intros v ->. exact Hp.
  - intros d ctx calls path w entry w1 w0 He Hstale Hnz Hu Hage.
    assert (cache (client w0) !! path = Some entry) as He0 by exact He.
    destruct (refreshed_entry _ _ _ _ _ _ Hu He0) as (He' & Hn & Hg).
    split; [|exact Hg].
    cbn [in_sequence]. fold w0. unfold GetCachedOrFetch at 1.
    rewrite He0, Hstale, Hu, He'. cbn [bind CacheEntry.Data].
    rewrite (in_sequence_fresh calls path w1 _ He' Hnz Hage). reflexivity.
  - intros d ctx path w entry He Hage.
    assert (cache (client (elapse d w)) !! path = Some entry) as He0 by exact He.
    assert (needsFetch entry (elapse d w) = true) as Hn
      by (apply needsFetch_true; right; exact Hage).
    unfold GetCachedOrFetch. rewrite He0, Hn.
    frame_of (updateCache_frame ctx path (CacheEntry.Data entry) (elapse d w)) F.
    pose proof (updateCache_keeps_registered ctx path (CacheEntry.Data entry)
                  (elapse d w) path (mk_is_Some _ _ He0)) as Hk.
    destruct (updateCache env ctx path (CacheEntry.Data entry) (elapse d w))
      as [[err|] w'].
    + eexists _, w'. split; [reflexivity|]. apply F.
    + cbn [snd] in Hk, F. destruct Hk as [e' ->].
      eexists _, w'. split; [reflexivity|]. apply F.
Qed.

(** ** SetupCachedEndpoint *)

(** The scheduling stage follows the resolved policy. *)
Lemma schedule_resolve config (cmd : closure) w :
  schedule env config cmd w =
  match resolve env (CacheConfig.CronSpec config) with
  | FixedPeriod d => schedule_with_ticker (CacheConfig.Path config) d cmd w
  | CronRules spec =>
    Return None (cron_Start (with_client (fun c =>
      set_cron (Cron.mk (Cron.entries (cron c) ++ [(spec, cmd)])
                        (Cron.running (cron c))) c) w))
  | Unresolved e => Return (Some e) w
  end.
Proof.
  unfold schedule, resolve, resolve_cron, schedule_with_cron, cron_AddFunc.
  destruct (strings.HasPrefix _ _).
  - destruct (ParseDuration env _) as [d|err]; [|reflexivity].
    destruct (d <? time.Minute); [reflexivity|].
    destruct (cron_Parse env _); reflexivity.
  - destruct (cron_Parse env _); reflexivity.
Qed.

Lemma resolve_kind spec e :
  resolve env spec = Unresolved e -> kind e = ScheduleError.
Proof.
  unfold resolve, resolve_cron.
  destruct (strings.HasPrefix _ _).
  - destruct (ParseDuration env _) as [d|err]; [|intros [= <-]; reflexivity].
    destruct (d <? time.Minute); [discriminate|].
    destruct (cron_Parse env _); [intros [= <-]; reflexivity|discriminate].
  - destruct (cron_Parse env _); [intros [= <-]; reflexivity|discriminate].
Qed.

(** Lines 52-61 put a never-populated entry and a fresh, open stop channel
    under the key and touch nothing else. *)
Lemma register_spec config result w :
  let path := CacheConfig.Path config in
  let w' := snd (register config result w) in
  fst (register config result w) = length (chans w)
  /\ cache (client w')
     = <[path := CacheEntry.mk result time.zero (CacheConfig.Expiration config)]>
         (cache (client w))
  /\ stopChans (client w') = <[path := length (chans w)]> (stopChans (client w))
  /\ chans w' = chans w ++ [false]
  /\ cron (client w') = cron (client w) /\ ticker (client w') = ticker (client w)
  /\ tickers w' = tickers w /\ goroutines w' = goroutines w
  /\ heap w' = heap w /\ now w' = now w /\ gets w' = gets w
  /\ stdout w' = stdout w /\ inflight w' = inflight w.
Proof. unfold register, make_chan. simpl. tauto. Qed.






Lemma register_refresh_stamp config result w :
  refresh_stamp env (snd (register config result w)) = refresh_stamp env w
  /\ refresh_end env (snd (register config result w)) = refresh_end env w.
Proof.
  frame_of (register_spec config result w) R.
  destruct R as (_ & _ & _ & _ & _ & _ & _ & _ & _ & Rnow & Rgets & _).
  unfold refresh_end, refresh_stamp. rewrite Rnow, Rgets. auto.
Qed.

(** The initial fetch of [SetupCachedEndpoint] answers 200 with a body that
    [json.Unmarshal] fails on: the call returns the decode error wrapped as
    an initial-update failure; the entry created at the start of the call
    stays in the store with the zero [UpdatedAt]; no scheduler task was
    started; the destinations are as the decoder left them, and [GetCached]
    hands out the destination. *)
Lemma failed_initial_decode ctx config result w body h e :
  CacheConfig.SkipInitialFetch config = false ->
  Get env (length (gets w)) ctx (CacheConfig.Path config)
    = Ok (mkResponse StatusOK (Ok body)) ->
  json_Unmarshal env body result (heap w) = (h, Some e) ->
  exists w',
    SetupCachedEndpoint env ctx config result w
      = Return (Some (initial_update_failed (failed_to_unmarshal e))) w'
    /\ kind (initial_update_failed (failed_to_unmarshal e)) = DecodeError
    /\ cache (client w') !! CacheConfig.Path config
       = Some (CacheEntry.mk result time.zero (CacheConfig.Expiration config))
    /\ needsFetch (CacheEntry.mk result time.zero (CacheConfig.Expiration config)) w'
       = true
    /\ heap w' = h
    /\ goroutines w' = goroutines w /\ cron (client w') = cron (client w)
    /\ now w' = refresh_stamp env w
    /\ fst (GetCached (CacheConfig.Path config) w') = result
    /\ (time.unixEpoch <= now w ->
        CacheConfig.Expiration config < time.maxDuration ->
        GetCached (CacheConfig.Path config) w'
        = (result, Some (cache_expired (CacheConfig.Path config)))).
Proof.
  intros Hskip Hget Hj. unfold SetupCachedEndpoint.
  pose proof (register_refresh_stamp config result w) as [Hst _].
  pose proof (register_spec config result w) as R. cbv zeta in R.
  destruct (register config result w) as [stopChan w1]. cbn [fst snd] in R, Hst.
  destruct R as (_ & Rc & _ & _ & Rcron & _ & _ & Rg & Rh & Rnow & Rgets & _).
  rewrite Hskip.
  pose proof (updateCache_cases ctx (CacheConfig.Path config) result w1) as C.
  cbv zeta in C. destruct C as (_ & _ & _ & C4 & _).
  rewrite Rgets, Rh in C4.
  rewrite (C4 _ body h e Hget eq_refl eq_refl Hj).
  eexists. split; [reflexivity|]. split; [reflexivity|].
  assert (cache (client (with_heap h (answered env ctx (CacheConfig.Path config) w1)))
          !! CacheConfig.Path config
          = Some (CacheEntry.mk result time.zero (CacheConfig.Expiration config)))
    as Hl by (cbn; rewrite Rc, lookup_insert_eq; reflexivity).
  assert (now (with_heap h (answered env ctx (CacheConfig.Path config) w1))
          = refresh_stamp env w) as Hn by (rewrite <- Hst; reflexivity).
  split; [exact Hl|]. split; [reflexivity|].
  split; [reflexivity|]. split; [exact Rg|]. split; [exact Rcron|].
  split; [exact Hn|].
  split; [unfold GetCached; rewrite Hl; destruct (_ <? _); reflexivity|].
  intros Hnow Hexp.
  apply (GetCached_never_populated _ _ _ Hl); [reflexivity| |exact Hexp].
  rewrite Hn. unfold refresh_stamp. lia.
Qed.

(** An initial payload that is not well-formed JSON: the destinations are
    exactly as before the call, no part of the payload having been written,
    and [GetCached] hands out the untouched destination together with the
    expired error (the clock being in the Unix era and the window short of
    the largest [Duration]). *)
Lemma malformed_initial_payload ctx config result w body e :
  CacheConfig.SkipInitialFetch config = false ->
  Get env (length (gets w)) ctx (CacheConfig.Path config)
    = Ok (mkResponse StatusOK (Ok body)) ->
  json_checkValid env body = Some e ->
  exists w',
    SetupCachedEndpoint env ctx config result w
      = Return (Some (initial_update_failed (failed_to_unmarshal e))) w'
    /\ kind (initial_update_failed (failed_to_unmarshal e)) = DecodeError
    /\ cache (client w') !! CacheConfig.Path config
       = Some (CacheEntry.mk result time.zero (CacheConfig.Expiration config))
    /\ needsFetch (CacheEntry.mk result time.zero (CacheConfig.Expiration config)) w'
       = true
    /\ heap w' = heap w
    /\ goroutines w' = goroutines w /\ cron (client w') = cron (client w)
    /\ (time.unixEpoch <= now w ->
        CacheConfig.Expiration config < time.maxDuration ->
        GetCached (CacheConfig.Path config) w'
        = (result, Some (cache_expired (CacheConfig.Path config)))).
Proof.
  intros Hskip Hget Hbad.
  destruct (failed_initial_decode ctx config result w body (heap w) e Hskip Hget
              (json_Unmarshal_syntax_error _ _ _ _ Hbad))
    as (w' & H1 & H2 & H3 & H4 & H5 & H6 & H7 & _ & _ & H8).
  exists w'. auto 10.
Qed.

(** C6, at the input where the code departs from it. The initial fetch
    answers 200 with a body that is well-formed JSON but does not fit the
    destination, so that the decoder fails after it has written part of the
    payload. [SetupCachedEndpoint] returns the decode error and the entry
    created at the start of the call keeps its zero [UpdatedAt], but the
    entry's [Data] is the destination itself: what the decoder wrote is
    there, and [GetCached] hands it out. *)
Theorem wrong_shape_initial_payload ctx config p w body old new e :
  CacheConfig.SkipInitialFetch config = false ->
  Get env (length (gets w)) ctx (CacheConfig.Path config)
    = Ok (mkResponse StatusOK (Ok body)) ->
  json_checkValid env body = None ->
  heap w !! p = Some old ->
  json_decode env body old = (new, Some e) ->
  exists w',
    SetupCachedEndpoint env ctx config (Ref p) w
      = Return (Some (initial_update_failed (failed_to_unmarshal e))) w'
    /\ kind (initial_update_failed (failed_to_unmarshal e)) = DecodeError
    /\ cache (client w') !! CacheConfig.Path config
       = Some (CacheEntry.mk (Ref p) time.zero (CacheConfig.Expiration config))
    /\ fst (GetCached (CacheConfig.Path config) w') = Ref p
    /\ payload (CacheConfig.Path config) w' = Some new
    /\ heap w' = <[p := new]> (heap w).
Proof.
  intros Hskip Hget Hv Hp Hd.
  assert (json_Unmarshal env body (Ref p) (heap w) = (<[p := new]> (heap w), Some e))
    as Hj by (unfold json_Unmarshal; rewrite Hv, Hp, Hd; reflexivity).
  destruct (failed_initial_decode ctx config (Ref p) w body _ e Hskip Hget Hj)
    as (w' & H1 & H2 & H3 & _ & H5 & _ & _ & _ & H9 & _).
  exists w'. split; [exact H1|]. split; [exact H2|]. split; [exact H3|].
  split; [exact H9|]. split; [|exact H5].
  unfold payload. rewrite H9, H5. apply lookup_insert_eq.
Qed.


(** C5, at the input where the code departs from it: registered with
    [SkipInitialFetch], a window equal to the largest [Duration] and a spec
    the cron parser accepts, the endpoint is set up without error and
    without any [c.Get] call, and [GetCached] then returns the never-fetched
    destination with no error instead of reporting it expired. *)
Theorem skip_initial_fetch_max_window ctx config result w :
  CacheConfig.SkipInitialFetch config = true ->
  CacheConfig.Expiration config = time.maxDuration ->
  resolve env (CacheConfig.CronSpec config)
    = CronRules (CacheConfig.CronSpec config) ->
  exists w',
    SetupCachedEndpoint env ctx config result w = Return None w'
    /\ gets w' = gets w
    /\ cache (client w') !! CacheConfig.Path config
       = Some (CacheEntry.mk result time.zero time.maxDuration)
    /\ GetCached (CacheConfig.Path config) w' = (result, None).
Proof.
  intros Hskip Hexp Hres. unfold SetupCachedEndpoint.
  pose proof (register_spec config result w) as R. cbv zeta in R.
  destruct (register config result w) as [stopChan w1]. cbn [fst snd] in R.
  destruct R as (_ & Rc & _ & _ & _ & _ & _ & _ & _ & _ & Rgets & _).
  rewrite Hskip, schedule_resolve, Hres.
  eexists. split; [reflexivity|].
  assert (cache (client (cron_Start (with_client (fun c =>
            set_cron (Cron.mk (Cron.entries (cron c)
                        ++ [(CacheConfig.CronSpec config,
                             mkClosure (CacheConfig.Path config) result stopChan)])
                        (Cron.running (cron c))) c) w1)))
          !! CacheConfig.Path config
          = Some (CacheEntry.mk result time.zero time.maxDuration)) as Hl.
  { simpl. rewrite Rc, lookup_insert_eq, Hexp. reflexivity. }
  split; [exact Rgets|]. split; [exact Hl|].
  rewrite (GetCached_fresh _ _ _ Hl); [reflexivity|]. apply Since_le_max.
Qed.

(** C7, at the input where the code departs from it: for a spec
    [@every P] whose [P] parses as a duration that is not positive, the
    sub-minute branch is taken and [time.NewTicker] panics; the call neither
    starts a ticker nor returns an error. *)
Theorem every_nonpositive_panics ctx config result w d :
  CacheConfig.SkipInitialFetch config = true ->
  strings.HasPrefix (CacheConfig.CronSpec config) "@every " = true ->
  ParseDuration env (strings.TrimPrefix (CacheConfig.CronSpec config) "@every ")
    = Ok d ->
  d <= 0 ->
  SetupCachedEndpoint env ctx config result w
  = Panic "non-positive interval for NewTicker".
Proof.
  intros Hskip Hpre Hparse Hd. unfold SetupCachedEndpoint.
  destruct (register config result w) as [stopChan w1].
  rewrite Hskip. unfold schedule. rewrite Hpre, Hparse.
  assert ((d <? time.Minute) = true) as ->
    by (apply Z.ltb_lt; unfold time.Minute, time.Second; lia).
  unfold schedule_with_ticker, NewTicker.
  assert ((d <=? 0) = true) as -> by (apply Z.leb_le; lia).
  reflexivity.
Qed.

(** ** StopCacheUpdates *)

Lemma StopCacheUpdates_unregistered path w :
  stopChans (client w) !! path = None -> StopCacheUpdates path w = Return tt w.
Proof. intros H. unfold StopCacheUpdates. rewrite H. reflexivity. Qed.

Lemma is_closed_after_close ch w c :
  chans w !! ch = Some false ->
  is_closed c (with_chans (<[ch := true]> (chans w)) w)
  = if decide (c = ch) then true else is_closed c w.
Proof.
  intros Hch. unfold is_closed. cbn [chans with_chans].
  destruct (decide (c = ch)) as [->|Hne].
  - rewrite list_lookup_insert_eq; [reflexivity|].
    apply lookup_lt_Some in Hch. exact Hch.
  - rewrite list_lookup_insert_ne by congruence. reflexivity.
Qed.

(** On a key whose channel is open, [StopCacheUpdates] closes that channel,
    forgets the key, and changes nothing else. *)
Lemma StopCacheUpdates_registered path w ch :
  stopChans (client w) !! path = Some ch ->
  chans w !! ch = Some false ->
  exists w',
    StopCacheUpdates path w = Return tt w'
    /\ stopChans (client w') = delete path (stopChans (client w))
    /\ chans w' = <[ch := true]> (chans w)
    /\ cache (client w') = cache (client w) /\ cron (client w') = cron (client w)
    /\ ticker (client w') = ticker (client w) /\ tickers w' = tickers w
    /\ goroutines w' = goroutines w /\ heap w' = heap w /\ now w' = now w
    /\ gets w' = gets w /\ stdout w' = stdout w /\ inflight w' = inflight w.
Proof.
  intros Hs Hc. unfold StopCacheUpdates, close. rewrite Hs, Hc. cbn [bind].
  eexists. split; [reflexivity|]. simpl. tauto.
Qed.

Lemma stopChans_ok_after_stop path w w' ch :
  stopChans_ok w ->
  stopChans (client w) !! path = Some ch ->
  stopChans (client w') = delete path (stopChans (client w)) ->
  chans w' = <[ch := true]> (chans w) ->
  stopChans_ok w'.
Proof.
  intros [Hopen Hinj] Hs Hd Hc. split.
  - intros p c. rewrite Hd, Hc. intros Hp.
    destruct (decide (p = path)) as [->|Hne]; [rewrite lookup_delete_eq in Hp; discriminate|].
    rewrite lookup_delete_ne in Hp by congruence.
    rewrite list_lookup_insert_ne; [exact (Hopen _ _ Hp)|].
    intros ->. apply Hne. exact (Hinj _ _ _ Hp Hs).
  - intros p1 p2 c. rewrite Hd. intros H1 H2.
    destruct (decide (p1 = path)) as [->|N1]; [rewrite lookup_delete_eq in H1; discriminate|].
    destruct (decide (p2 = path)) as [->|N2]; [rewrite lookup_delete_eq in H2; discriminate|].
    rewrite lookup_delete_ne in H1, H2 by congruence.
    exact (Hinj _ _ _ H1 H2).
Qed.

Lemma stop_frame_refl w : stop_frame w w.
Proof. unfold stop_frame. tauto. Qed.

Lemma stop_frame_trans w1 w2 w3 :
  stop_frame w1 w2 -> stop_frame w2 w3 -> stop_frame w1 w3.
Proof.
  unfold stop_frame.
  intros (A1 & A2 & A3 & A4 & A5 & A6 & A7 & A8 & A9 & A10)
         (B1 & B2 & B3 & B4 & B5 & B6 & B7 & B8 & B9 & B10).
  repeat split; congruence.
Qed.

Lemma stop_frame_tasks w w' : stop_frame w w' -> tasks w' = tasks w.
Proof.
  intros (_ & Hcr & _ & _ & Hg & _). unfold tasks. rewrite Hg, Hcr. reflexivity.
Qed.

(** In a world whose stop channels are in order [StopCacheUpdates] never
    panics, a second call on the same key does nothing, the store and the
    destination objects are untouched, and the stop channels stay in
    order. *)
Lemma StopCacheUpdates_safe path w :
  stopChans_ok w ->
  exists w',
    StopCacheUpdates path w = Return tt w'
    /\ StopCacheUpdates path w' = Return tt w'
    /\ stopChans_ok w'
    /\ stopChans (client w') = delete path (stopChans (client w))
    /\ stop_frame w w'
    /\ (forall c, is_closed c w' = true <->
                  is_closed c w = true \/ stopChans (client w) !! path = Some c).
Proof.
  intros Hok. destruct (stopChans (client w) !! path) as [ch|] eqn:Hs.
  - pose proof (proj1 Hok _ _ Hs) as Hc.
    destruct (StopCacheUpdates_registered _ _ _ Hs Hc)
      as (w' & Hr & Hd & Hch & Hframe).
    exists w'. split; [exact Hr|].
    split; [apply StopCacheUpdates_unregistered; rewrite Hd; apply lookup_delete_eq|].
    split; [exact (stopChans_ok_after_stop _ _ _ _ Hok Hs Hd Hch)|].
    split; [exact Hd|]. split; [exact Hframe|].
    intros c. unfold is_closed at 1. rewrite Hch.
    destruct (decide (c = ch)) as [->|Hne].
    + rewrite list_lookup_insert_eq by (apply lookup_lt_Some in Hc; exact Hc).
      split; auto.
    + rewrite list_lookup_insert_ne by congruence. fold (is_closed c w).
      split; [auto|]. intros [H|H]; [exact H|congruence].
  - exists w. rewrite (StopCacheUpdates_unregistered _ _ Hs).
    split; [reflexivity|]. split; [reflexivity|]. split; [exact Hok|].
    rewrite delete_id by exact Hs. split; [reflexivity|].
    split; [apply stop_frame_refl|]. intros c. split; [auto|].
    intros [H|H]; [exact H|discriminate].
Qed.

(** ** Background events *)

(** A scheduled refresh leaves channels, tickers, goroutines, the scheduler
    and the refreshes under way alone; the clock does not go back; it adds
    at most one [c.Get] call, for its own path, and can change no entry but
    the one of its path. *)
Lemma updateFunc_frame (f : closure) w :
  let w' := updateFunc env f w in
  chans w' = chans w /\ tickers w' = tickers w /\ goroutines w' = goroutines w
  /\ cron (client w') = cron (client w)
  /\ stopChans (client w') = stopChans (client w)
  /\ ticker (client w') = ticker (client w) /\ now w <= now w'
  /\ (gets w' = gets w \/ gets w' = gets w ++ [(updateCtx, uf_path f)])
  /\ (forall k, k <> uf_path f -> cache (client w') !! k = cache (client w) !! k)
  /\ inflight w' = inflight w.
Proof.
  cbv zeta. unfold updateFunc.
  destruct (is_closed (uf_stopChan f) w);
    [repeat (split; [reflexivity || lia|]); auto|].
  pose proof (updateCache_frame updateCtx (uf_path f) (uf_result f) w) as F.
  cbv zeta in F.
  assert (now w <= refresh_stamp env w) as Hst by (unfold refresh_stamp; lia).
  destruct (updateCache env updateCtx (uf_path f) (uf_result f) w)
    as [[err|] w1] eqn:Hu; cbn [snd] in F;
    destruct F as (Fg & Fcr & Fs & Ft & Fch & Ftk & Fgo & Fn & Fo & Fi).
  - destruct (updateCache_failed _ _ _ _ _ _ Hu) as [Hc _].
    simpl. rewrite Hc. repeat (split; [assumption || reflexivity || lia|]).
    split; [right; exact Fg|]. split; [reflexivity|exact Fi].
  - repeat (split; [assumption || lia|]). split; [right; exact Fg|].
    split; [|exact Fi].
    intros k Hk. rewrite (updateCache_succeeded _ _ _ _ _ Hu).
    rewrite decide_False by exact Hk. reflexivity.
Qed.

Lemma is_closed_same_chans c w w' :
  chans w' = chans w -> is_closed c w' = is_closed c w.
Proof. intros H. unfold is_closed. rewrite H. reflexivity. Qed.

Lemma tasks_job_of_alive w g gr :
  goroutines w !! g = Some gr -> g_alive gr = true -> In (g_job gr) (tasks w).
Proof.
  intros Hg Ha. unfold tasks. apply in_or_app. left. apply in_map.
  apply filter_In. split; [|exact Ha].
  apply list_elem_of_In, list_elem_of_lookup. eauto.
Qed.

Lemma tasks_cron_entry w j spec (cmd : closure) :
  Cron.entries (cron (client w)) !! j = Some (spec, cmd) -> In cmd (tasks w).
Proof.
  intros Hj. unfold tasks. apply in_or_app. right.
  change cmd with (snd (spec, cmd)). apply in_map.
  apply list_elem_of_In, list_elem_of_lookup. eauto.
Qed.

Lemma filter_alive_alter (gs : list Goroutine) g x :
  In x (List.filter g_alive (alter (set_alive false) g gs)) ->
  In x (List.filter g_alive gs).
Proof.
  revert g. induction gs as [|y gs IH]; intros g; [auto|].
  destruct g as [|g].
  - change (alter (set_alive false) 0%nat (y :: gs)) with (set_alive false y :: gs).
    cbn [List.filter set_alive g_alive]. intros H.
    destruct (g_alive y); [right; exact H|exact H].
  - change (alter (set_alive false) (S g) (y :: gs))
      with (y :: alter (set_alive false) g gs).
    cbn [List.filter]. destruct (g_alive y).
    + intros [->|H]; [left; reflexivity|right; exact (IH _ H)].
    + intros H. exact (IH _ H).
Qed.

(** Decoding writes to no object but its destination. *)
Lemma json_Unmarshal_elsewhere body v (h : gmap Ptr Val) p :
  v <> Ref p -> fst (json_Unmarshal env body v h) !! p = h !! p.
Proof.
  intros Hp. destruct v as [|q]; [|apply json_Unmarshal_other; congruence].
  unfold json_Unmarshal. destruct (json_checkValid env body); reflexivity.
Qed.

(** One step of a refresh under way: what it leaves alone, and what it does
    at each stage. *)
Lemma refresh_step_frame (f : closure) s w :
  let s' := fst (refresh_step env f s w) in
  let w' := snd (refresh_step env f s w) in
  (chans w' = chans w /\ tickers w' = tickers w /\ goroutines w' = goroutines w
   /\ cron (client w') = cron (client w)
   /\ stopChans (client w') = stopChans (client w)
   /\ ticker (client w') = ticker (client w) /\ now w <= now w'
   /\ inflight w' = inflight w)
  /\ gets w' = (if is_ToGet s then gets w ++ [(updateCtx, uf_path f)] else gets w)
  /\ is_ToGet s' = false
  /\ (s = ToStore \/ cache (client w') = cache (client w))
  /\ (forall k,
        cache (client w') !! k = cache (client w) !! k
        \/ exists e,
             k = uf_path f /\ cache (client w) !! k = Some e
             /\ cache (client w') !! k
                = Some (CacheEntry.mk (uf_result f) (now w) (CacheEntry.Expiration e)))
  /\ (forall p, uf_result f <> Ref p -> heap w' !! p = heap w !! p)
  /\ ((exists r, s = ToDecode r) \/ heap w' = heap w).
Proof.
  cbv zeta. destruct s as [|r| |]; cbn [refresh_step fst snd is_ToGet].
  - cbn. repeat split; try reflexivity; try lia; auto.
  - assert (forall body p, uf_result f <> Ref p ->
              fst (json_Unmarshal env body (uf_result f) (heap w)) !! p = heap w !! p)
      as Hj by (intros; apply json_Unmarshal_elsewhere; assumption).
    destruct r as [resp|e0];
      [|cbn; repeat split; try reflexivity; try lia; eauto].
    destruct (negb (StatusCode resp =? StatusOK));
      [cbn; repeat split; try reflexivity; try lia; eauto|].
    destruct (Body resp) as [body|e0];
      [|cbn; repeat split; try reflexivity; try lia; eauto].
    specialize (Hj body).
    destruct (json_Unmarshal env body (uf_result f) (heap w)) as [h [e|]];
      cbn in *; repeat split; try reflexivity; try lia; eauto.
  - frame_of (store_entry_frame (uf_path f) (uf_result f) w) F.
    destruct F as (F1 & F2 & F3 & F4 & F5 & F6 & F7 & F8 & F9 & F10 & F11).
    cbn [chans tickers goroutines client now inflight gets heap elapse with_now].
    split; [repeat split; try assumption; lia|].
    split; [exact F9|]. split; [reflexivity|]. split; [left; reflexivity|].
    split.
    + intros k. rewrite store_entry_lookup.
      destruct (decide (k = uf_path f)) as [->|Hk]; [|left; reflexivity].
      destruct (cache (client w) !! uf_path f) as [e|]; [|left; reflexivity].
      right. exists e. auto.
    + split; [intros p _; rewrite F7; reflexivity|right; exact F7].
  - repeat split; try reflexivity; try lia; auto.
Qed.

(** Every background step is of one of four kinds: nothing that matters
    here happens; a task whose channel is open runs its refresh in one go;
    such a task passes its stop test and joins the refreshes under way; or a
    refresh under way takes a step. Channels and [stopChans] are untouched,
    no task is added, and the clock does not go back. *)
Lemma bg_step_cases e w w' :
  bg_step env e w = Some w' ->
  (chans w' = chans w /\ stopChans (client w') = stopChans (client w)
   /\ (forall f, In f (tasks w') -> In f (tasks w))
   /\ now w <= now w')
  /\ ((gets w' = gets w /\ cache (client w') = cache (client w)
       /\ heap w' = heap w /\ inflight w' = inflight w)
      \/ (exists f, In f (tasks w) /\ is_closed (uf_stopChan f) w = false
                    /\ w' = updateFunc env f w)
      \/ (exists f, In f (tasks w) /\ is_closed (uf_stopChan f) w = false
                    /\ w' = with_inflight (inflight w ++ [(f, ToGet)]) w)
      \/ (exists i f s,
            inflight w !! i = Some (f, s) /\ s <> Over
            /\ w' = with_inflight
                      (<[i := (f, fst (refresh_step env f s w))]> (inflight w))
                      (snd (refresh_step env f s w)))).
Proof.
  assert (forall f : closure,
            In f (tasks w) ->
            (chans (updateFunc env f w) = chans w
             /\ stopChans (client (updateFunc env f w)) = stopChans (client w)
             /\ (forall f0, In f0 (tasks (updateFunc env f w)) -> In f0 (tasks w))
             /\ now w <= now (updateFunc env f w))
            /\ ((gets (updateFunc env f w) = gets w
                 /\ cache (client (updateFunc env f w)) = cache (client w)
                 /\ heap (updateFunc env f w) = heap w
                 /\ inflight (updateFunc env f w) = inflight w)
                \/ (exists f0, In f0 (tasks w) /\ is_closed (uf_stopChan f0) w = false
                               /\ updateFunc env f w = updateFunc env f0 w)
                \/ (exists f0, In f0 (tasks w) /\ is_closed (uf_stopChan f0) w = false
                               /\ updateFunc env f w
                                  = with_inflight (inflight w ++ [(f0, ToGet)]) w)
                \/ (exists i f0 s,
                      inflight w !! i = Some (f0, s) /\ s <> Over
                      /\ updateFunc env f w
                         = with_inflight
                             (<[i := (f0, fst (refresh_step env f0 s w))]> (inflight w))
                             (snd (refresh_step env f0 s w))))) as Hrun.
  { intros f Hf. frame_of (updateFunc_frame f w) F.
    destruct F as (Fch & _ & Fgo & Fcr & Fs & _ & Fn & _).
    split.
    { split; [exact Fch|]. split; [exact Fs|]. split; [|exact Fn].
      unfold tasks. rewrite Fgo, Fcr. auto. }
    destruct (is_closed (uf_stopChan f) w) eqn:Hc.
    - left. rewrite (updateFunc_cancelled _ _ Hc). auto.
    - right. left. exists f. auto. }
  assert (forall f : closure,
            In f (tasks w) ->
            (chans (begin f w) = chans w
             /\ stopChans (client (begin f w)) = stopChans (client w)
             /\ (forall f0, In f0 (tasks (begin f w)) -> In f0 (tasks w))
             /\ now w <= now (begin f w))
            /\ ((gets (begin f w) = gets w
                 /\ cache (client (begin f w)) = cache (client w)
                 /\ heap (begin f w) = heap w
                 /\ inflight (begin f w) = inflight w)
                \/ (exists f0, In f0 (tasks w) /\ is_closed (uf_stopChan f0) w = false
                               /\ begin f w = updateFunc env f0 w)
                \/ (exists f0, In f0 (tasks w) /\ is_closed (uf_stopChan f0) w = false
                               /\ begin f w
                                  = with_inflight (inflight w ++ [(f0, ToGet)]) w)
                \/ (exists i f0 s,
                      inflight w !! i = Some (f0, s) /\ s <> Over
                      /\ begin f w
                         = with_inflight
                             (<[i := (f0, fst (refresh_step env f0 s w))]> (inflight w))
                             (snd (refresh_step env f0 s w))))) as Hbegin.
  { intros f Hf. unfold begin.
    destruct (is_closed (uf_stopChan f) w) eqn:Hc.
    - split; [repeat split; auto; lia|]. left. auto.
    - split; [cbn; repeat split; auto; lia|]. right. right. left. exists f. auto. }
  destruct e as [g|g|j|d|g|j|i]; cbn [bg_step].
  - destruct (goroutines w !! g) as [gr|] eqn:Hg; [|discriminate].
    destruct (g_alive gr) eqn:Ha; [|discriminate]. intros [= <-].
    exact (Hrun _ (tasks_job_of_alive _ _ _ Hg Ha)).
  - destruct (goroutines w !! g) as [gr|]; [|discriminate].
    destruct (g_alive gr && is_closed _ w); [|discriminate]. intros [= <-].
    split; [|left; cbn; auto].
    split; [reflexivity|]. split; [reflexivity|]. split; [|cbn; lia].
    unfold tasks. simpl.
    intros f Hf. apply in_app_or in Hf. apply in_or_app.
    destruct Hf as [Hf|Hf]; [left|right; exact Hf].
    apply in_map_iff in Hf. destruct Hf as (x & <- & Hx).
    apply in_map. exact (filter_alive_alter _ _ _ Hx).
  - destruct (Cron.running _); [|discriminate].
    destruct (Cron.entries _ !! j) as [[spec cmd]|] eqn:Hj; [|discriminate].
    intros [= <-]. exact (Hrun _ (tasks_cron_entry _ _ _ _ Hj)).
  - destruct (Z.leb_spec 0 d); [|discriminate]. intros [= <-].
    split; [cbn; repeat split; auto; lia|]. left. cbn. auto.
  - destruct (goroutines w !! g) as [gr|] eqn:Hg; [|discriminate].
    destruct (g_alive gr) eqn:Ha; [|discriminate]. intros [= <-].
    exact (Hbegin _ (tasks_job_of_alive _ _ _ Hg Ha)).
  - destruct (Cron.running _); [|discriminate].
    destruct (Cron.entries _ !! j) as [[spec cmd]|] eqn:Hj; [|discriminate].
    intros [= <-]. exact (Hbegin _ (tasks_cron_entry _ _ _ _ Hj)).
  - destruct (inflight w !! i) as [[f s]|] eqn:Hi; [|discriminate].
    frame_of (refresh_step_frame f s w) F.
    destruct F as ((Fch & _ & Fgo & Fcr & Fs & _ & Fn & Fi) & _).
    assert (s <> Over ->
            (let '(s', w1) := refresh_step env f s w in
             Some (with_inflight (<[i := (f, s')]> (inflight w1)) w1)) = Some w' ->
            (chans w' = chans w /\ stopChans (client w') = stopChans (client w)
             /\ (forall f0, In f0 (tasks w') -> In f0 (tasks w))
             /\ now w <= now w')
            /\ ((gets w' = gets w /\ cache (client w') = cache (client w)
                 /\ heap w' = heap w /\ inflight w' = inflight w)
                \/ (exists f0, In f0 (tasks w) /\ is_closed (uf_stopChan f0) w = false
                               /\ w' = updateFunc env f0 w)
                \/ (exists f0, In f0 (tasks w) /\ is_closed (uf_stopChan f0) w = false
                               /\ w' = with_inflight (inflight w ++ [(f0, ToGet)]) w)
                \/ (exists i0 f0 s0,
                      inflight w !! i0 = Some (f0, s0) /\ s0 <> Over
                      /\ w' = with_inflight
                                (<[i0 := (f0, fst (refresh_step env f0 s0 w))]>
                                   (inflight w))
                                (snd (refresh_step env f0 s0 w))))) as Hadv.
    { intros Hs. destruct (refresh_step env f s w) as [s' w1] eqn:E.
      cbn [fst snd] in *. intros [= <-]. split.
      - cbn. split; [exact Fch|]. split; [exact Fs|]. split; [|exact Fn].
        unfold tasks. cbn. rewrite Fgo, Fcr. auto.
      - right. right. right. exists i, f, s. rewrite E. cbn [fst snd].
        rewrite Fi. auto. }
    destruct s; cbv beta iota; try discriminate; apply Hadv; discriminate.
Qed.

(** No background event starts a task or opens or closes a channel. *)
Lemma bg_step_tasks e w w' :
  bg_step env e w = Some w' ->
  chans w' = chans w
  /\ stopChans (client w') = stopChans (client w)
  /\ (forall f, In f (tasks w') -> In f (tasks w)).
Proof.
  intros H. destruct (bg_step_cases _ _ _ H) as ((A & B & C & _) & _). auto.
Qed.

Lemma gets_of_app path l1 l2 :
  gets_of path (l1 ++ l2) = gets_of path l1 ++ gets_of path l2.
Proof. unfold gets_of. apply List.filter_app. Qed.

Lemma gets_of_other path ctx p :
  p <> path -> gets_of path [(ctx, p)] = [].
Proof.
  intros H. unfold gets_of. cbn [List.filter snd].
  rewrite bool_decide_eq_false_2 by exact H. reflexivity.
Qed.

(** ** After a stop: what the refreshes under way can still do *)

Lemma filter_length_insert {A : Type} (P : A -> bool) (l : list A) i x y :
  l !! i = Some x ->
  (length (List.filter P (<[i := y]> l)) + (if P x then 1 else 0)
   = length (List.filter P l) + (if P y then 1 else 0))%nat.
Proof.
  revert i. induction l as [|z l IH]; intros [|i] H; [done|done| |].
  - injection H as ->. change (<[0%nat := y]> (x :: l)) with (y :: l).
    cbn [List.filter]. destruct (P x), (P y); cbn [length]; lia.
  - change (<[S i := y]> (z :: l)) with (z :: <[i := y]> l).
    cbn [List.filter]. specialize (IH i H).
    destruct (P z); cbn [length]; lia.
Qed.

Lemma filter_nil_iff {A : Type} (P : A -> bool) (l : list A) :
  List.filter P l = [] <-> forall i x, l !! i = Some x -> P x = false.
Proof.
  induction l as [|z l IH]; cbn [List.filter].
  - split; [intros _ i x H; discriminate H|reflexivity].
  - destruct (P z) eqn:Hz.
    + split; [discriminate|]. intros H. specialize (H 0%nat z eq_refl). congruence.
    + rewrite IH. split.
      * intros H [|i] x Hx; [injection Hx as <-; exact Hz|exact (H i x Hx)].
      * intros H i x Hx. exact (H (S i) x Hx).
Qed.

Lemma under_way_nil (Q : string -> bool) w :
  under_way Q w = [] <->
  forall i f s, inflight w !! i = Some (f, s) -> Q (uf_path f) = true -> s = Over.
Proof.
  unfold under_way. rewrite filter_nil_iff. split.
  - intros H i f s Hi HQ. specialize (H i (f, s) Hi). cbn [fst snd] in H.
    rewrite HQ in H. destruct s; try discriminate H. reflexivity.
  - intros H i [f s] Hi. cbn [fst snd].
    destruct (Q (uf_path f)) eqn:HQ; [|reflexivity].
    rewrite (H i f s Hi HQ). reflexivity.
Qed.

Lemma gets_in_app (Q : string -> bool) l1 l2 :
  gets_in Q (l1 ++ l2) = gets_in Q l1 ++ gets_in Q l2.
Proof. unfold gets_in. apply List.filter_app. Qed.

Lemma gets_in_any (l : list (Context * string)) : gets_in any l = l.
Proof.
  unfold gets_in, any. induction l as [|c l IH]; [reflexivity|].
  cbn [List.filter]. rewrite IH. reflexivity.
Qed.

(** While the tasks of the paths in [Q] are cancelled, a background step
    starts no refresh for them; the calls of [c.Get] for these paths grow
    by no more than what the refreshes under way still owe; and if no such
    refresh is under way, the step makes no call for these paths and leaves
    their entries alone. *)
Lemma bg_step_muted (Q : string -> bool) e w w' :
  muted Q w ->
  bg_step env e w = Some w' ->
  muted Q w'
  /\ (length (gets_in Q (gets w')) + owed Q w'
      <= length (gets_in Q (gets w)) + owed Q w)%nat
  /\ (forall i f s', inflight w' !! i = Some (f, s') -> Q (uf_path f) = true ->
                     exists s, inflight w !! i = Some (f, s))
  /\ (under_way Q w = [] ->
      under_way Q w' = []
      /\ gets_in Q (gets w') = gets_in Q (gets w)
      /\ (forall k, Q k = true -> cache (client w') !! k = cache (client w) !! k)
      /\ ((forall k, Q k = true) -> heap w' = heap w)).
Proof.
  intros Hm Hstep.
  destruct (bg_step_cases _ _ _ Hstep) as ((Hch & _ & Hsub & _) & Hkind).
  split.
  { intros f Hf HQ. rewrite (is_closed_same_chans _ _ _ Hch).
    exact (Hm f (Hsub f Hf) HQ). }
  assert (forall f, In f (tasks w) -> is_closed (uf_stopChan f) w = false ->
                    Q (uf_path f) = false) as Hopen.
  { intros f Hf Hc. destruct (Q (uf_path f)) eqn:HQ; [|reflexivity].
    rewrite (Hm f Hf HQ) in Hc. discriminate. }
  assert (forall f, Q (uf_path f) = false ->
                    gets_in Q [(updateCtx, uf_path f)] = []) as Hother.
  { intros f HQ. unfold gets_in. cbn [List.filter snd]. rewrite HQ. reflexivity. }
  destruct Hkind as [(Hg & Hc & Hh & Hi)|[(f & Hf & Hcl & ->)|[(f & Hf & Hcl & ->)
                     |(i & f & s & Hi & Hs & ->)]]].
  - unfold owed, under_way. rewrite Hg, Hi, Hc, Hh.
    split; [lia|]. split; [eauto|]. auto.
  - pose proof (Hopen f Hf Hcl) as HQ.
    frame_of (updateFunc_frame f w) F.
    destruct F as (_ & _ & _ & _ & _ & _ & _ & Fg & Fc & Fi).
    assert (gets_in Q (gets (updateFunc env f w)) = gets_in Q (gets w)) as Hg.
    { destruct Fg as [->| ->]; [reflexivity|].
      rewrite gets_in_app, (Hother f HQ), app_nil_r. reflexivity. }
    unfold owed, under_way. rewrite Hg, Fi.
    split; [lia|]. split; [eauto|]. intros Hu. split; [exact Hu|].
    split; [reflexivity|]. split.
    + intros k Hk. apply Fc. intros ->. congruence.
    + intros Hall. rewrite Hall in HQ. discriminate.
  - pose proof (Hopen f Hf Hcl) as HQ.
    unfold owed, under_way. cbn [gets inflight with_inflight client heap].
    rewrite !List.filter_app. cbn [List.filter fst snd]. rewrite HQ. cbn [andb].
    rewrite !app_nil_r. split; [lia|]. split.
    + intros i0 f0 s' Hi0 HQ0.
      destruct (decide (i0 < length (inflight w))%nat) as [Hlt|Hge].
      * rewrite lookup_app_l in Hi0 by exact Hlt. eauto.
      * rewrite lookup_app_r in Hi0 by lia.
        destruct (i0 - length (inflight w))%nat; [|discriminate].
        injection Hi0 as <- <-. congruence.
    + intros Hu. split; [exact Hu|]. split; [reflexivity|].
      split; [reflexivity|]. intros Hall. rewrite Hall in HQ. discriminate.
  - frame_of (refresh_step_frame f s w) F.
    destruct (refresh_step env f s w) as [s' w1]. cbn [fst snd] in *.
    destruct F as ((_ & _ & _ & _ & _ & _ & _ & Fi) & Fg & Fs' & Fst & Fc & Fh & Fhd).
    unfold owed. cbn [gets inflight with_inflight client heap].
    pose proof (filter_length_insert
                  (fun r => Q (uf_path (fst r)) && is_ToGet (snd r))
                  (inflight w) i (f, s) (f, s') Hi) as Hlen.
    cbn [fst snd] in Hlen. rewrite Fs', andb_false_r in Hlen.
    split.
    { rewrite Fg. destruct (Q (uf_path f)) eqn:HQ; cbn [andb] in Hlen.
      - assert (length (gets_in Q [(updateCtx, uf_path f)]) = 1%nat) as H1
          by (unfold gets_in; cbn [List.filter snd]; rewrite HQ; reflexivity).
        destruct s; cbn [is_ToGet] in *; rewrite ?gets_in_app, ?length_app; lia.
      - destruct s; cbn [is_ToGet] in *;
          rewrite ?gets_in_app, ?(Hother f HQ), ?app_nil_r; lia. }
    split.
    { intros i0 f0 s0 Hi0 HQ0. destruct (decide (i0 = i)) as [->|Hne].
      - rewrite list_lookup_insert_eq in Hi0 by (apply lookup_lt_Some in Hi; exact Hi).
        injection Hi0 as <- <-. eauto.
      - rewrite list_lookup_insert_ne in Hi0 by congruence. eauto. }
    intros Hu. pose proof (proj1 (under_way_nil Q w) Hu) as Hset.
    assert (Q (uf_path f) = false) as HQ.
    { destruct (Q (uf_path f)) eqn:HQ; [|reflexivity].
      destruct (Hs (Hset i f s Hi HQ)). }
    split.
    { apply under_way_nil. cbn [inflight with_inflight]. intros i0 f0 s0 Hi0 HQ0.
      destruct (decide (i0 = i)) as [->|Hne].
      - rewrite list_lookup_insert_eq in Hi0 by (apply lookup_lt_Some in Hi; exact Hi).
        injection Hi0 as <- <-. congruence.
      - rewrite list_lookup_insert_ne in Hi0 by congruence.
        exact (Hset i0 f0 s0 Hi0 HQ0). }
    split.
    { rewrite Fg. destruct (is_ToGet s); [|reflexivity].
      rewrite gets_in_app, (Hother f HQ), app_nil_r. reflexivity. }
    split.
    { intros k Hk. destruct (Fc k) as [Hsame|(e0 & -> & _)]; [exact Hsame|congruence]. }
    intros Hall. rewrite Hall in HQ. discriminate.
Qed.

Lemma bg_run_muted (Q : string -> bool) es w w' :
  muted Q w ->
  bg_run env es w = Some w' ->
  muted Q w'
  /\ (length (gets_in Q (gets w')) + owed Q w'
      <= length (gets_in Q (gets w)) + owed Q w)%nat
  /\ (forall i f s', inflight w' !! i = Some (f, s') -> Q (uf_path f) = true ->
                     exists s, inflight w !! i = Some (f, s))
  /\ (under_way Q w = [] ->
      under_way Q w' = []
      /\ gets_in Q (gets w') = gets_in Q (gets w)
      /\ (forall k, Q k = true -> cache (client w') !! k = cache (client w) !! k)
      /\ ((forall k, Q k = true) -> heap w' = heap w)).
Proof.
  revert w. induction es as [|e es IH]; intros w Hm; cbn [bg_run].
  - intros [= <-]. split; [exact Hm|]. split; [lia|]. split; [eauto|]. auto.
  - destruct (bg_step env e w) as [w1|] eqn:Hstep; [|discriminate].
    intros Hrun.
    destruct (bg_step_muted Q _ _ _ Hm Hstep) as (Hm1 & Hb1 & Hn1 & Hs1).
    destruct (IH _ Hm1 Hrun) as (Hm' & Hb' & Hn' & Hs').
    split; [exact Hm'|]. split; [lia|]. split.
    + intros i f s' Hi HQ. destruct (Hn' i f s' Hi HQ) as (s1 & Hi1).
      exact (Hn1 i f s1 Hi1 HQ).
    + intros Hu. destruct (Hs1 Hu) as (Hu1 & Hg1 & Hc1 & Hh1).
      destruct (Hs' Hu1) as (Hu' & Hg' & Hc' & Hh').
      split; [exact Hu'|]. split; [congruence|]. split.
      * intros k Hk. rewrite (Hc' k Hk). exact (Hc1 k Hk).
      * intros Hall. rewrite (Hh' Hall). exact (Hh1 Hall).
Qed.

Lemma GetCached_same_entry path w1 w2 :
  cache (client w1) !! path = cache (client w2) !! path ->
  now w1 = now w2 ->
  GetCached path w1 = GetCached path w2.
Proof. intros Hc Hn. unfold GetCached. rewrite Hc, Hn. reflexivity. Qed.

Lemma only_true path k : only path k = true <-> k = path.
Proof. unfold only. apply bool_decide_eq_true. Qed.

(** X3. For a key whose live tasks all listen on the channel filed under
    it: [StopCacheUpdates] returns without panic, is a no-op the second
    time, and leaves the store, the destinations and the refreshes under
    way alone. From then on, whatever the tickers, the scheduler and the
    refreshes under way do, no refresh of the key passes its stop test any
    more: the refreshes of the key under way are those that had passed it
    before the stop, and the calls of [c.Get] for the key grow by no more
    than what these still owed. If no refresh of the key was under way at
    the stop, no call is made for the key and its entry stays as it is, so
    [GetCached] keeps returning the entry's [Data], its staleness judged at
    the later clock reading. *)
Theorem stopped_key_stays_quiet path w :
  stopChans_ok w ->
  tracked path w ->
  exists w',
    StopCacheUpdates path w = Return tt w'
    /\ StopCacheUpdates path w' = Return tt w'
    /\ cache (client w') = cache (client w) /\ heap w' = heap w
    /\ inflight w' = inflight w
    /\ forall es w'',
         bg_run env es w' = Some w'' ->
         (forall i f s', inflight w'' !! i = Some (f, s') -> uf_path f = path ->
                         exists s, inflight w !! i = Some (f, s))
         /\ (length (gets_of path (gets w''))
             <= length (gets_of path (gets w)) + owed (only path) w)%nat
         /\ (under_way (only path) w = [] ->
             gets_of path (gets w'') = gets_of path (gets w)
             /\ cache (client w'') !! path = cache (client w) !! path
             /\ GetCached path w'' = GetCached path (with_now (now w'') w)).
Proof.
  intros Hok Htr.
  destruct (StopCacheUpdates_safe path w Hok) as (w' & Hr & Hr2 & _ & _ & Hf & Hcl).
  exists w'. split; [exact Hr|]. split; [exact Hr2|].
  pose proof Hf as (Hca & _ & _ & _ & _ & Hh & _ & Hg & _ & Hi).
  split; [exact Hca|]. split; [exact Hh|]. split; [exact Hi|].
  assert (muted (only path) w') as Hq.
  { intros f Hin Hp. apply only_true in Hp.
    rewrite (stop_frame_tasks _ _ Hf) in Hin.
    apply Hcl. destruct (Htr f Hin Hp); auto. }
  intros es w'' Hrun.
  destruct (bg_run_muted _ _ _ _ Hq Hrun) as (_ & Hb & Hn & Hs).
  change (gets_in (only path)) with (gets_of path) in *.
  assert (owed (only path) w' = owed (only path) w) as Ho
    by (unfold owed; rewrite Hi; reflexivity).
  assert (under_way (only path) w' = under_way (only path) w) as Hw
    by (unfold under_way; rewrite Hi; reflexivity).
  rewrite Hg, Ho in Hb. rewrite Hw, Hg in Hs. rewrite Hi in Hn. split.
  { intros i f s' Hi' Hp. apply (Hn i f s' Hi'). apply only_true. exact Hp. }
  split; [lia|].
  intros Hu. destruct (Hs Hu) as (_ & Hg' & Hc' & _).
  specialize (Hc' path (proj2 (only_true path path) eq_refl)). rewrite Hca in Hc'.
  split; [exact Hg'|]. split; [exact Hc'|].
  apply GetCached_same_entry; [exact Hc'|reflexivity].
Qed.

(** ** Stop *)

Lemma Ticker_Stop_fold (l : list (string * nat)) w :
  let w' := foldl (fun w kv => Ticker_Stop (snd kv) w) w l in
  client w' = client w /\ chans w' = chans w /\ goroutines w' = goroutines w
  /\ heap w' = heap w /\ now w' = now w /\ gets w' = gets w
  /\ stdout w' = stdout w /\ inflight w' = inflight w
  /\ (forall tk t', tickers w' !! tk = Some t' ->
        exists t, tickers w !! tk = Some t /\ period t' = period t
                  /\ (stopped t = true \/ In tk (map snd l) -> stopped t' = true)).
Proof.
  cbv zeta. revert w. induction l as [|[k tk0] l IH]; intros w.
  - simpl. repeat (split; [reflexivity|]). intros tk t' H. exists t'.
    split; [exact H|]. split; [reflexivity|]. intros [Hs|[]]. exact Hs.
  - cbn [foldl snd map].
    destruct (IH (Ticker_Stop tk0 w)) as (A1 & A2 & A3 & A4 & A5 & A6 & A7 & A9 & A8).
    repeat (split; [assumption|]). intros tk t' H.
    destruct (A8 tk t' H) as (t1 & H1 & Hp1 & Hs1).
    unfold Ticker_Stop in H1. cbn [tickers with_tickers] in H1.
    destruct (decide (tk = tk0)) as [->|Hne].
    + rewrite list_lookup_alter_eq in H1.
      destruct (tickers w !! tk0) as [t|] eqn:Ht; [|discriminate].
      injection H1 as <-. exists t. split; [reflexivity|].
      split; [exact Hp1|]. intros _. apply Hs1. left. reflexivity.
    + rewrite list_lookup_alter_ne in H1 by congruence.
      exists t1. split; [exact H1|]. split; [exact Hp1|].
      intros [Hs|[Heq|Hin]]; [auto|congruence|auto].
Qed.

(** The loop of line 128 over any list of keys. *)
Lemma range_StopCacheUpdates (l : list string) w :
  stopChans_ok w ->
  exists w',
    range StopCacheUpdates l w = Return tt w'
    /\ stopChans_ok w'
    /\ stop_frame w w'
    /\ (forall k, stopChans (client w') !! k
                  = if decide (k ∈ l) then None else stopChans (client w) !! k)
    /\ (forall c, is_closed c w = true -> is_closed c w' = true)
    /\ (forall k c, k ∈ l -> stopChans (client w) !! k = Some c ->
                    is_closed c w' = true).
Proof.
  revert w. induction l as [|p l IH]; intros w Hok.
  - exists w. split; [reflexivity|]. split; [exact Hok|].
    split; [apply stop_frame_refl|]. split; [|split].
    + intros k. rewrite decide_False by (apply not_elem_of_nil). reflexivity.
    + auto.
    + intros k c Hk. apply elem_of_nil in Hk. destruct Hk.
  - destruct (StopCacheUpdates_safe p w Hok) as (w1 & Hr & _ & Hok1 & Hd & Hf1 & Hcl).
    destruct (IH w1 Hok1) as (w' & Hr' & Hok' & Hf' & Hs' & Hmono & Hcov).
    exists w'. cbn [range]. rewrite Hr. cbn [bind].
    split; [exact Hr'|]. split; [exact Hok'|].
    split; [exact (stop_frame_trans _ _ _ Hf1 Hf')|]. split; [|split].
    + intros k. rewrite Hs', Hd.
      destruct (decide (k ∈ l)) as [Hin|Hnin].
      * rewrite decide_True by (apply elem_of_cons; right; exact Hin). reflexivity.
      * destruct (decide (k = p)) as [->|Hne].
        -- rewrite decide_True by (apply elem_of_cons; left; reflexivity).
           apply lookup_delete_eq.
        -- rewrite decide_False
             by (intros [?|?]%elem_of_cons; [congruence|contradiction]).
           apply lookup_delete_ne. congruence.
    + intros c Hc. apply Hmono, Hcl. auto.
    + intros k c Hin Hk. apply elem_of_cons in Hin.
      destruct (decide (k = p)) as [->|Hne].
      * apply Hmono, Hcl. auto.
      * destruct Hin as [->|Hin]; [congruence|].
        apply (Hcov k c Hin). rewrite Hd, lookup_delete_ne by congruence. exact Hk.
Qed.

(** In a world whose stop channels are in order [Stop] returns without
    panic: every ticker found in the map is stopped, every channel filed
    under a key is closed and the map emptied, the scheduler is no longer
    running; the store, the destination objects and the list of [c.Get]
    calls are untouched. *)
Lemma Stop_safe w :
  stopChans_ok w ->
  exists w',
    Stop w = Return tt w'
    /\ stopChans_ok w'
    /\ stopChans (client w') = ∅
    /\ Cron.running (cron (client w')) = false
    /\ Cron.entries (cron (client w')) = Cron.entries (cron (client w))
    /\ cache (client w') = cache (client w) /\ heap w' = heap w
    /\ now w' = now w /\ gets w' = gets w /\ goroutines w' = goroutines w
    /\ inflight w' = inflight w
    /\ (forall k tk t', ticker (client w) !! k = Some tk ->
                        tickers w' !! tk = Some t' -> stopped t' = true)
    /\ (forall c, is_closed c w = true -> is_closed c w' = true)
    /\ (forall k c, stopChans (client w) !! k = Some c -> is_closed c w' = true).
Proof.
  intros Hok. unfold Stop.
  pose proof (Ticker_Stop_fold (map_to_list (ticker (client w))) w) as T.
  cbv zeta in T.
  set (w1 := foldl (fun w kv => Ticker_Stop (snd kv) w) w
                   (map_to_list (ticker (client w)))) in *.
  destruct T as (T1 & T2 & T3 & T4 & T5 & T6 & T7 & T9 & T8).
  assert (stopChans_ok w1) as Hok1.
  { destruct Hok as [Ho Hi]. split.
    - intros k c. rewrite T1, T2. apply Ho.
    - intros p1 p2 c. rewrite T1. apply Hi. }
  destruct (range_StopCacheUpdates (map_to_list (stopChans (client w1))).*1 w1 Hok1)
    as (w2 & Hr & Hok2 & Hf & Hs & Hmono & Hcov).
  rewrite Hr. cbn [bind]. eexists. split; [reflexivity|].
  destruct Hf as (F1 & F2 & F3 & F4 & F5 & F6 & F7 & F8 & F9 & F10).
  assert (forall k, stopChans (client w2) !! k = None) as Hnone.
  { intros k. rewrite Hs. destruct (decide (k ∈ _)) as [|Hnin]; [reflexivity|].
    destruct (stopChans (client w1) !! k) as [c|] eqn:Hk; [|reflexivity].
    exfalso. apply Hnin. apply list_elem_of_fmap.
    exists (k, c). split; [reflexivity|]. apply elem_of_map_to_list. exact Hk. }
  split.
  { destruct Hok2 as [Ho Hi]. split.
    - intros k c. simpl. rewrite Hnone. discriminate.
    - intros p1 p2 c. simpl. rewrite Hnone. discriminate. }
  split; [simpl; apply map_eq; intros k; rewrite Hnone, lookup_empty; reflexivity|].
  split; [reflexivity|]. simpl.
  split; [rewrite F2, T1; reflexivity|].
  split; [rewrite F1, T1; reflexivity|].
  split; [congruence|]. split; [congruence|]. split; [congruence|].
  split; [congruence|]. split; [congruence|]. split; [|split].
  - intros k tk t' Hk Ht. rewrite F4 in Ht.
    destruct (T8 tk t' Ht) as (t & _ & _ & Hst). apply Hst. right.
    apply list_elem_of_In, list_elem_of_fmap. exists (k, tk).
    split; [reflexivity|]. apply elem_of_map_to_list. exact Hk.
  - intros c Hc. change (is_closed c w2 = true). apply Hmono.
    rewrite (is_closed_same_chans c w w1 T2). exact Hc.
  - intros k c Hk. change (is_closed c w2 = true). apply (Hcov k c).
    + apply list_elem_of_fmap. exists (k, c).
      split; [reflexivity|]. apply elem_of_map_to_list. rewrite T1. exact Hk.
    + rewrite T1. exact Hk.
Qed.

Lemma silent_muted w : silent w -> muted any w.
Proof. intros H f Hf _. exact (H f Hf). Qed.

Lemma quiet_muted path w : quiet path w -> muted (only path) w.
Proof. intros H f Hf Hp. apply only_true in Hp. exact (H f Hf Hp). Qed.

(** X4. When the live tasks of every key listen on the channel filed under
    that key, [Stop] returns without panic, having stopped the tickers of
    the map, closed and forgotten every stop channel and stopped the
    scheduler; it leaves the store, the destinations and the refreshes under
    way alone. From then on, whatever the tickers, the scheduler and the
    refreshes under way do, no refresh passes its stop test any more: the
    refreshes under way are those that had passed it before [Stop], and the
    calls of [c.Get] grow by no more than what these still owed. If no
    refresh was under way at the call of [Stop], no call of [c.Get] is made
    any more and the store and the destination objects stay as they are, so
    [GetCached] answers from the entries as [Stop] found them. *)
Theorem Stop_ends_background w :
  stopChans_ok w ->
  (forall path, tracked path w) ->
  exists w',
    Stop w = Return tt w'
    /\ stopChans (client w') = ∅
    /\ Cron.running (cron (client w')) = false
    /\ (forall k tk t', ticker (client w) !! k = Some tk ->
                        tickers w' !! tk = Some t' -> stopped t' = true)
    /\ cache (client w') = cache (client w) /\ heap w' = heap w
    /\ inflight w' = inflight w
    /\ forall es w'',
         bg_run env es w' = Some w'' ->
         (forall i f s', inflight w'' !! i = Some (f, s') ->
                         exists s, inflight w !! i = Some (f, s))
         /\ (length (gets w'') <= length (gets w) + owed any w)%nat
         /\ (under_way any w = [] ->
             gets w'' = gets w
             /\ cache (client w'') = cache (client w)
             /\ heap w'' = heap w
             /\ forall path,
                  GetCached path w'' = GetCached path (with_now (now w'') w)).
Proof.
  intros Hok Htr.
  destruct (Stop_safe w Hok)
    as (w' & Hr & _ & He & Hrun & Hent & Hca & Hh & _ & Hg & Hgo & Hi & Htk
        & Hmono & Hcov).
  exists w'. split; [exact Hr|]. split; [exact He|]. split; [exact Hrun|].
  split; [exact Htk|]. split; [exact Hca|]. split; [exact Hh|].
  split; [exact Hi|].
  assert (muted any w') as Hs.
  { apply silent_muted. intros f Hf.
    assert (In f (tasks w)) as Hf0 by (unfold tasks in *; rewrite <- Hgo, <- Hent; exact Hf).
    destruct (Htr (uf_path f) f Hf0 eq_refl) as [Hc|Hc]; [exact (Hmono _ Hc)|].
    exact (Hcov _ _ Hc). }
  intros es w'' Hbg.
  destruct (bg_run_muted _ _ _ _ Hs Hbg) as (_ & Hb & Hn & Hq).
  assert (owed any w' = owed any w) as Ho by (unfold owed; rewrite Hi; reflexivity).
  assert (under_way any w' = under_way any w) as Hw
    by (unfold under_way; rewrite Hi; reflexivity).
  rewrite !gets_in_any in Hb. rewrite Hg, Ho in Hb. rewrite Hw in Hq.
  rewrite Hi in Hn. split.
  { intros i f s' Hi'. exact (Hn i f s' Hi' eq_refl). }
  split; [lia|].
  intros Hu. destruct (Hq Hu) as (_ & Hg' & Hc' & Hh').
  rewrite !gets_in_any in Hg'.
  assert (cache (client w'') = cache (client w)) as Hcc.
  { apply map_eq. intros k. rewrite (Hc' k eq_refl), Hca. reflexivity. }
  split; [congruence|]. split; [exact Hcc|].
  split; [rewrite (Hh' (fun _ => eq_refl)); exact Hh|].
  intros path. apply GetCached_same_entry; [|reflexivity].
  cbn [client with_now]. rewrite Hcc. reflexivity.
Qed.

(** ** The stop channels along a history *)

Lemma tasks_add_goroutine w g (gs : list Goroutine) f :
  goroutines w = gs ->
  In f (map g_job (List.filter g_alive (gs ++ [g]))) ->
  In f (map g_job (List.filter g_alive gs)) \/ f = g_job g.
Proof.
  intros _. rewrite List.filter_app, map_app. intros H.
  apply in_app_or in H. destruct H as [H|H]; [left; exact H|].
  cbn [List.filter] in H. destruct (g_alive g); [|destruct H].
  destruct H as [<-|[]]. right. reflexivity.
Qed.

(** What a call of [SetupCachedEndpoint] that returns does to the channels
    and the tasks: one new open channel, filed under the key, and at most
    one new task, which listens on it. *)
Lemma SetupCachedEndpoint_effects ctx config result w r w' :
  SetupCachedEndpoint env ctx config result w = Return r w' ->
  chans w' = chans w ++ [false]
  /\ stopChans (client w')
     = <[CacheConfig.Path config := length (chans w)]> (stopChans (client w))
  /\ (forall f, In f (tasks w') ->
        In f (tasks w)
        \/ f = mkClosure (CacheConfig.Path config) result (length (chans w))).
Proof.
  unfold SetupCachedEndpoint.
  pose proof (register_spec config result w) as R. cbv zeta in R.
  destruct (register config result w) as [stopChan w1]. cbn [fst snd] in R.
  destruct R as (-> & _ & Rs & Rch & Rcr & _ & _ & Rgo & _).
  assert (tasks w1 = tasks w) as Rt by (unfold tasks; rewrite Rgo, Rcr; reflexivity).
  assert (forall w2,
            chans w2 = chans w1 -> stopChans (client w2) = stopChans (client w1) ->
            goroutines w2 = goroutines w1 -> cron (client w2) = cron (client w1) ->
            schedule env config
              (mkClosure (CacheConfig.Path config) result (length (chans w))) w2
            = Return r w' ->
            chans w' = chans w ++ [false]
            /\ stopChans (client w')
               = <[CacheConfig.Path config := length (chans w)]> (stopChans (client w))
            /\ (forall f, In f (tasks w') ->
                  In f (tasks w)
                  \/ f = mkClosure (CacheConfig.Path config) result (length (chans w))))
    as Hsched.
  { intros w2 Hch Hs Hgo Hcr. rewrite schedule_resolve.
    assert (tasks w2 = tasks w) as Ht
      by (rewrite <- Rt; unfold tasks; rewrite Hgo, Hcr; reflexivity).
    destruct (resolve env (CacheConfig.CronSpec config)) as [d|spec|e].
    - unfold schedule_with_ticker, NewTicker.
      destruct (d <=? 0); [discriminate|]. cbn [bind]. intros [= <- <-].
      simpl. rewrite Hch, Hs, Rch, Rs. split; [reflexivity|]. split; [reflexivity|].
      intros f Hf. unfold tasks in Hf. cbn [goroutines with_goroutines client] in Hf.
      simpl in Hf. apply in_app_or in Hf. destruct Hf as [Hf|Hf].
      + destruct (tasks_add_goroutine w2 _ _ _ eq_refl Hf) as [H|H]; [|right; exact H].
        left. rewrite <- Ht. unfold tasks. apply in_or_app. left. exact H.
      + left. rewrite <- Ht. unfold tasks. apply in_or_app. right. exact Hf.
    - intros [= <- <-]. simpl. rewrite Hch, Hs, Rch, Rs.
      split; [reflexivity|]. split; [reflexivity|].
      intros f Hf. unfold tasks in Hf. simpl in Hf.
      rewrite map_app in Hf. apply in_app_or in Hf. destruct Hf as [Hf|Hf].
      + left. rewrite <- Ht. unfold tasks. apply in_or_app. left. exact Hf.
      + apply in_app_or in Hf. destruct Hf as [Hf|[<-|[]]]; [|right; reflexivity].
        left. rewrite <- Ht. unfold tasks. apply in_or_app. right. exact Hf.
    - intros [= <- <-]. rewrite Hch, Hs, Rch, Rs, Ht. auto. }
  destruct (CacheConfig.SkipInitialFetch config).
  - apply Hsched; reflexivity.
  - pose proof (updateCache_frame ctx (CacheConfig.Path config) result w1) as F.
    cbv zeta in F.
    destruct (updateCache env ctx (CacheConfig.Path config) result w1)
      as [[e0|] w2]; cbn [snd] in F;
      destruct F as (_ & Fcr & Fs & _ & Fch & _ & Fgo & _).
    + intros [= <- <-]. rewrite Fch, Fs, Rch, Rs.
      split; [reflexivity|]. split; [reflexivity|].
      intros f Hf. left. rewrite <- Rt. unfold tasks in *. rewrite <- Fgo, <- Fcr. exact Hf.
    + apply Hsched; assumption.
Qed.

Lemma is_closed_new_chan c w w' :
  chans w' = chans w ++ [false] -> is_closed c w' = is_closed c w.
Proof.
  intros H. unfold is_closed. rewrite H.
  destruct (decide (c < length (chans w))%nat) as [Hlt|Hge].
  - rewrite lookup_app_l by exact Hlt. reflexivity.
  - rewrite lookup_app_r by lia. rewrite (lookup_ge_None_2 (chans w)) by lia.
    destruct (c - length (chans w))%nat as [|n]; reflexivity.
Qed.

Lemma SetupCachedEndpoint_stopChans_ok ctx config result w r w' :
  stopChans_ok w ->
  SetupCachedEndpoint env ctx config result w = Return r w' ->
  stopChans_ok w'.
Proof.
  intros [Ho Hi] H.
  destruct (SetupCachedEndpoint_effects _ _ _ _ _ _ H) as (Hch & Hs & _).
  assert (forall p c, stopChans (client w) !! p = Some c -> (c < length (chans w))%nat)
    as Hlt by (intros p c Hp; exact (lookup_lt_Some _ _ _ (Ho _ _ Hp))).
  split.
  - intros p c. rewrite Hs, Hch. intros Hp.
    destruct (decide (p = CacheConfig.Path config)) as [->|Hne].
    + rewrite lookup_insert_eq in Hp. injection Hp as <-.
      rewrite lookup_app_r by lia. rewrite Nat.sub_diag. reflexivity.
    + rewrite lookup_insert_ne in Hp by congruence.
      rewrite lookup_app_l by exact (Hlt _ _ Hp). exact (Ho _ _ Hp).
  - intros p1 p2 c. rewrite Hs. intros H1 H2.
    destruct (decide (p1 = CacheConfig.Path config)) as [->|N1];
      destruct (decide (p2 = CacheConfig.Path config)) as [->|N2];
      [reflexivity| | |].
    + rewrite lookup_insert_eq in H1. rewrite lookup_insert_ne in H2 by congruence.
      injection H1 as <-. apply Hlt in H2. lia.
    + rewrite lookup_insert_eq in H2. rewrite lookup_insert_ne in H1 by congruence.
      injection H2 as <-. apply Hlt in H1. lia.
    + rewrite lookup_insert_ne in H1, H2 by congruence. exact (Hi _ _ _ H1 H2).
Qed.

Lemma GetCachedOrFetch_effects ctx path w r w' :
  GetCachedOrFetch env ctx path w = Return r w' ->
  chans w' = chans w /\ stopChans (client w') = stopChans (client w)
  /\ tasks w' = tasks w.
Proof.
  unfold GetCachedOrFetch.
  destruct (cache (client w) !! path) as [entry|]; [|intros [= _ <-]; auto].
  destruct (needsFetch entry w); [|intros [= _ <-]; auto].
  pose proof (updateCache_frame ctx path (CacheEntry.Data entry) w) as F.
  cbv zeta in F.
  destruct (updateCache env ctx path (CacheEntry.Data entry) w) as [[e0|] w1];
    cbn [snd] in F; destruct F as (_ & Fcr & Fs & _ & Fch & _ & Fgo & _).
  - intros [= _ <-]. unfold tasks. rewrite Fgo, Fcr. auto.
  - destruct (cache (client w1) !! path); [|discriminate].
    intros [= _ <-]. unfold tasks. rewrite Fgo, Fcr. auto.
Qed.

Lemma exec_stopChans_ok c w w' :
  stopChans_ok w -> exec env c w = Some w' -> stopChans_ok w'.
Proof.
  intros Hok. destruct c as [ctx config result|ctx path|path|]; cbn [exec].
  - destruct (SetupCachedEndpoint env ctx config result w) as [r w1|] eqn:H;
      [|discriminate].
    intros [= <-]. exact (SetupCachedEndpoint_stopChans_ok _ _ _ _ _ _ Hok H).
  - destruct (GetCachedOrFetch env ctx path w) as [r w1|] eqn:H; [|discriminate].
    intros [= <-]. destruct (GetCachedOrFetch_effects _ _ _ _ _ H) as (Hch & Hs & _).
    destruct Hok as [Ho Hi]. split.
    + intros p c. rewrite Hs, Hch. apply Ho.
    + intros p1 p2 c. rewrite Hs. apply Hi.
  - destruct (StopCacheUpdates_safe path w Hok) as (w1 & -> & _ & Hok1 & _).
    intros [= <-]. exact Hok1.
  - destruct (Stop_safe w Hok) as (w1 & -> & Hok1 & _).
    intros [= <-]. exact Hok1.
Qed.

Lemma bg_step_stopChans_ok e w w' :
  stopChans_ok w -> bg_step env e w = Some w' -> stopChans_ok w'.
Proof.
  intros [Ho Hi] H. destruct (bg_step_tasks _ _ _ H) as (Hch & Hs & _). split.
  - intros p c. rewrite Hs, Hch. apply Ho.
  - intros p1 p2 c. rewrite Hs. apply Hi.
Qed.

(** X5. Along every history the channels filed under the keys stay open and
    distinct, so neither [StopCacheUpdates] nor [Stop] ever closes a closed
    channel: the history cannot end in that panic. *)
Theorem stop_never_panics l w w' :
  stopChans_ok w ->
  history env l w = Some w' ->
  stopChans_ok w'
  /\ (forall path, exists w'', StopCacheUpdates path w' = Return tt w'')
  /\ (exists w'', Stop w' = Return tt w'').
Proof.
  revert w. induction l as [|[c|e] l IH]; intros w Hok; cbn [history].
  - intros [= <-]. split; [exact Hok|]. split.
    + intros path. destruct (StopCacheUpdates_safe path w Hok) as (w1 & H & _). eauto.
    + destruct (Stop_safe w Hok) as (w1 & H & _). eauto.
  - destruct (exec env c w) as [w1|] eqn:H; [|discriminate].
    apply IH. exact (exec_stopChans_ok _ _ _ Hok H).
  - destruct (bg_step env e w) as [w1|] eqn:H; [|discriminate].
    apply IH. exact (bg_step_stopChans_ok _ _ _ Hok H).
Qed.

Lemma exec_tracked c w w' :
  stopChans_ok w ->
  (forall p, tracked p w) ->
  setup_on_quiet_key (inl c) w ->
  exec env c w = Some w' ->
  forall p, tracked p w'.
Proof.
  intros Hok Htr Hq. destruct c as [ctx config result|ctx path|path|]; cbn [exec].
  - destruct (SetupCachedEndpoint env ctx config result w) as [r w1|] eqn:H;
      [|discriminate].
    intros [= <-] p f Hf Hp. cbn in Hq.
    destruct (SetupCachedEndpoint_effects _ _ _ _ _ _ H) as (Hch & Hs & Ht).
    rewrite (is_closed_new_chan _ _ _ Hch), Hs.
    destruct (Ht f Hf) as [Hold| ->].
    + destruct (decide (p = CacheConfig.Path config)) as [->|Hne].
      * left. exact (Hq f Hold Hp).
      * rewrite lookup_insert_ne by congruence. exact (Htr p f Hold Hp).
    + cbn [uf_path uf_stopChan] in *. subst p. right. apply lookup_insert_eq.
  - destruct (GetCachedOrFetch env ctx path w) as [r w1|] eqn:H; [|discriminate].
    intros [= <-] p f Hf Hp.
    destruct (GetCachedOrFetch_effects _ _ _ _ _ H) as (Hch & Hs & Ht).
    rewrite (is_closed_same_chans _ _ _ Hch), Hs. rewrite Ht in Hf.
    exact (Htr p f Hf Hp).
  - destruct (StopCacheUpdates_safe path w Hok) as (w1 & -> & _ & _ & Hd & Hf1 & Hcl).
    intros [= <-] p f Hf Hp. rewrite (stop_frame_tasks _ _ Hf1) in Hf.
    destruct (Htr p f Hf Hp) as [Hc|Hr].
    + left. apply Hcl. auto.
    + destruct (decide (p = path)) as [->|Hne].
      * left. apply Hcl. auto.
      * right. rewrite Hd, lookup_delete_ne by congruence. exact Hr.
  - destruct (Stop_safe w Hok)
      as (w1 & -> & _ & _ & _ & Hent & _ & _ & _ & _ & Hgo & _ & _ & Hmono & Hcov).
    intros [= <-] p f Hf Hp. left.
    assert (In f (tasks w)) as Hf0 by (unfold tasks in *; rewrite <- Hgo, <- Hent; exact Hf).
    destruct (Htr p f Hf0 Hp) as [Hc|Hr]; [exact (Hmono _ Hc)|exact (Hcov _ _ Hr)].
Qed.

Lemma bg_step_tracked e w w' :
  (forall p, tracked p w) -> bg_step env e w = Some w' -> forall p, tracked p w'.
Proof.
  intros Htr H p f Hf Hp. destruct (bg_step_tasks _ _ _ H) as (Hch & Hs & Hsub).
  rewrite (is_closed_same_chans _ _ _ Hch), Hs. exact (Htr p f (Hsub f Hf) Hp).
Qed.

(** As long as no key is registered again while a task of an earlier
    registration can still run, the tasks of every key keep listening on
    the channel filed under the key. *)
Lemma history_tracked l w w' :
  stopChans_ok w ->
  (forall p, tracked p w) ->
  registers_quiet_keys env l w ->
  history env l w = Some w' ->
  stopChans_ok w' /\ forall p, tracked p w'.
Proof.
  revert w. induction l as [|[c|e] l IH]; intros w Hok Htr Hreg.
  - intros [= <-]. auto.
  - cbn [history registers_quiet_keys] in *. destruct Hreg as [Hq Hreg].
    destruct (exec env c w) as [w1|] eqn:H; [|discriminate].
    apply IH; [exact (exec_stopChans_ok _ _ _ Hok H)
              |exact (exec_tracked _ _ _ Hok Htr Hq H)|exact Hreg].
  - cbn [history registers_quiet_keys] in *. destruct Hreg as [_ Hreg].
    destruct (bg_step env e w) as [w1|] eqn:H; [|discriminate].
    apply IH; [exact (bg_step_stopChans_ok _ _ _ Hok H)
              |exact (bg_step_tracked _ _ _ Htr H)|exact Hreg].
Qed.

Lemma NewWorld_ok (h : gmap Ptr Val) t :
  stopChans_ok (NewWorld h t) /\ forall p, tracked p (NewWorld h t).
Proof.
  split; [split|].
  - intros path ch. cbn. rewrite lookup_empty. discriminate.
  - intros p1 p2 ch. cbn. rewrite lookup_empty. discriminate.
  - intros p f []. 
Qed.

(** ** Summaries *)

(** X1. [GetCached] in full: no value and the not-found error on a key without
    entry; the entry's [Data] with the expired error when the saturated age
    [time.Since(UpdatedAt)] exceeds the window, and with no error otherwise;
    that age is the plain difference while it fits a [Duration], and for a
    never-populated entry it is the largest [Duration], so such an entry is
    reported expired for every smaller window. Nothing is changed: the
    function only reads. *)
Theorem GetCached_spec path w :
  (cache (client w) !! path = None ->
   GetCached path w = (Nil, Some (no_cache_entry path)))
  /\ (forall entry,
        cache (client w) !! path = Some entry ->
        (CacheEntry.Expiration entry < time.Since (now w) (CacheEntry.UpdatedAt entry) ->
         GetCached path w = (CacheEntry.Data entry, Some (cache_expired path)))
        /\ (time.Since (now w) (CacheEntry.UpdatedAt entry) <= CacheEntry.Expiration entry ->
            GetCached path w = (CacheEntry.Data entry, None))
        /\ (0 <= now w - CacheEntry.UpdatedAt entry <= time.maxDuration ->
            time.Since (now w) (CacheEntry.UpdatedAt entry)
            = now w - CacheEntry.UpdatedAt entry)
        /\ (CacheEntry.UpdatedAt entry = time.zero ->
            time.unixEpoch <= now w ->
            CacheEntry.Expiration entry < time.maxDuration ->
            GetCached path w = (CacheEntry.Data entry, Some (cache_expired path)))).
Proof.
  split; [apply GetCached_unregistered|].
  intros entry He. split; [apply GetCached_stale; exact He|].
  split; [apply GetCached_fresh; exact He|].
  split; [|apply GetCached_never_populated; exact He].
  intros [Hlo Hhi]. unfold time.Since. apply Sub_exact.
  unfold time.minDuration. lia.
Qed.

(** X2. The policy resolution of [SetupCachedEndpoint] on the code: an
    [@every P] whose [P] is positive and under a minute gets a new ticker of
    period [P], filed under the key, and a goroutine running the job, and
    the cron scheduler is not involved; an [@every P] of a minute or more,
    and every spec without that prefix, is added to the cron scheduler,
    which is started, and no ticker is made; a duration or a spec that does
    not parse gives a schedule error and changes nothing. *)
Theorem schedule_policy config (cmd : closure) w :
  let spec := CacheConfig.CronSpec config in
  let every := strings.HasPrefix spec "@every " in
  let parsed := ParseDuration env (strings.TrimPrefix spec "@every ") in
  (forall d, every = true -> parsed = Ok d -> 0 < d < time.Minute ->
     schedule env config cmd w
     = Return None
         (with_goroutines
            (goroutines w ++ [mkGoroutine (length (tickers w)) cmd true])
            (with_client
               (fun c => set_ticker
                  (<[CacheConfig.Path config := length (tickers w)]> (ticker c)) c)
               (with_tickers (tickers w ++ [mkTicker d false]) w))))
  /\ (every = false \/ (exists d, parsed = Ok d /\ time.Minute <= d) ->
      cron_Parse env spec = None ->
      schedule env config cmd w
      = Return None
          (with_client
             (fun c => set_cron
                (Cron.mk (Cron.entries (cron c) ++ [(spec, cmd)]) true) c) w))
  /\ (forall e, every = true -> parsed = Err e ->
        schedule env config cmd w = Return (Some (invalid_every_duration e)) w)
  /\ (forall e, every = false \/ (exists d, parsed = Ok d /\ time.Minute <= d) ->
        cron_Parse env spec = Some e ->
        schedule env config cmd w = Return (Some (failed_to_schedule e)) w).
Proof.
  cbv zeta. unfold schedule, schedule_with_ticker, schedule_with_cron,
    cron_AddFunc, NewTicker, cron_Start.
  split; [|split; [|split]].
  - intros d -> -> [Hpos Hlt].
    destruct (Z.ltb_spec d time.Minute); [|lia].
    destruct (Z.leb_spec d 0); [lia|]. reflexivity.
  - intros [->|(d & -> & Hd)] ->; [reflexivity|].
    destruct (strings.HasPrefix _ _); [|reflexivity].
    destruct (Z.ltb_spec d time.Minute); [lia|]. reflexivity.
  - intros e -> ->. reflexivity.
  - intros e [->|(d & -> & Hd)] ->; [reflexivity|].
    destruct (strings.HasPrefix _ _); [|reflexivity].
    destruct (Z.ltb_spec d time.Minute); [lia|]. reflexivity.
Qed.

Lemma schedule_frame config (cmd : closure) w r w' :
  schedule env config cmd w = Return r w' ->
  cache (client w') = cache (client w) /\ heap w' = heap w
  /\ gets w' = gets w /\ now w' = now w
  /\ (r = None \/ exists e, r = Some e /\ kind e = ScheduleError).
Proof.
  rewrite schedule_resolve.
  destruct (resolve env (CacheConfig.CronSpec config)) as [d|spec|e] eqn:Hres.
  - unfold schedule_with_ticker, NewTicker. destruct (d <=? 0); [discriminate|].
    cbn [bind]. intros [= <- <-]. simpl. auto 6.
  - intros [= <- <-]. simpl. auto 6.
  - intros [= <- <-]. repeat (split; [reflexivity|]). right. exists e.
    split; [reflexivity|]. exact (resolve_kind _ _ Hres).
Qed.

(** X6. [SetupCachedEndpoint] with [SkipInitialFetch]: whenever it returns it
    has made no [c.Get] call and written no destination object, the key
    holds a never-populated entry, and the only error it can return is a
    schedule error; it does return, without error, when the spec resolves to
    cron rules or to a positive fixed period. [GetCached] then reports the
    entry expired for every window short of the largest [Duration]. *)
Theorem setup_skipping_initial_fetch ctx config result w :
  CacheConfig.SkipInitialFetch config = true ->
  let path := CacheConfig.Path config in
  (forall r w',
     SetupCachedEndpoint env ctx config result w = Return r w' ->
     gets w' = gets w /\ heap w' = heap w
     /\ cache (client w') !! path
        = Some (CacheEntry.mk result time.zero (CacheConfig.Expiration config))
     /\ (r = None \/ exists e, r = Some e /\ kind e = ScheduleError)
     /\ (time.unixEpoch <= now w ->
         CacheConfig.Expiration config < time.maxDuration ->
         GetCached path w' = (result, Some (cache_expired path))))
  /\ ((exists spec, resolve env (CacheConfig.CronSpec config) = CronRules spec)
      \/ (exists d, resolve env (CacheConfig.CronSpec config) = FixedPeriod d /\ 0 < d) ->
      exists w', SetupCachedEndpoint env ctx config result w = Return None w').
Proof.
  intros Hskip. cbv zeta. unfold SetupCachedEndpoint.
  pose proof (register_spec config result w) as R. cbv zeta in R.
  destruct (register config result w) as [stopChan w1]. cbn [fst snd] in R.
  destruct R as (_ & Rc & _ & _ & _ & _ & _ & _ & Rh & Rnow & Rgets & _).
  rewrite Hskip. split.
  - intros r w' H. destruct (schedule_frame _ _ _ _ _ H) as (Sc & Sh & Sg & Sn & Sr).
    assert (cache (client w') !! CacheConfig.Path config
            = Some (CacheEntry.mk result time.zero (CacheConfig.Expiration config)))
      as Hl by (rewrite Sc, Rc, lookup_insert_eq; reflexivity).
    split; [congruence|]. split; [congruence|]. split; [exact Hl|].
    split; [exact Sr|]. intros Hnow Hexp.
    apply (GetCached_never_populated _ _ _ Hl); [reflexivity| |exact Hexp].
    rewrite Sn, Rnow. exact Hnow.
  - rewrite schedule_resolve. intros [(spec & ->)|(d & -> & Hd)]; [eauto|].
    unfold schedule_with_ticker, NewTicker.
    destruct (Z.leb_spec d 0); [lia|]. cbn [bind]. eauto.
Qed.

(** X7. [SetupCachedEndpoint] with the initial fetch: when it returns without
    error it has made exactly one [c.Get] call, with the caller's context;
    the entry carries the destination and the clock reading taken when the
    refresh was stored, which is later than the call by the round trip and
    not later than the return. [GetCached] then returns the destination, with
    no error at every clock reading within the window of that stamp and with
    the expired error at every reading past it. *)
Theorem setup_with_initial_fetch ctx config result w w' :
  CacheConfig.SkipInitialFetch config = false ->
  SetupCachedEndpoint env ctx config result w = Return None w' ->
  let path := CacheConfig.Path config in
  gets w' = gets w ++ [(ctx, path)]
  /\ cache (client w') !! path
     = Some (CacheEntry.mk result (refresh_stamp env w) (CacheConfig.Expiration config))
  /\ now w <= refresh_stamp env w <= now w'
  /\ now w' = refresh_end env w
  /\ (forall t,
        time.Since t (refresh_stamp env w) <= CacheConfig.Expiration config ->
        GetCached path (with_now t w') = (result, None))
  /\ (forall t,
        CacheConfig.Expiration config < time.Since t (refresh_stamp env w) ->
        GetCached path (with_now t w') = (result, Some (cache_expired path))).
Proof.
  intros Hskip. cbv zeta. unfold SetupCachedEndpoint.
  pose proof (register_refresh_stamp config result w) as [Hst Hen].
  pose proof (register_spec config result w) as R. cbv zeta in R.
  destruct (register config result w) as [stopChan w1]. cbn [fst snd] in R, Hst, Hen.
  destruct R as (_ & Rc & _ & _ & _ & _ & _ & _ & Rh & Rnow & Rgets & _).
  rewrite Hskip.
  pose proof (updateCache_frame ctx (CacheConfig.Path config) result w1) as F.
  cbv zeta in F.
  destruct (updateCache env ctx (CacheConfig.Path config) result w1)
    as [[e0|] w2] eqn:Hu; [discriminate|]. cbn [snd] in F.
  destruct F as (Fg & _).
  intros H. destruct (schedule_frame _ _ _ _ _ H) as (Sc & Sh & Sg & Sn & _).
  assert (cache (client w1) !! CacheConfig.Path config
          = Some (CacheEntry.mk result time.zero (CacheConfig.Expiration config)))
    as Hl1 by (rewrite Rc; apply lookup_insert_eq).
  destruct (refreshed_entry _ _ _ _ _ _ Hu Hl1) as (Hl & Hn & _).
  rewrite Hst in Hl. rewrite Hen in Hn. cbn [CacheEntry.Expiration] in Hl.
  rewrite <- Sc in Hl. rewrite <- Sn in Hn.
  split; [congruence|]. split; [exact Hl|].
  split; [rewrite Hn; unfold refresh_end, refresh_stamp; lia|].
  split; [exact Hn|]. split.
  - intros t Ht.
    exact (GetCached_fresh (CacheConfig.Path config) (with_now t w') _ Hl Ht).
  - intros t Ht.
    exact (GetCached_stale (CacheConfig.Path config) (with_now t w') _ Hl Ht).
Qed.

End Properties.

(** * The claims at concrete inputs *)

(** C1 as stated fails. Two callers of [GetCachedOrFetch] on a registered,
    never-populated key with a one-minute window, interleaved step by step:
    both read the entry before either refresh is stored, both call [c.Get],
    and both return without error. Two fetches, not at most one. *)
Lemma two_callers_fetch_twice :
  let rs := [Demo.ok "[1,2]"; Demo.ok "[3,4]"] in
  let final := pool_run (Demo.backend rs) "/test"
                 [0; 1; 0; 1; 0; 1; 0; 1; 0; 1]%nat
                 (callers [Caller 1; Caller 2], Demo.unpopulated) in
  cache (client Demo.unpopulated) !! "/test"
    = Some (CacheEntry.mk Demo.data time.zero time.Minute)
  /\ gets Demo.unpopulated = []
  /\ fst final = [(Caller 1, Finished Demo.data None);
                  (Caller 2, Finished Demo.data None)]
  /\ gets (snd final) = [(Caller 1, "/test"); (Caller 2, "/test")].
Proof. vm_compute. auto. Qed.

(** The amended C1 on the same key: three calls, a millisecond apart, cause
    one fetch, and a call two minutes later fetches again. *)
Lemma callers_in_sequence_fetch_once :
  let env := Demo.backend [Demo.ok "[1,2]"] in
  let calls := [(1000000%N, Caller 2); (1000000%N, Caller 3)] in
  let w1 := snd (updateCache env (Caller 1) "/test" Demo.data Demo.unpopulated) in
  let w2 := elapse (waited calls) w1 in
  (in_sequence env ((0%N, Caller 1) :: calls) "/test" Demo.unpopulated
   = Return (replicate 3 (Demo.data, None)) w2
   /\ gets w2 = [(Caller 1, "/test")])
  /\ exists r w',
       GetCachedOrFetch env (Caller 4) "/test" (elapse 120000000000 w2) = Return r w'
       /\ gets w' = gets w2 ++ [(Caller 4, "/test")].
Proof.
  cbv zeta. split.
  - refine (proj1 (proj2 (callers_fetch_at_most_once_each
                            (Demo.backend [Demo.ok "[1,2]"])))
              0%N (Caller 1) [(1000000%N, Caller 2); (1000000%N, Caller 3)]
              "/test" Demo.unpopulated
              (CacheEntry.mk Demo.data time.zero time.Minute) _ _ _ _ _ _);
      vm_compute; solve [reflexivity | discriminate].
  - refine (proj2 (proj2 (callers_fetch_at_most_once_each
                            (Demo.backend [Demo.ok "[1,2]"])))
              120000000000%N (Caller 4) "/test" _
              (CacheEntry.mk Demo.data (Demo.t0 + 20 * time.Millisecond) time.Minute)
              _ _);
      vm_compute; reflexivity.
Defined.

(** With a window of zero the same calls fetch every time: the entry is
    stamped before the refresh returns, and is older than its window when
    the next call reads the clock. *)
Lemma zero_window_callers_fetch_each_time :
  let rs := [Demo.ok "[1,2]"; Demo.ok "[3,4]"] in
  let w := Demo.setup [] "* * * * *" 0 true Demo.boot in
  option_map gets
    (world_of (in_sequence (Demo.backend rs) [(0%N, Caller 1); (0%N, Caller 2)]
                 "/test" w))
  = Some [(Caller 1, "/test"); (Caller 2, "/test")].
Proof. vm_compute. reflexivity. Qed.

(** The defect of C2 step by step. First: a refresh whose body [[7,true]] is
    well-formed but does not fit the [[2]int] destination fails with a decode
    error and leaves the client untouched, yet the payload behind the entry
    has changed from (1, 2) to (7, 2). Second: in a successful refresh of the
    expired entry the new payload (3, 4) is in place once the caller has
    decoded and stands before [Lock], while the entry still carries its old
    [UpdatedAt]: the payload and the stamp are not written together. *)
Lemma failed_decode_changes_payload :
  let w1 := Demo.populated [Demo.ok "[1,2]"; Demo.ok "[7,true]"] in
  let r := updateCache (Demo.backend [Demo.ok "[1,2]"; Demo.ok "[7,true]"])
             updateCtx "/test" Demo.data w1 in
  let w1' := with_now (now w1 + 2 * time.Minute)
               (Demo.populated [Demo.ok "[1,2]"; Demo.ok "[3,4]"]) in
  let mid := Nat.iter 3 (Demo.step [Demo.ok "[1,2]"; Demo.ok "[3,4]"] (Caller 1))
               (AtEntry, w1') in
  (option_map kind (fst r) = Some DecodeError
   /\ client (snd r) = client w1
   /\ payload "/test" w1 = Some (1, 2)
   /\ payload "/test" (snd r) = Some (7, 2))
  /\ (fst mid = AtStore Demo.data
      /\ payload "/test" w1' = Some (1, 2)
      /\ payload "/test" (snd mid) = Some (3, 4)
      /\ cache (client (snd mid)) !! "/test"
         = Some (CacheEntry.mk Demo.data (Demo.t0 + 20 * time.Millisecond) time.Minute)
      /\ snd (GetCached "/test" (snd mid)) = Some (cache_expired "/test")).
Proof. vm_compute. auto 10. Qed.

(** C2 at its failing input: the populated key is refreshed by its scheduled
    task and the server answers [[7,true]]. *)
Lemma wrong_shape_refresh_changes_value :
  let rs := [Demo.ok "[1,2]"; Demo.ok "[7,true]"] in
  let w := Demo.populated rs in
  let entry := CacheEntry.mk Demo.data (Demo.t0 + 20 * time.Millisecond) time.Minute in
  let err := failed_to_unmarshal
               (ext "json: cannot unmarshal bool into Go value of type int") in
  payload "/test" w = Some (1, 2)
  /\ exists w',
       updateCache (Demo.backend rs) updateCtx "/test" Demo.data w = (Some err, w')
       /\ kind err = DecodeError
       /\ cache (client w') !! "/test" = Some entry
       /\ payload "/test" w' = Some (7, 2)
       /\ updateFunc (Demo.backend rs) (mkClosure "/test" Demo.data 0%nat) w
          = with_stdout (stdout w ++ [("/test", err)]) w'.
Proof.
  cbv zeta.
  destruct (failed_decode_writes_destination
              (Demo.backend [Demo.ok "[1,2]"; Demo.ok "[7,true]"]) updateCtx "/test"
              1%positive (Demo.populated [Demo.ok "[1,2]"; Demo.ok "[7,true]"])
              (CacheEntry.mk Demo.data (Demo.t0 + 20 * time.Millisecond) time.Minute)
              "[7,true]" (1, 2) (7, 2))
    as (H0 & H1 & _); [vm_compute; reflexivity ..|].
  split; [exact H0|].
  destruct (H1 (ext "json: cannot unmarshal bool into Go value of type int"))
    as (w' & Hu & Hk & _ & He & _ & Hp & Hf); [vm_compute; reflexivity ..|].
  exists w'. split; [exact Hu|]. split; [exact Hk|]. split; [exact He|].
  split; [exact Hp|]. apply Hf; [reflexivity|vm_compute; reflexivity].
Defined.

(** C3 at its failing input: registered with [SkipInitialFetch] and the
    largest window, never fetched, and [GetCached] reports no error. *)
Lemma never_populated_max_window_reads_fresh :
  let w := Demo.setup [] "* * * * *" time.maxDuration true Demo.boot in
  GetCached "/test" w = (Demo.data, None)
  /\ needsFetch (CacheEntry.mk Demo.data time.zero time.maxDuration) w = true.
Proof.
  cbv zeta.
  apply (GetCached_never_populated_max_window "/test"
           (Demo.setup [] "* * * * *" time.maxDuration true Demo.boot)
           (CacheEntry.mk Demo.data time.zero time.maxDuration));
    vm_compute; reflexivity.
Defined.

(** C4 on every kind of key and of response: an unknown key; a
    never-populated key whose refresh is refused, answered 500, answered
    with an unreadable body, with a truncated body, with a body of the wrong
    shape, and with a body that decodes; a key within its window. *)
Lemma read_or_fetch_every_case :
  let w := Demo.unpopulated in
  let call rs := GetCachedOrFetch (Demo.backend rs) (Caller 1) "/test" w in
  let w1 rs := answered (Demo.backend rs) (Caller 1) "/test" w in
  let fails rs err k w' :=
    call rs = Return (Nil, Some (failed_to_fetch_fresh err)) w'
    /\ kind (failed_to_fetch_fresh err) = k
    /\ client w' = client w
    /\ gets w' = gets w ++ [(Caller 1, "/test")] in
  let refused := [Demo.refused] in
  let busy := [Ok (mkResponse 500 (Ok "busy"))] in
  let cut := [Ok (mkResponse StatusOK (Err (ext "unexpected EOF")))] in
  let truncated := [Demo.ok "[1,2"] in
  let misshapen := [Demo.ok "[7,true]"] in
  let fine := [Demo.ok "[1,2]"] in
  GetCachedOrFetch (Demo.backend []) (Caller 1) "/none" w
    = Return (Nil, Some (no_cache_entry "/none")) w
  /\ fails refused (failed_to_fetch_data (ext "connection refused")) FetchError
       (w1 refused)
  /\ fails busy (unexpected_status_code 500) FetchError (w1 busy)
  /\ fails cut (failed_to_read_body (ext "unexpected EOF")) FetchError (w1 cut)
  /\ fails truncated (failed_to_unmarshal (ext "unexpected end of JSON input"))
       DecodeError (with_heap (heap w) (w1 truncated))
  /\ fails misshapen
       (failed_to_unmarshal
          (ext "json: cannot unmarshal bool into Go value of type int"))
       DecodeError (with_heap {[ 1%positive := (7, 0) ]} (w1 misshapen))
  /\ (exists w',
        call fine = Return (Demo.data, None) w'
        /\ gets w' = gets w ++ [(Caller 1, "/test")]
        /\ heap w' = {[ 1%positive := (1, 2) ]}
        /\ cache (client w') !! "/test"
           = Some (CacheEntry.mk Demo.data
                     (refresh_stamp (Demo.backend fine) w) time.Minute)
        /\ now w' = refresh_end (Demo.backend fine) w)
  /\ GetCachedOrFetch (Demo.backend []) (Caller 1) "/test"
       (Demo.populated [Demo.ok "[1,2]"])
     = Return (Demo.data, None) (Demo.populated [Demo.ok "[1,2]"]).
Proof.
  cbv zeta.
  assert (cache (client Demo.unpopulated) !! "/test"
          = Some (CacheEntry.mk Demo.data time.zero time.Minute)) as He
    by (vm_compute; reflexivity).
  assert (CacheEntry.UpdatedAt (CacheEntry.mk Demo.data time.zero time.Minute)
          = time.zero
          \/ CacheEntry.Expiration (CacheEntry.mk Demo.data time.zero time.Minute)
             < time.Since (now Demo.unpopulated)
                 (CacheEntry.UpdatedAt (CacheEntry.mk Demo.data time.zero time.Minute)))
    as Hstale by (left; reflexivity).
  pose proof (fun rs =>
                proj1 (proj2 (GetCachedOrFetch_spec (Demo.backend rs) (Caller 1)
                                "/test" Demo.unpopulated))
                  _ He Hstale) as S.
  cbv zeta in S.
  split.
  { apply (proj1 (GetCachedOrFetch_spec (Demo.backend []) (Caller 1) "/none"
                    Demo.unpopulated)).
    vm_compute. reflexivity. }
  split.
  { destruct (S [Demo.refused]) as (_ & C & _). apply C. reflexivity. }
  split.
  { destruct (S [Ok (mkResponse 500 (Ok "busy"))]) as (_ & _ & C & _).
    apply (C (mkResponse 500 (Ok "busy"))); [reflexivity|discriminate]. }
  split.
  { destruct (S [Ok (mkResponse StatusOK (Err (ext "unexpected EOF")))])
      as (_ & _ & _ & C & _).
    apply (C (mkResponse StatusOK (Err (ext "unexpected EOF")))); reflexivity. }
  split.
  { destruct (S [Demo.ok "[1,2"]) as (_ & _ & _ & _ & C & _).
    apply (C (mkResponse StatusOK (Ok "[1,2")) "[1,2"); vm_compute; reflexivity. }
  split.
  { destruct (S [Demo.ok "[7,true]"]) as (_ & _ & _ & _ & C & _).
    apply (C (mkResponse StatusOK (Ok "[7,true]")) "[7,true]"); vm_compute; reflexivity. }
  split.
  { destruct (S [Demo.ok "[1,2]"]) as (_ & _ & _ & _ & _ & C).
    apply (C (mkResponse StatusOK (Ok "[1,2]")) "[1,2]"); vm_compute; reflexivity. }
  apply (proj2 (proj2 (GetCachedOrFetch_spec (Demo.backend []) (Caller 1) "/test"
                         (Demo.populated [Demo.ok "[1,2]"])))
           (CacheEntry.mk Demo.data (Demo.t0 + 20 * time.Millisecond) time.Minute)).
  - vm_compute. reflexivity.
  - vm_compute. discriminate.
  - vm_compute. discriminate.
Defined.

(** C5 at its failing input. *)
Lemma skip_with_max_window_reads_fresh :
  exists w',
    SetupCachedEndpoint (Demo.backend []) (Caller 0)
      (Demo.config "* * * * *" time.maxDuration true) Demo.data Demo.boot
    = Return None w'
    /\ gets w' = gets Demo.boot
    /\ cache (client w') !! "/test"
       = Some (CacheEntry.mk Demo.data time.zero time.maxDuration)
    /\ GetCached "/test" w' = (Demo.data, None).
Proof.
  apply (skip_initial_fetch_max_window (Demo.backend []) (Caller 0)
           (Demo.config "* * * * *" time.maxDuration true) Demo.data Demo.boot);
    reflexivity.
Defined.

(** The truncated body [[1,2] at the initial fetch: nothing was written. *)
Lemma truncated_initial_payload :
  exists w',
    SetupCachedEndpoint (Demo.backend [Demo.ok "[1,2"]) (Caller 0)
      (Demo.config "* * * * *" time.Minute false) Demo.data Demo.boot
    = Return (Some (initial_update_failed
                (failed_to_unmarshal (ext "unexpected end of JSON input")))) w'
    /\ kind (initial_update_failed
               (failed_to_unmarshal (ext "unexpected end of JSON input")))
       = DecodeError
    /\ cache (client w') !! "/test"
       = Some (CacheEntry.mk Demo.data time.zero time.Minute)
    /\ needsFetch (CacheEntry.mk Demo.data time.zero time.Minute) w' = true
    /\ heap w' = heap Demo.boot
    /\ goroutines w' = goroutines Demo.boot
    /\ cron (client w') = cron (client Demo.boot)
    /\ (time.unixEpoch <= now Demo.boot ->
        time.Minute < time.maxDuration ->
        GetCached "/test" w' = (Demo.data, Some (cache_expired "/test"))).
Proof.
  apply (malformed_initial_payload (Demo.backend [Demo.ok "[1,2"]) (Caller 0)
           (Demo.config "* * * * *" time.Minute false) Demo.data Demo.boot "[1,2");
    reflexivity.
Defined.

(** C6 at its failing input: the initial fetch answers [[7,true]] for a
    [[2]int] destination that held (0, 0). Register fails with the decode
    error, the entry keeps its zero [UpdatedAt], and [GetCached] hands out
    the destination, which now holds (7, 0). *)
Lemma wrong_shape_payload_is_handed_out :
  let err := initial_update_failed
               (failed_to_unmarshal
                  (ext "json: cannot unmarshal bool into Go value of type int")) in
  payload "/test" Demo.boot = None
  /\ heap Demo.boot !! 1%positive = Some (0, 0)
  /\ exists w',
       SetupCachedEndpoint (Demo.backend [Demo.ok "[7,true]"]) (Caller 0)
         (Demo.config "* * * * *" time.Minute false) Demo.data Demo.boot
       = Return (Some err) w'
       /\ kind err = DecodeError
       /\ cache (client w') !! "/test"
          = Some (CacheEntry.mk Demo.data time.zero time.Minute)
       /\ fst (GetCached "/test" w') = Demo.data
       /\ payload "/test" w' = Some (7, 0)
       /\ heap w' = <[1%positive := (7, 0)]> (heap Demo.boot).
Proof.
  cbv zeta. split; [reflexivity|]. split; [reflexivity|].
  apply (wrong_shape_initial_payload (Demo.backend [Demo.ok "[7,true]"]) (Caller 0)
           (Demo.config "* * * * *" time.Minute false) 1%positive Demo.boot
           "[7,true]" (0, 0) (7, 0)
           (ext "json: cannot unmarshal bool into Go value of type int"));
    reflexivity.
Defined.

(** C7 at its failing input: [@every 0s]. *)
Lemma every_zero_seconds_panics :
  SetupCachedEndpoint (Demo.backend []) (Caller 0)
    (Demo.config "@every 0s" time.Minute true) Demo.data Demo.boot
  = Panic "non-positive interval for NewTicker".
Proof.
  apply (every_nonpositive_panics (Demo.backend []) (Caller 0)
           (Demo.config "@every 0s" time.Minute true) Demo.data Demo.boot 0);
    [reflexivity | reflexivity | reflexivity | lia].
Defined.


(** C8, at the input where the code departs from it. The key "/test" is
    registered twice with [@every 100ms]; the second registration overwrites
    the stop channel and the ticker of the first in the maps without
    stopping them. [StopCacheUpdates] then closes channel 1 only: goroutine
    0 is alive, its ticker runs, its stop channel 0 is open, and its next
    tick calls [c.Get] for the key. *)
Lemma stop_updates_misses_earlier_registration :
  let rs := [Demo.ok "[1,2]"] in
  let w := Demo.registered_twice rs in
  let w' := Demo.after (StopCacheUpdates "/test" w) w in
  StopCacheUpdates "/test" w = Return tt w'
  /\ stopChans (client w) !! "/test" = Some 1%nat
  /\ stopChans (client w') !! "/test" = None
  /\ chans w' = [false; true]
  /\ goroutines w' !! 0%nat
     = Some (mkGoroutine 0%nat (mkClosure "/test" Demo.data 0%nat) true)
  /\ tickers w' !! 0%nat = Some (mkTicker (100 * time.Millisecond) false)
  /\ gets w' = []
  /\ option_map gets
       (bg_run (Demo.backend rs) [Sleep (100 * time.Millisecond); Tick 0%nat] w')
     = Some [(updateCtx, "/test")].
Proof. vm_compute. auto 10. Qed.

(** C9, at the input where the code departs from it. After the same double
    registration [Stop] stops ticker 1, closes channel 1 and stops the cron
    scheduler; ticker 0 and channel 0, no longer in the maps, are left as
    they were, and goroutine 0 goes on refreshing after [Stop] returned. *)
Lemma stop_misses_earlier_registration :
  let rs := [Demo.ok "[1,2]"] in
  let w := Demo.registered_twice rs in
  let w' := Demo.after (Stop w) w in
  Stop w = Return tt w'
  /\ stopChans (client w') = ∅
  /\ chans w' = [false; true]
  /\ tickers w' = [mkTicker (100 * time.Millisecond) false;
                   mkTicker (100 * time.Millisecond) true]
  /\ Cron.running (cron (client w')) = false
  /\ goroutines w' !! 0%nat
     = Some (mkGoroutine 0%nat (mkClosure "/test" Demo.data 0%nat) true)
  /\ gets w' = []
  /\ option_map gets
       (bg_run (Demo.backend rs) [Sleep (100 * time.Millisecond); Tick 0%nat] w')
     = Some [(updateCtx, "/test")].
Proof. vm_compute. auto 10. Qed.

(** A key registered once, then stopped with no refresh under way: the
    ticks that follow fetch nothing. *)
Lemma stopped_once_registered_key :
  let rs := [Demo.ok "[1,2]"] in
  let w := Demo.registered_once rs in
  under_way (only "/test") w = []
  /\ exists w',
       StopCacheUpdates "/test" w = Return tt w'
       /\ StopCacheUpdates "/test" w' = Return tt w'
       /\ cache (client w') = cache (client w) /\ heap w' = heap w
       /\ inflight w' = inflight w
       /\ forall es w'',
            bg_run (Demo.backend rs) es w' = Some w'' ->
            (forall i f s', inflight w'' !! i = Some (f, s') -> uf_path f = "/test" ->
                            exists s, inflight w !! i = Some (f, s))
            /\ (length (gets_of "/test" (gets w''))
                <= length (gets_of "/test" (gets w)) + owed (only "/test") w)%nat
            /\ (under_way (only "/test") w = [] ->
                gets_of "/test" (gets w'') = gets_of "/test" (gets w)
                /\ cache (client w'') !! "/test" = cache (client w) !! "/test"
                /\ GetCached "/test" w'' = GetCached "/test" (with_now (now w'') w)).
Proof.
  cbv zeta. split; [reflexivity|].
  destruct (history_tracked (Demo.backend [Demo.ok "[1,2]"])
              [inl Demo.register_once] Demo.boot
              (Demo.registered_once [Demo.ok "[1,2]"])
              (proj1 (NewWorld_ok _ _)) (proj2 (NewWorld_ok _ _)))
    as [Hok Htr].
  - split; [|exact I]. intros f [].
  - reflexivity.
  - exact (stopped_key_stays_quiet (Demo.backend [Demo.ok "[1,2]"]) "/test"
             (Demo.registered_once [Demo.ok "[1,2]"]) Hok (Htr "/test")).
Defined.

(** What a stop cannot undo. The task of the key has passed its stop test
    when [StopCacheUpdates], or [Stop], is called and returns; the refresh
    then calls [c.Get], decodes into the destination and stamps the entry.
    One call for the key after the stop, which is what that refresh still
    owed. *)
Lemma refresh_under_way_outlives_stop :
  let rs := [Demo.ok "[1,2]"] in
  let env := Demo.backend rs in
  let w := Demo.after_events rs [Begin 0%nat] (Demo.registered_once rs) in
  let finish := [Advance 0%nat; Advance 0%nat; Advance 0%nat] in
  let w1 := Demo.after (StopCacheUpdates "/test" w) w in
  let w2 := Demo.after (Stop w) w in
  owed (only "/test") w = 1%nat
  /\ gets w = [] /\ payload "/test" w = Some (0, 0)
  /\ StopCacheUpdates "/test" w = Return tt w1
  /\ Stop w = Return tt w2
  /\ option_map gets (bg_run env finish w1) = Some [(updateCtx, "/test")]
  /\ option_map (payload "/test") (bg_run env finish w1) = Some (Some (1, 2))
  /\ option_map gets (bg_run env finish w2) = Some [(updateCtx, "/test")]
  /\ option_map (payload "/test") (bg_run env finish w2) = Some (Some (1, 2))
  /\ bg_run env [Begin 0%nat] w1 = Some w1
  /\ bg_run env (finish ++ [Advance 0%nat]) w1 = None.
Proof. vm_compute. auto 12. Qed.

(** A key registered once, then [Stop] with no refresh under way: nothing
    runs in the background any more. *)
Lemma stop_after_one_registration :
  let rs := [Demo.ok "[1,2]"] in
  let w := Demo.registered_once rs in
  under_way any w = []
  /\ exists w',
       Stop w = Return tt w'
       /\ stopChans (client w') = ∅
       /\ Cron.running (cron (client w')) = false
       /\ (forall k tk t', ticker (client w) !! k = Some tk ->
                           tickers w' !! tk = Some t' -> stopped t' = true)
       /\ cache (client w') = cache (client w) /\ heap w' = heap w
       /\ inflight w' = inflight w
       /\ forall es w'',
            bg_run (Demo.backend rs) es w' = Some w'' ->
            (forall i f s', inflight w'' !! i = Some (f, s') ->
                            exists s, inflight w !! i = Some (f, s))
            /\ (length (gets w'') <= length (gets w) + owed any w)%nat
            /\ (under_way any w = [] ->
                gets w'' = gets w
                /\ cache (client w'') = cache (client w)
                /\ heap w'' = heap w
                /\ forall path,
                     GetCached path w'' = GetCached path (with_now (now w'') w)).
Proof.
  cbv zeta. split; [reflexivity|].
  destruct (history_tracked (Demo.backend [Demo.ok "[1,2]"])
              [inl Demo.register_once] Demo.boot
              (Demo.registered_once [Demo.ok "[1,2]"])
              (proj1 (NewWorld_ok _ _)) (proj2 (NewWorld_ok _ _)))
    as [Hok Htr].
  - split; [|exact I]. intros f [].
  - reflexivity.
  - exact (Stop_ends_background (Demo.backend [Demo.ok "[1,2]"])
             (Demo.registered_once [Demo.ok "[1,2]"]) Hok Htr).
Defined.

(** After a history of registering, ticking and stopping, stopping again is
    safe. *)
Lemma stopping_again_is_safe :
  let w' := Demo.evening [Demo.ok "[1,2]"] in
  stopChans_ok w'
  /\ (forall path, exists w'', StopCacheUpdates path w' = Return tt w'')
  /\ (exists w'', Stop w' = Return tt w'').
Proof.
  cbv zeta.
  apply (stop_never_panics (Demo.backend [Demo.ok "[1,2]"]) Demo.a_day Demo.boot
           (Demo.evening [Demo.ok "[1,2]"]) (proj1 (NewWorld_ok _ _))).
  vm_compute. reflexivity.
Defined.

(** Registered without an initial fetch and a one-minute window: no call was
    made and [GetCached] reports the entry expired. *)
Lemma skipped_fetch_reads_expired :
  (forall r w',
     SetupCachedEndpoint (Demo.backend []) (Caller 0)
       (Demo.config "* * * * *" time.Minute true) Demo.data Demo.boot = Return r w' ->
     gets w' = gets Demo.boot /\ heap w' = heap Demo.boot
     /\ cache (client w') !! "/test"
        = Some (CacheEntry.mk Demo.data time.zero time.Minute)
     /\ (r = None \/ exists e, r = Some e /\ kind e = ScheduleError)
     /\ (time.unixEpoch <= now Demo.boot ->
         time.Minute < time.maxDuration ->
         GetCached "/test" w' = (Demo.data, Some (cache_expired "/test"))))
  /\ ((exists spec, resolve (Demo.backend []) "* * * * *" = CronRules spec)
      \/ (exists d, resolve (Demo.backend []) "* * * * *" = FixedPeriod d /\ 0 < d) ->
      exists w',
        SetupCachedEndpoint (Demo.backend []) (Caller 0)
          (Demo.config "* * * * *" time.Minute true) Demo.data Demo.boot
        = Return None w').
Proof.
  exact (setup_skipping_initial_fetch (Demo.backend []) (Caller 0)
           (Demo.config "* * * * *" time.Minute true) Demo.data Demo.boot eq_refl).
Defined.

(** Registered with an initial fetch answering [[1,2]] after a round trip
    of 20ms: one call, the entry stamped when the response was stored, and
    [GetCached] returns the destination with no error for a minute from
    that stamp and with the expired error after it. *)
Lemma fetched_entry_reads_fresh :
  let rs := [Demo.ok "[1,2]"] in
  let env := Demo.backend rs in
  let w := Demo.boot in
  let w' := Demo.populated rs in
  refresh_stamp env w = Demo.t0 + 20 * time.Millisecond
  /\ GetCached "/test" w' = (Demo.data, None)
  /\ GetCached "/test" (with_now (now w' + 2 * time.Minute) w')
     = (Demo.data, Some (cache_expired "/test"))
  /\ gets w' = gets w ++ [(Caller 0, "/test")]
  /\ cache (client w') !! "/test"
     = Some (CacheEntry.mk Demo.data (refresh_stamp env w) time.Minute)
  /\ now w <= refresh_stamp env w <= now w'
  /\ now w' = refresh_end env w
  /\ (forall t,
        time.Since t (refresh_stamp env w) <= time.Minute ->
        GetCached "/test" (with_now t w') = (Demo.data, None))
  /\ (forall t,
        time.Minute < time.Since t (refresh_stamp env w) ->
        GetCached "/test" (with_now t w') = (Demo.data, Some (cache_expired "/test"))).
Proof.
  cbv zeta. split; [vm_compute; reflexivity|]. split; [vm_compute; reflexivity|].
  split; [vm_compute; reflexivity|].
  apply (setup_with_initial_fetch (Demo.backend [Demo.ok "[1,2]"]) (Caller 0)
           (Demo.config "* * * * *" time.Minute false) Demo.data Demo.boot
           (Demo.populated [Demo.ok "[1,2]"]) eq_refl).
  vm_compute. reflexivity.
Defined.

(** The same registration with a window of zero: the entry is stamped
    before [SetupCachedEndpoint] returns, and [GetCached] right after it
    reports the entry expired. *)
Lemma fetched_entry_zero_window_reads_expired :
  let rs := [Demo.ok "[1,2]"] in
  let w' := Demo.setup rs "* * * * *" 0 false Demo.boot in
  gets w' = [(Caller 0, "/test")]
  /\ payload "/test" w' = Some (1, 2)
  /\ GetCached "/test" w' = (Demo.data, Some (cache_expired "/test")).
Proof. vm_compute. auto. Qed.

(** * More of the cached client *)

Section History.

Context {Val : Type} (env : Backend Val).

Implicit Types (w : World Val) (path : string) (ctx : Context).

(** ** What each call does to the store, the trace and the destinations *)

Lemma iface_cases (v : iface) (p : Ptr) : v = Ref p \/ v <> Ref p.
Proof.
  destruct v as [|q]; [right; discriminate|].
  destruct (decide (q = p)) as [->|H]; [left; reflexivity|right; congruence].
Qed.

Lemma updateCache_entries ctx path result w r w' :
  updateCache env ctx path result w = (r, w') ->
  now w <= now w'
  /\ gets w' = gets w ++ [(ctx, path)]
  /\ inflight w' = inflight w
  /\ forall k,
       cache (client w') !! k = cache (client w) !! k
       \/ (exists e t,
             k = path /\ r = None /\ cache (client w) !! k = Some e
             /\ now w <= t <= now w'
             /\ cache (client w') !! k
                = Some (CacheEntry.mk result t (CacheEntry.Expiration e))).
Proof.
  intros Hu. frame_of (updateCache_frame env ctx path result w) F.
  rewrite Hu in F. cbn [snd] in F.
  destruct F as (Fg & _ & _ & _ & _ & _ & _ & Fn & _ & Fi).
  assert (now w <= refresh_stamp env w) as Hst by (unfold refresh_stamp; lia).
  split; [lia|]. split; [exact Fg|]. split; [exact Fi|].
  intros k. destruct r as [err|].
  - left. destruct (updateCache_failed env _ _ _ _ _ _ Hu) as [-> _]. reflexivity.
  - rewrite (updateCache_succeeded env _ _ _ _ _ Hu).
    destruct (decide (k = path)) as [->|Hne]; [|left; reflexivity].
    destruct (cache (client w) !! path) as [e|]; [|left; reflexivity].
    right. exists e, (refresh_stamp env w).
    split; [reflexivity|]. split; [reflexivity|]. split; [reflexivity|].
    split; [lia|reflexivity].
Qed.

(** A refresh writes to no object but its destination. *)
Lemma updateCache_heap ctx path result w r w' :
  updateCache env ctx path result w = (r, w') ->
  forall p, result <> Ref p -> heap w' !! p = heap w !! p.
Proof.
  intros Hu p Hp.
  pose proof (fun body => json_Unmarshal_elsewhere env body result (heap w) p Hp) as Hj.
  revert Hu. unfold updateCache.
  destruct (Get env (length (gets w)) ctx path) as [resp|e0];
    [|intros [= _ <-]; reflexivity].
  destruct (negb (StatusCode resp =? StatusOK)); [intros [= _ <-]; reflexivity|].
  destruct (Body resp) as [body|e0]; [|intros [= _ <-]; reflexivity].
  specialize (Hj body). revert Hj.
  change (heap (answered env ctx path w)) with (heap w).
  destruct (json_Unmarshal env body result (heap w)) as [h [e|]]; cbn [fst].
  - intros Hj [= _ <-]. exact Hj.
  - intros Hj [= _ <-]. cbn [heap elapse with_now].
    match goal with
    | |- context [store_entry ?p ?r ?w0] => frame_of (store_entry_frame p r w0) F
    end.
    destruct F as (_ & _ & _ & _ & _ & _ & Fh & _). rewrite Fh. exact Hj.
Qed.

Lemma schedule_inflight config (cmd : closure) w r w' :
  schedule env config cmd w = Return r w' -> inflight w' = inflight w.
Proof.
  rewrite schedule_resolve.
  destruct (resolve env (CacheConfig.CronSpec config)) as [d|spec|e].
  - unfold schedule_with_ticker, NewTicker. destruct (d <=? 0); [discriminate|].
    cbn [bind]. intros [= <- <-]. reflexivity.
  - intros [= <- <-]. reflexivity.
  - intros [= <- <-]. reflexivity.
Qed.

Lemma SetupCachedEndpoint_store ctx config result w r w' :
  SetupCachedEndpoint env ctx config result w = Return r w' ->
  now w <= now w'
  /\ (forall k, k <> CacheConfig.Path config ->
                cache (client w') !! k = cache (client w) !! k)
  /\ (exists e',
        cache (client w') !! CacheConfig.Path config = Some e'
        /\ CacheEntry.Data e' = result
        /\ CacheEntry.Expiration e' = CacheConfig.Expiration config
        /\ (CacheEntry.UpdatedAt e' = time.zero
            \/ now w <= CacheEntry.UpdatedAt e' <= now w'))
  /\ (gets w' = gets w \/ gets w' = gets w ++ [(ctx, CacheConfig.Path config)])
  /\ (forall p, result <> Ref p -> heap w' !! p = heap w !! p)
  /\ inflight w' = inflight w.
Proof.
  unfold SetupCachedEndpoint.
  frame_of (register_spec config result w) R.
  destruct (register config result w) as [stopChan w0]. cbn [fst snd] in R.
  destruct R as (_ & Rc & _ & _ & _ & _ & _ & _ & Rh & Rnow & Rg & _ & Ri).
  assert (forall k, k <> CacheConfig.Path config ->
                    cache (client w0) !! k = cache (client w) !! k) as Hother0
    by (intros k Hk; rewrite Rc, lookup_insert_ne by congruence; reflexivity).
  assert (cache (client w0) !! CacheConfig.Path config
          = Some (CacheEntry.mk result time.zero (CacheConfig.Expiration config)))
    as Hl0 by (rewrite Rc, lookup_insert_eq; reflexivity).
  destruct (CacheConfig.SkipInitialFetch config).
  - intros H. destruct (schedule_frame env _ _ _ _ _ H) as (Sc & Sh & Sg & Sn & _).
    pose proof (schedule_inflight _ _ _ _ _ H) as Si.
    rewrite Sc, Sh, Sg, Sn, Si. split; [lia|]. split; [exact Hother0|].
    split; [eexists; split; [exact Hl0|]; simpl; auto|].
    split; [left; exact Rg|]. split; [|exact Ri]. intros p _. rewrite Rh. reflexivity.
  - destruct (updateCache env ctx (CacheConfig.Path config) result w0)
      as [r2 w2] eqn:Hu.
    destruct (updateCache_entries _ _ _ _ _ _ Hu) as (Hn & Hg & Hi & He).
    pose proof (updateCache_heap _ _ _ _ _ _ Hu) as Hh.
    assert (cache (client w') = cache (client w2) /\ heap w' = heap w2
            /\ gets w' = gets w2 /\ now w' = now w2 /\ inflight w' = inflight w2 ->
            now w <= now w'
            /\ (forall k, k <> CacheConfig.Path config ->
                          cache (client w') !! k = cache (client w) !! k)
            /\ (exists e',
                  cache (client w') !! CacheConfig.Path config = Some e'
                  /\ CacheEntry.Data e' = result
                  /\ CacheEntry.Expiration e' = CacheConfig.Expiration config
                  /\ (CacheEntry.UpdatedAt e' = time.zero
                      \/ now w <= CacheEntry.UpdatedAt e' <= now w'))
            /\ (gets w' = gets w \/ gets w' = gets w ++ [(ctx, CacheConfig.Path config)])
            /\ (forall p, result <> Ref p -> heap w' !! p = heap w !! p)
            /\ inflight w' = inflight w) as Hfin.
    { intros (Sc & Sh & Sg & Sn & Si). rewrite Sc, Sh, Sg, Sn, Si.
      split; [lia|]. split.
      { intros k Hk. destruct (He k) as [->|(e & t & -> & _)]; [auto|congruence]. }
      split.
      { destruct (He (CacheConfig.Path config))
          as [Hs|(e & t & _ & _ & He0 & Ht & He1)].
        - eexists. split; [rewrite Hs; exact Hl0|]. simpl. auto.
        - rewrite Hl0 in He0. injection He0 as <-. eexists.
          split; [exact He1|]. simpl. split; [reflexivity|]. split; [reflexivity|].
          right. lia. }
      split; [right; rewrite Hg, Rg; reflexivity|].
      split; [|congruence].
      intros p Hp. rewrite (Hh p Hp), Rh. reflexivity. }
    destruct r2 as [e0|].
    + intros [= _ <-]. apply Hfin. auto.
    + intros H. destruct (schedule_frame env _ _ _ _ _ H) as (Sc & Sh & Sg & Sn & _).
      pose proof (schedule_inflight _ _ _ _ _ H) as Si.
      apply Hfin. auto.
Qed.

Lemma GetCachedOrFetch_store ctx path w r w' :
  GetCachedOrFetch env ctx path w = Return r w' ->
  now w <= now w'
  /\ inflight w' = inflight w
  /\ (w' = w
      \/ exists e,
           cache (client w) !! path = Some e
           /\ gets w' = gets w ++ [(ctx, path)]
           /\ (forall p, CacheEntry.Data e <> Ref p -> heap w' !! p = heap w !! p)
           /\ forall k,
                cache (client w') !! k = cache (client w) !! k
                \/ (k = path
                    /\ exists t,
                         now w <= t <= now w'
                         /\ cache (client w') !! k
                            = Some (CacheEntry.mk (CacheEntry.Data e) t
                                                  (CacheEntry.Expiration e)))).
Proof.
  unfold GetCachedOrFetch.
  destruct (cache (client w) !! path) as [entry|] eqn:He;
    [|intros [= _ <-]; split; [lia|auto]].
  destruct (needsFetch entry w); [|intros [= _ <-]; split; [lia|auto]].
  destruct (updateCache env ctx path (CacheEntry.Data entry) w) as [r2 w2] eqn:Hu.
  destruct (updateCache_entries _ _ _ _ _ _ Hu) as (Hn & Hg & Hi & Hk).
  pose proof (updateCache_heap _ _ _ _ _ _ Hu) as Hh.
  intros H. assert (w2 = w') as ->.
  { destruct r2; [injection H as _ <-; reflexivity|].
    destruct (cache (client w2) !! path); [injection H as _ <-; reflexivity|discriminate]. }
  split; [exact Hn|]. split; [exact Hi|]. right. exists entry.
  split; [reflexivity|]. split; [exact Hg|]. split; [exact Hh|]. intros k.
  destruct (Hk k) as [Hs|(e & t & -> & _ & He0 & Ht & He1)]; [left; exact Hs|].
  right. split; [reflexivity|]. rewrite He in He0. injection He0 as <-.
  exists t. auto.
Qed.

Lemma updateFunc_store (f : closure) w :
  let w' := updateFunc env f w in
  now w <= now w'
  /\ inflight w' = inflight w
  /\ ((cache (client w') = cache (client w) /\ gets w' = gets w /\ heap w' = heap w)
      \/ (is_closed (uf_stopChan f) w = false
          /\ gets w' = gets w ++ [(updateCtx, uf_path f)]
          /\ (forall p, uf_result f <> Ref p -> heap w' !! p = heap w !! p)
          /\ forall k,
               cache (client w') !! k = cache (client w) !! k
               \/ exists e t,
                    k = uf_path f /\ cache (client w) !! k = Some e
                    /\ now w <= t <= now w'
                    /\ cache (client w') !! k
                       = Some (CacheEntry.mk (uf_result f) t
                                             (CacheEntry.Expiration e)))).
Proof.
  cbv zeta. unfold updateFunc.
  destruct (is_closed (uf_stopChan f) w) eqn:Hc; [split; [lia|auto]|].
  destruct (updateCache env updateCtx (uf_path f) (uf_result f) w) as [r2 w2] eqn:Hu.
  destruct (updateCache_entries _ _ _ _ _ _ Hu) as (Hn & Hg & Hi & Hk).
  pose proof (updateCache_heap _ _ _ _ _ _ Hu) as Hh.
  assert (forall w3, now w3 = now w2 -> gets w3 = gets w2 -> heap w3 = heap w2 ->
                     cache (client w3) = cache (client w2) ->
                     inflight w3 = inflight w2 ->
            now w <= now w3
            /\ inflight w3 = inflight w
            /\ ((cache (client w3) = cache (client w) /\ gets w3 = gets w
                 /\ heap w3 = heap w)
                \/ (false = false
                    /\ gets w3 = gets w ++ [(updateCtx, uf_path f)]
                    /\ (forall p, uf_result f <> Ref p -> heap w3 !! p = heap w !! p)
                    /\ forall k,
                         cache (client w3) !! k = cache (client w) !! k
                         \/ exists e t,
                              k = uf_path f /\ cache (client w) !! k = Some e
                              /\ now w <= t <= now w3
                              /\ cache (client w3) !! k
                                 = Some (CacheEntry.mk (uf_result f) t
                                                       (CacheEntry.Expiration e)))))
    as Hfin.
  { intros w3 -> -> -> -> ->. split; [exact Hn|]. split; [exact Hi|].
    right. split; [reflexivity|].
    split; [exact Hg|]. split; [exact Hh|]. intros k.
    destruct (Hk k) as [Hs|(e & t & -> & _ & He0 & Ht & He1)]; [left; exact Hs|].
    right. eauto 6. }
  destruct r2; apply Hfin; reflexivity.
Qed.

Lemma StopCacheUpdates_frame path w r w' :
  StopCacheUpdates path w = Return r w' -> stop_frame w w'.
Proof.
  unfold StopCacheUpdates, close.
  destruct (stopChans (client w) !! path) as [ch|];
    [|intros [= _ <-]; apply stop_frame_refl].
  destruct (chans w !! ch) as [[|]|]; cbn [bind]; try discriminate.
  intros [= _ <-]. unfold stop_frame. simpl. tauto.
Qed.

Lemma range_StopCacheUpdates_frame (l : list string) w r w' :
  range StopCacheUpdates l w = Return r w' -> stop_frame w w'.
Proof.
  revert w. induction l as [|p l IH]; intros w; cbn [range].
  - intros [= _ <-]. apply stop_frame_refl.
  - destruct (StopCacheUpdates p w) as [u w1|] eqn:H; cbn [bind]; [|discriminate].
    intros Hr. exact (stop_frame_trans _ _ _ (StopCacheUpdates_frame _ _ _ _ H) (IH _ Hr)).
Qed.

(** Whenever [Stop] returns it has left the store, the destinations, the
    clock, the traces, the refreshes under way and the map of tickers as
    they were. *)
Lemma Stop_frame w r w' :
  Stop w = Return r w' ->
  cache (client w') = cache (client w) /\ ticker (client w') = ticker (client w)
  /\ Cron.entries (cron (client w')) = Cron.entries (cron (client w))
  /\ goroutines w' = goroutines w /\ heap w' = heap w /\ now w' = now w
  /\ gets w' = gets w /\ stdout w' = stdout w /\ inflight w' = inflight w.
Proof.
  unfold Stop.
  frame_of (Ticker_Stop_fold (map_to_list (ticker (client w))) w) T.
  set (w1 := foldl (fun w kv => Ticker_Stop (snd kv) w) w
                   (map_to_list (ticker (client w)))) in *.
  destruct T as (T1 & T2 & T3 & T4 & T5 & T6 & T7 & T8 & _).
  destruct (range StopCacheUpdates (map_to_list (stopChans (client w1))).*1 w1)
    as [u w2|] eqn:Hr; cbn [bind]; [|discriminate].
  intros [= _ <-].
  destruct (range_StopCacheUpdates_frame _ _ _ _ Hr)
    as (F1 & F2 & F3 & F4 & F5 & F6 & F7 & F8 & F9 & F10).
  simpl. rewrite F1, F2, F3, F5, F6, F7, F8, F9, F10, T1, T3, T4, T5, T6, T7, T8.
  tauto.
Qed.

(** One call or event: the clock does not go back; every key changes as
    [entry_change] says; every new request and every write has its cause;
    only a registration adds a task, and only a task joins the refreshes
    under way. *)
Lemma step_effects x w w' :
  history env [x] w = Some w' ->
  now w <= now w'
  /\ (forall k, entry_change x k w w')
  /\ (exists new, gets w' = gets w ++ new
                  /\ forall c, In c new -> request_cause x c w)
  /\ (forall f, In f (tasks w') ->
        In f (tasks w)
        \/ exists ctx config result,
             x = inl (CallSetup ctx config result)
             /\ uf_path f = CacheConfig.Path config /\ uf_result f = result)
  /\ (forall p, heap w' !! p = heap w !! p \/ write_cause x p w)
  /\ (forall f, In f (map fst (inflight w')) ->
                In f (map fst (inflight w)) \/ In f (tasks w)).
Proof.
  destruct x as [[ctx config result|ctx path|path|]|e]; cbn [history exec].
  - destruct (SetupCachedEndpoint env ctx config result w) as [r w1|] eqn:H;
      [|discriminate]. intros [= <-].
    destruct (SetupCachedEndpoint_store _ _ _ _ _ _ H)
      as (Hn & Ho & He & Hg & Hh & Hi).
    destruct (SetupCachedEndpoint_effects env _ _ _ _ _ _ H) as (_ & _ & Ht).
    split; [lia|]. split.
    { intros k. cbn [entry_change].
      destruct (decide (k = CacheConfig.Path config)) as [->|Hk]; [exact He|auto]. }
    split.
    { destruct Hg as [Hg|Hg]; [exists []|exists [(ctx, CacheConfig.Path config)]].
      - rewrite app_nil_r. split; [exact Hg|]. intros c [].
      - split; [exact Hg|]. intros c [<-|[]]. reflexivity. }
    split.
    { intros f Hf. destruct (Ht f Hf) as [Hin| ->]; [left; exact Hin|].
      right. exists ctx, config, result. auto. }
    split; [|rewrite Hi; auto].
    intros p. destruct (iface_cases result p) as [Hp|Hp]; [right; exact Hp|auto].
  - destruct (GetCachedOrFetch env ctx path w) as [r w1|] eqn:H; [|discriminate].
    intros [= <-].
    destruct (GetCachedOrFetch_store _ _ _ _ _ H) as (Hn & Hi & Hs).
    destruct (GetCachedOrFetch_effects env _ _ _ _ _ H) as (_ & _ & Ht).
    split; [lia|].
    destruct Hs as [->|(e & He & Hg & Hh & Hk)].
    + split; [intros k; left; reflexivity|].
      split; [exists []; rewrite app_nil_r; split; [reflexivity|intros c []]|].
      split; [auto|]. split; [|auto]. intros p. left. reflexivity.
    + split.
      { intros k. cbn [entry_change].
        destruct (Hk k) as [Hs|[-> (t & Ht' & Hs)]]; [left; exact Hs|].
        right. exists e, t. auto. }
      split.
      { exists [(ctx, path)]. split; [exact Hg|]. intros c [<-|[]].
        cbn [request_cause]. rewrite He. eauto. }
      split; [intros f Hf; left; rewrite <- Ht; exact Hf|].
      split; [|rewrite Hi; auto].
      intros p. destruct (iface_cases (CacheEntry.Data e) p) as [Hp|Hp]; [|auto].
      right. cbn [write_cause]. eauto.
  - destruct (StopCacheUpdates path w) as [r w1|] eqn:H; [|discriminate].
    intros [= <-]. pose proof (StopCacheUpdates_frame _ _ _ _ H) as F.
    pose proof (stop_frame_tasks _ _ F) as Ht.
    destruct F as (Hc & _ & _ & _ & _ & Hh & Hn & Hg & _ & Hi).
    split; [lia|]. split; [intros k; left; rewrite Hc; reflexivity|].
    split; [exists []; rewrite app_nil_r; split; [exact Hg|intros c []]|].
    split; [intros f Hf; left; rewrite <- Ht; exact Hf|].
    split; [|rewrite Hi; auto].
    intros p. left. rewrite Hh. reflexivity.
  - destruct (Stop w) as [r w1|] eqn:H; [|discriminate].
    intros [= <-].
    destruct (Stop_frame _ _ _ H) as (Hc & _ & Hen & Hgo & Hh & Hn & Hg & _ & Hi).
    split; [lia|]. split; [intros k; left; rewrite Hc; reflexivity|].
    split; [exists []; rewrite app_nil_r; split; [exact Hg|intros c []]|].
    split; [intros f Hf; left; unfold tasks in *; rewrite <- Hgo, <- Hen; exact Hf|].
    split; [|rewrite Hi; auto].
    intros p. left. rewrite Hh. reflexivity.
  - destruct (bg_step env e w) as [w1|] eqn:H; [|discriminate]. intros [= <-].
    destruct (bg_step_cases env _ _ _ H) as ((_ & _ & Ht & Hn) & Hkind).
    split; [exact Hn|].
    assert ((forall k, entry_change (inr e) k w w1)
            /\ (exists new, gets w1 = gets w ++ new
                            /\ forall c, In c new -> request_cause (inr e) c w)
            /\ (forall p, heap w1 !! p = heap w !! p \/ write_cause (inr e) p w)
            /\ (forall f, In f (map fst (inflight w1)) ->
                          In f (map fst (inflight w)) \/ In f (tasks w)))
      as (B & C & D & E).
    { destruct Hkind as [(Hg & Hc & Hh & Hi)|[(f & Hf & Hcl & Hw)|[(f & Hf & Hcl & Hw)
                         |(i & f & s & Hi & Hs & Hw)]]].
      - split; [intros k; left; rewrite Hc; reflexivity|].
        split; [exists []; rewrite app_nil_r; split; [exact Hg|intros c []]|].
        split; [intros p; left; rewrite Hh; reflexivity|]. rewrite Hi. auto.
      - subst w1. frame_of (updateFunc_store f w) U.
        destruct U as (_ & Ui & [(Hc & Hg & Hh)|(_ & Hg & Hh & Hk)]).
        + split; [intros k; left; rewrite Hc; reflexivity|].
          split; [exists []; rewrite app_nil_r; split; [exact Hg|intros c []]|].
          split; [intros p; left; rewrite Hh; reflexivity|]. rewrite Ui. auto.
        + split.
          { intros k. cbn [entry_change].
            destruct (Hk k) as [Hsame|(e0 & t & -> & He0 & Ht' & He1)];
              [left; exact Hsame|].
            right. exists e0, f, t. auto 6. }
          split.
          { exists [(updateCtx, uf_path f)]. split; [exact Hg|]. intros c [<-|[]].
            cbn [request_cause]. eauto. }
          split; [|rewrite Ui; auto].
          intros p. destruct (iface_cases (uf_result f) p) as [Hp|Hp]; [|auto].
          right. cbn [write_cause]. eauto.
      - subst w1. cbn [gets client heap inflight with_inflight].
        split; [intros k; left; reflexivity|].
        split; [exists []; rewrite app_nil_r; split; [reflexivity|intros c []]|].
        split; [intros p; left; reflexivity|].
        intros f0. rewrite map_app, in_app_iff. cbn [map fst In].
        intros [Hin|[<-|[]]]; auto.
      - assert (In f (map fst (inflight w))) as Hfin.
        { apply in_map_iff. exists (f, s). split; [reflexivity|].
          apply list_elem_of_In, list_elem_of_lookup. eauto. }
        frame_of (refresh_step_frame env f s w) F.
        destruct (refresh_step env f s w) as [s' w2]. cbn [fst snd] in *. subst w1.
        destruct F as ((_ & _ & _ & _ & _ & _ & Fn & Fi) & Fg & _ & _ & Fc & Fh & _).
        cbn [gets client heap inflight with_inflight now].
        split.
        { intros k. cbn [entry_change].
          destruct (Fc k) as [Hsame|(e0 & -> & He0 & He1)]; [left; exact Hsame|].
          right. exists e0, f, (now w). split; [auto|]. split; [reflexivity|].
          split; [exact He0|]. split; [lia|exact He1]. }
        split.
        { destruct s; cbn [is_ToGet] in Fg;
            try (exists []; rewrite app_nil_r; split; [exact Fg|intros c []]).
          exists [(updateCtx, uf_path f)]. split; [exact Fg|]. intros c [<-|[]].
          cbn [request_cause]. exists f. split; [|reflexivity]. right.
          apply list_elem_of_In, list_elem_of_lookup. eauto. }
        split.
        { intros p. destruct (iface_cases (uf_result f) p) as [Hp|Hp];
            [|left; exact (Fh p Hp)].
          right. cbn [write_cause]. eauto. }
        intros f0 Hin. left. apply in_map_iff in Hin.
        destruct Hin as ([f1 s1] & <- & Hin). cbn [fst].
        apply list_elem_of_In, list_elem_of_lookup in Hin. destruct Hin as [j Hj].
        destruct (decide (j = i)) as [->|Hne].
        + rewrite list_lookup_insert_eq in Hj
            by (apply lookup_lt_Some in Hi; exact Hi).
          injection Hj as <- _. exact Hfin.
        + rewrite list_lookup_insert_ne in Hj by congruence.
          apply in_map_iff. exists (f1, s1). split; [reflexivity|].
          apply list_elem_of_In, list_elem_of_lookup. eauto. }
    split; [exact B|]. split; [exact C|]. split; [|split; [exact D|exact E]].
    intros f Hf. left. exact (Ht f Hf).
Qed.

Lemma history_cons x l w w' :
  history env (x :: l) w = Some w' <->
  exists w1, history env [x] w = Some w1 /\ history env l w1 = Some w'.
Proof.
  destruct x as [c|e]; cbn [history].
  - destruct (exec env c w) as [w1|]; [|split; [discriminate|intros (? & [=] & _)]].
    split; [eauto|]. intros (w2 & [= <-] & H). exact H.
  - destruct (bg_step env e w) as [w1|]; [|split; [discriminate|intros (? & [=] & _)]].
    split; [eauto|]. intros (w2 & [= <-] & H). exact H.
Qed.

(** ** Along a history *)

Lemma setup_paths_cons x l : setup_paths (x :: l) = setup_paths [x] ++ setup_paths l.
Proof. unfold setup_paths. cbn [flat_map]. rewrite app_nil_r. reflexivity. Qed.

Lemma setup_pairs_cons x l : setup_pairs (x :: l) = setup_pairs [x] ++ setup_pairs l.
Proof. unfold setup_pairs. cbn [flat_map]. rewrite app_nil_r. reflexivity. Qed.

Lemma foreground_calls_cons x l :
  foreground_calls (x :: l) = foreground_calls [x] ++ foreground_calls l.
Proof. unfold foreground_calls. cbn [flat_map]. rewrite app_nil_r. reflexivity. Qed.

Lemma setup_pairs_paths l : map fst (setup_pairs l) = setup_paths l.
Proof.
  induction l as [|x l IH]; [reflexivity|].
  rewrite setup_pairs_cons, setup_paths_cons, map_app, IH. f_equal.
  destruct x as [[| | |]|]; reflexivity.
Qed.

Lemma configure_is_Some k l acc :
  is_Some (foldl (configure k) acc l) <-> is_Some acc \/ In k (setup_paths l).
Proof.
  revert acc. induction l as [|x l IH]; intros acc; cbn [foldl].
  - cbn. tauto.
  - rewrite IH, setup_paths_cons, in_app_iff.
    destruct x as [[ctx config result|?|?|]|e]; cbn [configure]; try (cbn; tauto).
    destruct (decide (CacheConfig.Path config = k)) as [Heq|Hne].
    + split; [intros _; right; left; left; exact Heq|intros _; left; eauto].
    + cbn. tauto.
Qed.

Lemma entry_change_expiration x k w w' :
  entry_change x k w w' ->
  CacheEntry.Expiration <$> cache (client w') !! k
  = configure k (CacheEntry.Expiration <$> cache (client w) !! k) x.
Proof.
  destruct x as [[ctx config result|ctx path|path|]|e];
    cbn [entry_change configure].
  - destruct (decide (k = CacheConfig.Path config)) as [->|Hne].
    + intros (e' & -> & _ & <- & _). rewrite decide_True by reflexivity. reflexivity.
    + intros ->. rewrite decide_False by congruence. reflexivity.
  - intros [->|(e & t & -> & _ & ->)]; reflexivity.
  - intros [->|(e & t & -> & _ & ->)]; reflexivity.
  - intros [->|(e & t & -> & _ & ->)]; reflexivity.
  - intros [->|(e0 & f & t & _ & _ & -> & _ & ->)]; reflexivity.
Qed.

Lemma entry_change_stamp x k w w' e' :
  entry_change x k w w' ->
  cache (client w') !! k = Some e' ->
  cache (client w) !! k = Some e'
  \/ CacheEntry.UpdatedAt e' = time.zero
  \/ now w <= CacheEntry.UpdatedAt e' <= now w'.
Proof.
  assert (forall d t x0,
            now w <= t <= now w' ->
            Some (CacheEntry.mk d t x0) = Some e' ->
            now w <= CacheEntry.UpdatedAt e' <= now w') as Hmk
    by (intros d t x0 Ht [= <-]; exact Ht).
  destruct x as [[ctx config result|ctx path|path|]|e]; cbn [entry_change].
  - destruct (decide (k = CacheConfig.Path config)) as [->|Hne].
    + intros (e0 & -> & _ & _ & Hu) [= <-]. right. exact Hu.
    + intros ->. auto.
  - intros [->|(e & t & _ & Ht & ->)]; eauto.
  - intros [->|(e & t & _ & Ht & ->)]; eauto.
  - intros [->|(e & t & _ & Ht & ->)]; eauto.
  - intros [->|(e0 & f & t & _ & _ & _ & Ht & ->)]; eauto.
Qed.

Lemma GetCached_no_entry k w :
  GetCached k w = (Nil, Some (no_cache_entry k)) <-> cache (client w) !! k = None.
Proof.
  unfold GetCached. destruct (cache (client w) !! k) as [e|]; [|tauto].
  split; [|discriminate].
  destruct (_ <? _); discriminate.
Qed.

(** X8. Along any history the expiration window filed under a key is the
    one of the latest [SetupCachedEndpoint] on that key, or the one it had at
    the start: no refresh changes it, and nothing, not even [Stop], a failed
    fetch or a rejected schedule, removes a key. [GetCached] therefore
    answers "no cache entry" exactly for the keys that were absent at the
    start and never set up. *)
Theorem registered_keys l w w' k :
  history env l w = Some w' ->
  CacheEntry.Expiration <$> cache (client w') !! k
  = foldl (configure k) (CacheEntry.Expiration <$> cache (client w) !! k) l
  /\ (GetCached k w' = (Nil, Some (no_cache_entry k))
      <-> cache (client w) !! k = None /\ ~ In k (setup_paths l)).
Proof.
  intros H.
  assert (CacheEntry.Expiration <$> cache (client w') !! k
          = foldl (configure k) (CacheEntry.Expiration <$> cache (client w) !! k) l)
    as Hexp.
  { revert w H. induction l as [|x l IH]; intros w H.
    - injection H as <-. reflexivity.
    - apply history_cons in H. destruct H as (w1 & H1 & H2).
      destruct (step_effects _ _ _ H1) as (_ & He & _).
      cbn [foldl]. rewrite <- (entry_change_expiration _ _ _ _ (He k)).
      exact (IH _ H2). }
  split; [exact Hexp|].
  rewrite GetCached_no_entry.
  pose proof (configure_is_Some k l (CacheEntry.Expiration <$> cache (client w) !! k))
    as Hs.
  rewrite <- Hexp, !fmap_is_Some in Hs.
  rewrite <- !not_eq_None_Some in Hs.
  clear Hexp. destruct (cache (client w') !! k), (cache (client w) !! k);
    intuition congruence.
Qed.

Lemma step_stamps x w w' :
  stamps_ok w -> history env [x] w = Some w' -> stamps_ok w'.
Proof.
  intros [H0 Hs] H. destruct (step_effects _ _ _ H) as (Hn & He & _).
  split; [lia|]. intros k e' Hl.
  destruct (entry_change_stamp _ _ _ _ _ (He k) Hl) as [Hold|[Hz|Hz]].
  - specialize (Hs _ _ Hold). lia.
  - rewrite Hz. unfold time.zero. lia.
  - lia.
Qed.

(** X9. No entry is ever stamped ahead of the clock: if that holds at the
    start it holds after every history, so the age [time.Since] computes is
    never negative. An entry whose [Expiration] is negative is therefore
    never fresh: [GetCached] reports it expired and [GetCachedOrFetch]
    fetches on every call. *)
Theorem age_never_negative l w w' :
  stamps_ok w ->
  history env l w = Some w' ->
  stamps_ok w'
  /\ forall k e,
       cache (client w') !! k = Some e ->
       0 <= time.Since (now w') (CacheEntry.UpdatedAt e)
       /\ (CacheEntry.Expiration e < 0 ->
           GetCached k w' = (CacheEntry.Data e, Some (cache_expired k))
           /\ needsFetch e w' = true).
Proof.
  intros Hs H.
  assert (stamps_ok w') as Hs'.
  { revert w Hs H. induction l as [|x l IH]; intros w Hs H.
    - injection H as <-. exact Hs.
    - apply history_cons in H. destruct H as (w1 & H1 & H2).
      exact (IH _ (step_stamps _ _ _ Hs H1) H2). }
  split; [exact Hs'|]. intros k e Hl.
  destruct Hs' as [_ Hs']. specialize (Hs' _ _ Hl).
  assert (0 <= time.Since (now w') (CacheEntry.UpdatedAt e)) as Hage.
  { unfold time.Since, time.Sub.
    destruct (time.maxDuration <? _); [unfold time.maxDuration; lia|].
    destruct (Z.ltb_spec (now w' - CacheEntry.UpdatedAt e) time.minDuration); lia. }
  split; [exact Hage|]. intros Hneg.
  assert ((CacheEntry.Expiration e <? time.Since (now w') (CacheEntry.UpdatedAt e))
          = true) as Hlt by (apply Z.ltb_lt; lia).
  unfold GetCached, needsFetch. rewrite Hl, Hlt, orb_true_r. auto.
Qed.

(** ** Where requests, destinations and writes come from *)

Lemma accounted_weaken ps ps' fs fs' (h0 : gmap Ptr Val) w :
  accounted ps fs h0 w -> accounted (ps ++ ps') (fs ++ fs') h0 w.
Proof.
  intros (A1 & A2 & A3 & A4). unfold accounted.
  split; [intros k e H; apply in_or_app; left; eauto|].
  split; [intros f H; apply in_or_app; left; eauto|].
  split.
  - intros c H. destruct (A3 c H) as [Hp Hc]. rewrite map_app, !in_app_iff. tauto.
  - intros p Hp. apply A4. intros Hin. apply Hp. rewrite map_app, in_app_iff. auto.
Qed.

Lemma step_accounted ps fs (h0 : gmap Ptr Val) x w w' :
  accounted ps fs h0 w ->
  history env [x] w = Some w' ->
  accounted (ps ++ setup_pairs [x]) (fs ++ foreground_calls [x]) h0 w'.
Proof.
  intros (A1 & A2 & A3 & A4) H.
  destruct (step_effects _ _ _ H) as (_ & He & (new & Hg & Hnew) & Ht & Hh & Hi).
  assert (forall k, is_Some (cache (client w) !! k) -> In k (map fst ps)) as A1'.
  { intros k [e Hk]. apply in_map_iff. exists (k, CacheEntry.Data e). eauto. }
  assert (forall f, In f (tasks w) \/ In f (map fst (inflight w)) ->
                    In (uf_path f) (map fst ps)) as A2'.
  { intros f Hf. apply in_map_iff. exists (uf_path f, uf_result f). eauto. }
  unfold accounted. rewrite !map_app.
  split; [|split; [|split]].
  - intros k e' Hl. specialize (He k). rewrite in_app_iff.
    destruct x as [[ctx config result|ctx path|path|]|e]; cbn [entry_change] in He.
    + destruct (decide (k = CacheConfig.Path config)) as [->|Hne].
      * destruct He as (e0 & He0 & <- & _). rewrite Hl in He0. injection He0 as <-.
        right. left. reflexivity.
      * rewrite He in Hl. eauto.
    + destruct He as [He|(e & t0 & He0 & _ & He1)]; [rewrite He in Hl; eauto|].
      rewrite Hl in He1. injection He1 as ->. left. exact (A1 _ _ He0).
    + destruct He as [He|(e & t0 & He0 & _ & He1)]; [rewrite He in Hl; eauto|].
      rewrite Hl in He1. injection He1 as ->. left. exact (A1 _ _ He0).
    + destruct He as [He|(e & t0 & He0 & _ & He1)]; [rewrite He in Hl; eauto|].
      rewrite Hl in He1. injection He1 as ->. left. exact (A1 _ _ He0).
    + destruct He as [He|(e0 & f & t0 & Hf & <- & He0 & _ & He1)];
        [rewrite He in Hl; eauto|].
      rewrite Hl in He1. injection He1 as ->. left. exact (A2 _ Hf).
  - intros f Hf. rewrite in_app_iff. destruct Hf as [Hf|Hf].
    + destruct (Ht f Hf) as [Hin|(ctx & config & result & -> & Hp & Hr)]; [eauto|].
      right. left. rewrite <- Hp, <- Hr. reflexivity.
    + left. apply A2. destruct (Hi f Hf); auto.
  - intros c Hc. rewrite Hg in Hc. rewrite !in_app_iff.
    apply in_app_or in Hc. destruct Hc as [Hc|Hc].
    { destruct (A3 c Hc) as [Hp Hq]. tauto. }
    specialize (Hnew c Hc).
    destruct x as [[ctx config result|ctx path|path|]|e]; cbn [request_cause] in Hnew.
    + subst c. split; [right; left; reflexivity|left; right; left; reflexivity].
    + destruct Hnew as [-> Hs]. split; [left; exact (A1' _ Hs)|].
      left. right. left. reflexivity.
    + destruct Hnew.
    + destruct Hnew.
    + destruct Hnew as (f & Hf & ->). split; [|right; reflexivity].
      left. apply A2'. destruct Hf as [[Hf _]|Hf]; [left; exact Hf|].
      right. apply in_map_iff. exists (f, ToGet). auto.
  - intros p Hp. rewrite in_app_iff in Hp.
    destruct (Hh p) as [Hs|Hw]; [rewrite Hs; apply A4; tauto|].
    exfalso. apply Hp.
    destruct x as [[ctx config result|ctx path|path|]|e]; cbn [write_cause] in Hw.
    + right. left. exact Hw.
    + destruct Hw as (e & He0 & Hd). left. apply in_map_iff.
      exists (path, CacheEntry.Data e). split; [exact Hd|eauto].
    + destruct Hw.
    + destruct Hw.
    + destruct Hw as (f & Hf & Hr). left. apply in_map_iff.
      exists (uf_path f, uf_result f). split; [exact Hr|eauto].
Qed.

Lemma history_accounted (h0 : gmap Ptr Val) l ps fs w w' :
  accounted ps fs h0 w ->
  history env l w = Some w' ->
  accounted (ps ++ setup_pairs l) (fs ++ foreground_calls l) h0 w'.
Proof.
  revert ps fs w. induction l as [|x l IH]; intros ps fs w Ha H.
  - injection H as <-. apply accounted_weaken. exact Ha.
  - apply history_cons in H. destruct H as (w1 & H1 & H2).
    rewrite setup_pairs_cons, foreground_calls_cons, !app_assoc.
    exact (IH _ _ _ (step_accounted _ _ _ _ _ _ Ha H1) H2).
Qed.

Lemma NewWorld_accounted (h : gmap Ptr Val) t : accounted [] [] h (NewWorld h t).
Proof.
  unfold accounted. cbn.
  split; [intros k e; rewrite lookup_empty; discriminate|]. tauto.
Qed.

(** X10. Every request a cached client has made, from its creation on, is
    for a path that was passed to [SetupCachedEndpoint], and was made either
    under the context of a foreground call on that very path
    ([SetupCachedEndpoint] or [GetCachedOrFetch]) or under the ten-second
    context of a scheduled refresh. *)
Theorem requests_go_back_to_calls l (h : gmap Ptr Val) t w :
  history env l (NewWorld h t) = Some w ->
  forall ctx path,
    In (ctx, path) (gets w) ->
    In path (setup_paths l)
    /\ (In (ctx, path) (foreground_calls l) \/ ctx = updateCtx).
Proof.
  intros H ctx path Hin.
  destruct (history_accounted h _ _ _ _ _ (NewWorld_accounted h t) H)
    as (_ & _ & A3 & _).
  destruct (A3 _ Hin) as [Hp Hc]. cbn [app fst snd] in *.
  rewrite setup_pairs_paths in Hp. auto.
Qed.

(** X11. A cached client writes to no object but the destinations it was
    given: an object whose address was never passed to
    [SetupCachedEndpoint] is, after any history, what it was when the
    client was made. *)
Theorem writes_only_to_destinations l (h : gmap Ptr Val) t w :
  history env l (NewWorld h t) = Some w ->
  forall p, ~ In (Ref p) (map snd (setup_pairs l)) -> heap w !! p = h !! p.
Proof.
  intros H p Hp.
  destruct (history_accounted h _ _ _ _ _ (NewWorld_accounted h t) H)
    as (_ & _ & _ & A4).
  exact (A4 p Hp).
Qed.

(** X12. What [GetCached] hands back for a key is a destination that was
    registered for that key, or nil with "no cache entry". *)
Theorem served_destination_was_registered l (h : gmap Ptr Val) t w :
  history env l (NewWorld h t) = Some w ->
  forall k v err,
    GetCached k w = (v, err) ->
    (v = Nil /\ err = Some (no_cache_entry k)) \/ In (k, v) (setup_pairs l).
Proof.
  intros H k v err.
  destruct (history_accounted h _ _ _ _ _ (NewWorld_accounted h t) H)
    as (A1 & _).
  unfold GetCached. destruct (cache (client w) !! k) as [e|] eqn:He.
  - specialize (A1 _ _ He). cbn [app] in A1.
    destruct (_ <? _); intros [= <- _]; auto.
  - intros [= <- <-]. auto.
Qed.

(** ** The task a registration starts *)

(** X13. [SetupCachedEndpoint] files a fresh, open channel under the key
    whatever it returns. When it returns nil it has started exactly one
    task, the refresh of the key into the destination, listening on that
    channel; when it returns an error it has started none, and tickers and
    scheduler are as before. *)
Theorem setup_starts_one_task ctx config result w r w' :
  SetupCachedEndpoint env ctx config result w = Return r w' ->
  let cmd := mkClosure (CacheConfig.Path config) result (length (chans w)) in
  stopChans (client w') !! CacheConfig.Path config = Some (length (chans w))
  /\ is_closed (length (chans w)) w' = false
  /\ (r = None -> tasks w' ≡ₚ tasks w ++ [cmd])
  /\ (r <> None ->
      tasks w' = tasks w /\ tickers w' = tickers w
      /\ ticker (client w') = ticker (client w)
      /\ cron (client w') = cron (client w)).
Proof.
  intros H.
  destruct (SetupCachedEndpoint_effects env _ _ _ _ _ _ H) as (Hch & Hst & _).
  cbv zeta. split; [rewrite Hst, lookup_insert_eq; reflexivity|].
  split.
  { unfold is_closed. rewrite Hch, lookup_app_r by lia.
    rewrite Nat.sub_diag. reflexivity. }
  revert H. unfold SetupCachedEndpoint.
  frame_of (register_spec config result w) R.
  destruct (register config result w) as [stopChan w0]. cbn [fst snd] in R.
  destruct R as (-> & _ & _ & _ & Rcr & Rtk & Rts & Rgo & _).
  assert (exists w2 err,
            (if CacheConfig.SkipInitialFetch config then (None, w0)
             else updateCache env ctx (CacheConfig.Path config) result w0) = (err, w2)
            /\ goroutines w2 = goroutines w /\ cron (client w2) = cron (client w)
            /\ tickers w2 = tickers w /\ ticker (client w2) = ticker (client w))
    as (w2 & err & -> & Hgo & Hcr & Hts & Htk).
  { destruct (CacheConfig.SkipInitialFetch config); [exists w0, None; auto|].
    frame_of (updateCache_frame env ctx (CacheConfig.Path config) result w0) F.
    destruct (updateCache env ctx (CacheConfig.Path config) result w0) as [err w2].
    cbn [snd] in F. destruct F as (_ & Fcr & _ & Ftk & _ & Fts & Fgo & _).
    exists w2, err. split; [reflexivity|]. repeat split; congruence. }
  assert (tasks w2 = tasks w) as Hsame by (unfold tasks; rewrite Hgo, Hcr; reflexivity).
  destruct err as [e|].
  { intros [= <- <-]. split; [discriminate|]. auto. }
  rewrite schedule_resolve.
  destruct (resolve env (CacheConfig.CronSpec config)) as [d|spec|e].
  - unfold schedule_with_ticker, NewTicker.
    destruct (d <=? 0); cbn [bind]; [discriminate|].
    intros [= <- <-]. split; [intros _|intros []; reflexivity].
    unfold tasks. cbn. rewrite Hgo, Hcr, List.filter_app, map_app. cbn.
    rewrite <- !app_assoc. apply Permutation_app_head, Permutation_app_comm.
  - intros [= <- <-]. split; [intros _|intros []; reflexivity].
    unfold tasks. cbn. rewrite Hgo, Hcr, map_app, app_assoc. reflexivity.
  - intros [= <- <-]. split; [discriminate|]. auto.
Qed.

(** ** Stopping, in a program *)

(** X14. In a program that starts from a new client and never sets up a key
    whose earlier tasks are still live, [StopCacheUpdates] and [Stop] keep
    their promise at every point: they return, and whatever the tickers, the
    scheduler and the refreshes under way do afterwards, the requests for
    the stopped key (for any key, after [Stop]) grow by no more than what
    the refreshes under way at the stop still owed; if none was under way,
    no request is made for the key and its entry stays as it is. *)
Theorem stopping_in_a_program l (h : gmap Ptr Val) t w :
  history env l (NewWorld h t) = Some w ->
  registers_quiet_keys env l (NewWorld h t) ->
  (forall path, exists w',
     StopCacheUpdates path w = Return tt w'
     /\ forall es w'',
          bg_run env es w' = Some w'' ->
          (length (gets_of path (gets w''))
           <= length (gets_of path (gets w)) + owed (only path) w)%nat
          /\ (under_way (only path) w = [] ->
              gets_of path (gets w'') = gets_of path (gets w)
              /\ cache (client w'') !! path = cache (client w) !! path))
  /\ (exists w',
        Stop w = Return tt w'
        /\ forall es w'',
             bg_run env es w' = Some w'' ->
             (length (gets w'') <= length (gets w) + owed any w)%nat
             /\ (under_way any w = [] ->
                 gets w'' = gets w /\ cache (client w'') = cache (client w)
                 /\ heap w'' = heap w)).
Proof.
  intros H Hreg.
  destruct (history_tracked env _ _ _ (proj1 (NewWorld_ok h t))
              (proj2 (NewWorld_ok h t)) Hreg H) as [Hok Htr].
  assert (forall Q w' es w'',
            muted Q w' -> gets w' = gets w -> inflight w' = inflight w ->
            cache (client w') = cache (client w) -> heap w' = heap w ->
            bg_run env es w' = Some w'' ->
            (length (gets_in Q (gets w'')) <= length (gets_in Q (gets w)) + owed Q w)%nat
            /\ (under_way Q w = [] ->
                gets_in Q (gets w'') = gets_in Q (gets w)
                /\ (forall k, Q k = true ->
                              cache (client w'') !! k = cache (client w) !! k)
                /\ ((forall k, Q k = true) -> heap w'' = heap w))) as Hafter.
  { intros Q w' es w'' Hm Hg Hi Hca Hh Hrun.
    destruct (bg_run_muted env _ _ _ _ Hm Hrun) as (_ & Hb & _ & Hs).
    assert (owed Q w' = owed Q w) as Ho by (unfold owed; rewrite Hi; reflexivity).
    assert (under_way Q w' = under_way Q w) as Hw
      by (unfold under_way; rewrite Hi; reflexivity).
    rewrite Hg, Ho in Hb. rewrite Hw, Hg in Hs. split; [lia|].
    intros Hu. destruct (Hs Hu) as (_ & Hg' & Hc' & Hh').
    split; [exact Hg'|]. split.
    - intros k Hk. rewrite (Hc' k Hk), Hca. reflexivity.
    - intros Hall. rewrite (Hh' Hall). exact Hh. }
  split.
  - intros path.
    destruct (StopCacheUpdates_safe path w Hok) as (w' & Hr & _ & _ & _ & Hf & Hcl).
    exists w'. split; [exact Hr|].
    pose proof Hf as (Hca & _ & _ & _ & _ & Hh & _ & Hg & _ & Hi).
    assert (muted (only path) w') as Hq.
    { apply quiet_muted. intros f Hin Hp. rewrite (stop_frame_tasks _ _ Hf) in Hin.
      apply Hcl. destruct (Htr path f Hin Hp); auto. }
    intros es w'' Hrun.
    destruct (Hafter _ _ _ _ Hq Hg Hi Hca Hh Hrun) as (Hb & Hs).
    split; [exact Hb|]. intros Hu. destruct (Hs Hu) as (Hg' & Hc' & _).
    split; [exact Hg'|]. apply Hc'. apply only_true. reflexivity.
  - destruct (Stop_safe w Hok)
      as (w' & Hr & _ & _ & _ & Hent & Hca & Hh & _ & Hg & Hgo & Hi & _
          & Hmono & Hcov).
    exists w'. split; [exact Hr|].
    assert (muted any w') as Hs.
    { apply silent_muted. intros f Hf.
      assert (In f (tasks w)) as Hf0
        by (unfold tasks in *; rewrite <- Hgo, <- Hent; exact Hf).
      destruct (Htr (uf_path f) f Hf0 eq_refl) as [Hc|Hc]; [exact (Hmono _ Hc)|].
      exact (Hcov _ _ Hc). }
    intros es w'' Hbg.
    destruct (Hafter _ _ _ _ Hs Hg Hi Hca Hh Hbg) as (Hb & Hq).
    rewrite !gets_in_any in Hb. split; [exact Hb|].
    intros Hu. destruct (Hq Hu) as (Hg' & Hc' & Hh').
    rewrite !gets_in_any in Hg'. split; [exact Hg'|].
    split; [|exact (Hh' (fun _ => eq_refl))].
    apply map_eq. intros k. exact (Hc' k eq_refl).
Qed.

(** ** Reading back what was fetched *)

(** X15. Once [GetCachedOrFetch] has returned a value without error, the
    entry of the key holds that value: either the entry was within its
    window and nothing was done, or one request was made and the entry
    carries the stamp of that refresh. From then on, at every clock reading
    within the window of the entry's stamp, [GetCached] returns the same
    value without error and [GetCachedOrFetch] returns it again, under any
    context, without a request and without changing anything (the stamp not
    being the zero time); at every clock reading past the window
    [GetCached] returns the value with the expired error and
    [GetCachedOrFetch] makes a request again. *)
Theorem fetch_then_read ctx path w v w' :
  GetCachedOrFetch env ctx path w = Return (v, None) w' ->
  exists entry entry',
    cache (client w) !! path = Some entry
    /\ cache (client w') !! path = Some entry'
    /\ CacheEntry.Data entry' = v
    /\ CacheEntry.Expiration entry' = CacheEntry.Expiration entry
    /\ ((needsFetch entry w = false /\ w' = w /\ entry' = entry)
        \/ (needsFetch entry w = true
            /\ CacheEntry.UpdatedAt entry' = refresh_stamp env w
            /\ now w' = refresh_end env w
            /\ gets w' = gets w ++ [(ctx, path)]))
    /\ forall t,
         (time.Since t (CacheEntry.UpdatedAt entry') <= CacheEntry.Expiration entry' ->
          GetCached path (with_now t w') = (v, None)
          /\ (CacheEntry.UpdatedAt entry' <> time.zero ->
              forall ctx',
                GetCachedOrFetch env ctx' path (with_now t w')
                = Return (v, None) (with_now t w')))
         /\ (CacheEntry.Expiration entry' < time.Since t (CacheEntry.UpdatedAt entry') ->
             GetCached path (with_now t w') = (v, Some (cache_expired path))
             /\ forall ctx',
                  exists r w'',
                    GetCachedOrFetch env ctx' path (with_now t w') = Return r w''
                    /\ gets w'' = gets w' ++ [(ctx', path)]).
Proof.
  intros H.
  assert (exists entry entry',
            cache (client w) !! path = Some entry
            /\ cache (client w') !! path = Some entry'
            /\ CacheEntry.Data entry' = v
            /\ CacheEntry.Expiration entry' = CacheEntry.Expiration entry
            /\ ((needsFetch entry w = false /\ w' = w /\ entry' = entry)
                \/ (needsFetch entry w = true
                    /\ CacheEntry.UpdatedAt entry' = refresh_stamp env w
                    /\ now w' = refresh_end env w
                    /\ gets w' = gets w ++ [(ctx, path)])))
    as (entry & entry' & He & Hl & Hd & Hx & Hhow).
  { revert H. unfold GetCachedOrFetch.
    destruct (cache (client w) !! path) as [entry|] eqn:He; [|discriminate].
    destruct (needsFetch entry w) eqn:Hn.
    - destruct (updateCache env ctx path (CacheEntry.Data entry) w)
        as [[err|] w2] eqn:Hu; [discriminate|].
      destruct (refreshed_entry env _ _ _ _ _ _ Hu He) as (Hl & Hnow & Hg).
      rewrite Hl. intros [= <- <-]. exists entry. eexists.
      split; [reflexivity|]. split; [exact Hl|]. split; [reflexivity|].
      split; [reflexivity|]. right. auto.
    - intros [= <- <-]. exists entry, entry. auto 10. }
  exists entry, entry'. split; [exact He|]. split; [exact Hl|]. split; [exact Hd|].
  split; [exact Hx|]. split; [exact Hhow|]. subst v.
  assert (forall t, cache (client (with_now t w')) !! path = Some entry') as Hl'
    by (intros t; exact Hl).
  intros t. split.
  - intros Hage. split; [exact (GetCached_fresh path (with_now t w') _ (Hl' t) Hage)|].
    intros Hnz ctx'.
    assert (needsFetch entry' (with_now t w') = false) as Hn
      by (apply needsFetch_false; split; [exact Hnz|exact Hage]).
    unfold GetCachedOrFetch. rewrite (Hl' t), Hn. reflexivity.
  - intros Hage. split; [exact (GetCached_stale path (with_now t w') _ (Hl' t) Hage)|].
    intros ctx'.
    assert (needsFetch entry' (with_now t w') = true) as Hn
      by (apply needsFetch_true; right; exact Hage).
    unfold GetCachedOrFetch. rewrite (Hl' t), Hn.
    frame_of (updateCache_frame env ctx' path (CacheEntry.Data entry') (with_now t w')) F.
    pose proof (updateCache_keeps_registered env ctx' path (CacheEntry.Data entry')
                  (with_now t w') path (mk_is_Some _ _ (Hl' t))) as Hk.
    destruct (updateCache env ctx' path (CacheEntry.Data entry') (with_now t w'))
      as [[err|] w2].
    + eexists _, w2. split; [reflexivity|]. apply F.
    + cbn [snd] in Hk, F. destruct Hk as [e2 ->].
      eexists _, w2. split; [reflexivity|]. apply F.
Qed.

End History.

(** * The base client *)

Section BaseClient.

Context {B : Type} (net : Net B).

(** ** Options *)

Lemma NewClient_app baseURL (opts rest : list Client.Option) :
  Client.NewClient baseURL (opts ++ rest)
  = foldl (fun c opt => opt c) (Client.NewClient baseURL opts) rest.
Proof. unfold Client.NewClient. apply foldl_app. Qed.

Lemma options_keep {A : Type} (f : Client.t -> A) (rest : list Client.Option) c :
  Forall (fun o => forall c, f (o c) = f c) rest ->
  f (foldl (fun c opt => opt c) c rest) = f c.
Proof.
  intros H. revert c. induction H as [|o rest Ho _ IH]; intros c; [reflexivity|].
  cbn [foldl]. rewrite IH. apply Ho.
Qed.

(** X16. [NewClient] applies its options from left to right, so a later
    option wins: a header has the value of the last [WithHeader] on that
    key, the timeout is that of the last [WithTimeout]; without such an
    option the defaults stand, [Content-Type: application/json] and thirty
    seconds. The two options do not interfere with each other, nor
    [WithHeader] on one key with another key. *)
Theorem later_option_wins baseURL (opts rest : list Client.Option) :
  (forall k v,
     Forall (Client.keeps_header k) rest ->
     Client.headers
       (Client.NewClient baseURL (opts ++ Client.WithHeader k v :: rest)) !! k
     = Some v)
  /\ (forall d,
        Forall Client.keeps_timeout rest ->
        http.Timeout (Client.client
          (Client.NewClient baseURL (opts ++ Client.WithTimeout d :: rest))) = d)
  /\ (Forall (Client.keeps_header "Content-Type") opts ->
      Client.headers (Client.NewClient baseURL opts) !! "Content-Type"
      = Some "application/json")
  /\ (Forall Client.keeps_timeout opts ->
      http.Timeout (Client.client (Client.NewClient baseURL opts))
      = 30 * time.Second)
  /\ (forall k v d,
        Client.keeps_timeout (Client.WithHeader k v)
        /\ Client.keeps_header k (Client.WithTimeout d)
        /\ forall k', k' <> k -> Client.keeps_header k (Client.WithHeader k' v)).
Proof.
  split; [|split; [|split; [|split]]].
  - intros k v H. rewrite NewClient_app. cbn [foldl].
    rewrite (options_keep (fun c => Client.headers c !! k) rest _ H).
    cbn. apply lookup_insert_eq.
  - intros d H. rewrite NewClient_app. cbn [foldl].
    rewrite (options_keep (fun c => http.Timeout (Client.client c)) rest _ H).
    reflexivity.
  - intros H. unfold Client.NewClient.
    rewrite (options_keep (fun c => Client.headers c !! "Content-Type") opts _ H).
    cbn. apply lookup_singleton_eq.
  - intros H. unfold Client.NewClient.
    rewrite (options_keep (fun c => http.Timeout (Client.client c)) opts _ H).
    reflexivity.
  - intros k v d. split; [intros c; reflexivity|].
    split; [intros c; reflexivity|].
    intros k' Hne c. cbn. apply lookup_insert_ne. exact Hne.
Qed.

(** ** The headers of a request *)

Lemma set_headers_snoc (order : list (string * string)) kv h :
  Client.set_headers (order ++ [kv]) h
  = http.Header_Set (fst kv) (snd kv) (Client.set_headers order h).
Proof. unfold Client.set_headers. rewrite foldl_app. reflexivity. Qed.

Lemma set_headers_lookup (order : list (string * string)) h k v :
  (k, v) ∈ order ->
  (forall k' v',
     (k', v') ∈ order ->
     textproto.CanonicalMIMEHeaderKey k' = textproto.CanonicalMIMEHeaderKey k ->
     v' = v) ->
  Client.set_headers order h !! textproto.CanonicalMIMEHeaderKey k = Some [v].
Proof.
  induction order as [|[k' v'] order IH] using rev_ind; intros Hin Hu.
  - apply elem_of_nil in Hin. destruct Hin.
  - rewrite set_headers_snoc. unfold http.Header_Set. cbn [fst snd].
    destruct (decide (textproto.CanonicalMIMEHeaderKey k'
                      = textproto.CanonicalMIMEHeaderKey k)) as [Heq|Hne].
    + rewrite Heq, lookup_insert_eq.
      rewrite (Hu k' v'); [reflexivity| |exact Heq].
      apply elem_of_app. right. apply list_elem_of_singleton. reflexivity.
    + rewrite lookup_insert_ne by exact Hne. apply IH.
      * apply elem_of_app in Hin. destruct Hin as [Hin|Hin]; [exact Hin|].
        apply list_elem_of_singleton in Hin. congruence.
      * intros k0 v0 H0. apply Hu. apply elem_of_app. left. exact H0.
Qed.

Lemma set_headers_other (order : list (string * string)) h K :
  (forall k v, (k, v) ∈ order -> textproto.CanonicalMIMEHeaderKey k <> K) ->
  Client.set_headers order h !! K = h !! K.
Proof.
  induction order as [|[k' v'] order IH] using rev_ind; intros Hn; [reflexivity|].
  rewrite set_headers_snoc. unfold http.Header_Set. cbn [fst snd].
  rewrite lookup_insert_ne.
  - apply IH. intros k v H. apply (Hn k v). apply elem_of_app. left. exact H.
  - apply (Hn k' v'). apply elem_of_app. right.
    apply list_elem_of_singleton. reflexivity.
Qed.

Lemma validMethod_not_empty method :
  http.validMethod method = true -> String.eqb method EmptyString = false.
Proof.
  unfold http.validMethod. intros H. apply andb_true_iff in H.
  destruct H as [H _]. apply negb_true_iff in H. exact H.
Qed.

(** The request [doRequest] builds once the body is encoded, the method is
    a token, the context is not nil and the URL parses. *)
Lemma doRequest_sends c order ctx method path (body : option B) payload sent :
  http.validMethod method = true ->
  url_Parse net (Client.baseURL c ++ path) = None ->
  match body with
  | Some b => json_Marshal net b = Ok payload
  | None => payload = EmptyString
  end ->
  let req := http.Request.mk ctx method (Client.baseURL c ++ path)
               (Client.set_headers order ∅) payload in
  Client.doRequest net c order (Some ctx) method path body sent
  = (Do net (length sent) (Client.client c) req, sent ++ [req]).
Proof.
  intros Hm Hu Hb. cbv zeta. unfold Client.doRequest.
  assert ((match body with
           | Some b => json_Marshal net b
           | None => Ok EmptyString
           end) = Ok payload) as ->
    by (destruct body; [exact Hb|rewrite Hb; reflexivity]).
  unfold http.NewRequestWithContext.
  rewrite (validMethod_not_empty _ Hm), Hm, Hu. reflexivity.
Qed.

(** X17. What goes on the wire. With a body that encodes (or none), a
    token for method, a context and a URL that parses, [doRequest] hands the
    transport exactly one request and returns its answer. The request goes
    to [baseURL] and [path] joined as they are, with the encoded body or an
    empty one, under the caller's context. Each default header is sent
    under its canonical name with its value, whatever order the map is
    walked in, provided no other default header has the same canonical
    name and another value; and no header is sent that is not the canonical
    name of a default header. *)
Theorem request_on_the_wire c order ctx method path (body : option B) payload sent :
  order ≡ₚ map_to_list (Client.headers c) ->
  http.validMethod method = true ->
  url_Parse net (Client.baseURL c ++ path) = None ->
  match body with
  | Some b => json_Marshal net b = Ok payload
  | None => payload = EmptyString
  end ->
  exists req,
    Client.doRequest net c order (Some ctx) method path body sent
    = (Do net (length sent) (Client.client c) req, sent ++ [req])
    /\ http.Request.Ctx req = ctx
    /\ http.Request.Method req = method
    /\ http.Request.URL req = (Client.baseURL c ++ path)%string
    /\ http.Request.Body req = payload
    /\ (forall k v,
          Client.headers c !! k = Some v ->
          Client.unrivalled c k v ->
          http.Request.Header req !! textproto.CanonicalMIMEHeaderKey k = Some [v])
    /\ (forall K,
          (forall k, is_Some (Client.headers c !! k) ->
                     textproto.CanonicalMIMEHeaderKey k <> K) ->
          http.Request.Header req !! K = None).
Proof.
  intros Hp Hm Hu Hb.
  assert (forall k v, (k, v) ∈ order <-> Client.headers c !! k = Some v) as Hin
    by (intros k v; rewrite Hp; apply elem_of_map_to_list).
  eexists. split; [exact (doRequest_sends c order ctx method path body payload sent Hm Hu Hb)|].
  cbn [http.Request.Ctx http.Request.Method http.Request.URL http.Request.Body
       http.Request.Header].
  repeat (split; [reflexivity|]). split.
  - intros k v Hk Hun. apply set_headers_lookup; [apply Hin; exact Hk|].
    intros k' v' H'. apply Hun. apply Hin. exact H'.
  - intros K HK. rewrite set_headers_other; [apply lookup_empty|].
    intros k v H'. apply HK. exists v. apply Hin. exact H'.
Qed.

(** X18. Two default headers whose names differ only in case share one
    canonical name, and which of their values a request carries depends on
    the order in which the runtime walks the map: there is an order that
    sends the one and an order that sends the other. In particular
    [WithHeader] on a lower-case [content-type] does not reliably replace
    the default [Content-Type]. *)
Theorem clashing_headers_depend_on_order c k1 k2 v1 v2 :
  Client.headers c !! k1 = Some v1 ->
  Client.headers c !! k2 = Some v2 ->
  textproto.CanonicalMIMEHeaderKey k1 = textproto.CanonicalMIMEHeaderKey k2 ->
  exists order1 order2,
    order1 ≡ₚ map_to_list (Client.headers c)
    /\ order2 ≡ₚ map_to_list (Client.headers c)
    /\ forall ctx path sent,
         url_Parse net (Client.baseURL c ++ path) = None ->
         exists req1 req2,
           snd (Client.Get net c order1 (Some ctx) path sent) = sent ++ [req1]
           /\ snd (Client.Get net c order2 (Some ctx) path sent) = sent ++ [req2]
           /\ http.Request.Header req1 !! textproto.CanonicalMIMEHeaderKey k1
              = Some [v1]
           /\ http.Request.Header req2 !! textproto.CanonicalMIMEHeaderKey k1
              = Some [v2].
Proof.
  intros H1 H2 Hc.
  apply elem_of_map_to_list in H1, H2.
  destruct (proj1 (elem_of_Permutation _ _) H1) as (l1 & P1).
  destruct (proj1 (elem_of_Permutation _ _) H2) as (l2 & P2).
  exists (l1 ++ [(k1, v1)]), (l2 ++ [(k2, v2)]).
  split; [rewrite P1; symmetry; apply Permutation_cons_append|].
  split; [rewrite P2; symmetry; apply Permutation_cons_append|].
  intros ctx path sent Hu.
  eexists. eexists. unfold Client.Get.
  rewrite !(doRequest_sends c _ ctx http.MethodGet path None EmptyString sent
              eq_refl Hu eq_refl).
  cbn [snd http.Request.Header].
  split; [reflexivity|]. split; [reflexivity|].
  rewrite !set_headers_snoc. unfold http.Header_Set. cbn [fst snd].
  split; [apply lookup_insert_eq|]. rewrite Hc. apply lookup_insert_eq.
Qed.

(** ** The four request methods *)

(** [Get], [Post], [Put] and [Delete] with a context: at most one
    request is handed to the transport, with the verb of the method.
    [Get] and [Delete], and [Post] and [Put] with a nil body, send an empty
    body and never call the encoder; a body the encoder refuses is an
    error of the call and nothing is sent; a URL that does not parse is an
    error and nothing is sent. With the nil context nothing is sent
    either. *)
Lemma request_methods c order ctx path sent :
  let url := (Client.baseURL c ++ path)%string in
  let send method payload :=
    match url_Parse net url with
    | Some e => (Err e, sent)
    | None =>
      let req := http.Request.mk ctx method url (Client.set_headers order ∅) payload in
      (Do net (length sent) (Client.client c) req, sent ++ [req])
    end in
  let encoded method (b : B) :=
    match json_Marshal net b with
    | Err e => (Err e, sent)
    | Ok payload => send method payload
    end in
  Client.Get net c order (Some ctx) path sent = send "GET" EmptyString
  /\ Client.Delete net c order (Some ctx) path sent = send "DELETE" EmptyString
  /\ Client.Post net c order (Some ctx) path None sent = send "POST" EmptyString
  /\ Client.Put net c order (Some ctx) path None sent = send "PUT" EmptyString
  /\ (forall b, Client.Post net c order (Some ctx) path (Some b) sent = encoded "POST" b)
  /\ (forall b, Client.Put net c order (Some ctx) path (Some b) sent = encoded "PUT" b)
  /\ Client.Get net c order None path sent = (Err (ext "net/http: nil Context"), sent)
  /\ Client.Delete net c order None path sent
     = (Err (ext "net/http: nil Context"), sent).
Proof.
  cbv zeta.
  unfold Client.Get, Client.Delete, Client.Post, Client.Put, Client.doRequest,
    http.NewRequestWithContext.
  repeat split; try intros b;
    try destruct (json_Marshal net b) as [payload|e]; try reflexivity;
    destruct (url_Parse net (Client.baseURL c ++ path)); reflexivity.
Qed.

End BaseClient.

(** * The added properties at concrete inputs *)

(** The busy day runs: three requests, the last one refused. *)
Lemma busy_day_runs :
  let rs := [Demo.ok "[1,2]"; Demo.ok "[3,4]"; Demo.refused] in
  history (Demo.backend rs) Demo.busy_day Demo.boot2 = Some (Demo.busy_evening rs)
  /\ gets (Demo.busy_evening rs)
     = [(Caller 0, "/test"); (Caller 1, "/test"); (updateCtx, "/test")]
  /\ heap (Demo.busy_evening rs) !! 1%positive = Some (3, 4).
Proof. vm_compute. auto. Qed.

(** The key of the busy day keeps its one-minute window, and is found. *)
Lemma busy_day_keeps_its_key :
  let rs := [Demo.ok "[1,2]"; Demo.ok "[3,4]"; Demo.refused] in
  let w := Demo.busy_evening rs in
  CacheEntry.Expiration <$> cache (client w) !! "/test" = Some time.Minute
  /\ (GetCached "/test" w = (Nil, Some (no_cache_entry "/test"))
      <-> cache (client Demo.boot2) !! "/test" = None
          /\ ~ In "/test" (setup_paths Demo.busy_day)).
Proof.
  cbv zeta.
  apply (registered_keys
           (Demo.backend [Demo.ok "[1,2]"; Demo.ok "[3,4]"; Demo.refused])
           Demo.busy_day Demo.boot2
           (Demo.busy_evening [Demo.ok "[1,2]"; Demo.ok "[3,4]"; Demo.refused])
           "/test").
  vm_compute. reflexivity.
Defined.

(** On the busy day no entry is stamped ahead of the clock. *)
Lemma busy_day_ages :
  let rs := [Demo.ok "[1,2]"; Demo.ok "[3,4]"; Demo.refused] in
  let w := Demo.busy_evening rs in
  stamps_ok w
  /\ forall k e,
       cache (client w) !! k = Some e ->
       0 <= time.Since (now w) (CacheEntry.UpdatedAt e)
       /\ (CacheEntry.Expiration e < 0 ->
           GetCached k w = (CacheEntry.Data e, Some (cache_expired k))
           /\ needsFetch e w = true).
Proof.
  cbv zeta.
  apply (age_never_negative
           (Demo.backend [Demo.ok "[1,2]"; Demo.ok "[3,4]"; Demo.refused])
           Demo.busy_day Demo.boot2).
  - split; [vm_compute; discriminate|].
    intros k e. cbn. rewrite lookup_empty. discriminate.
  - vm_compute. reflexivity.
Defined.

(** The background request of the busy day is for the key that was set up. *)
Lemma busy_day_background_request :
  In "/test" (setup_paths Demo.busy_day)
  /\ (In (updateCtx, "/test") (foreground_calls Demo.busy_day)
      \/ updateCtx = updateCtx).
Proof.
  apply (requests_go_back_to_calls
           (Demo.backend [Demo.ok "[1,2]"; Demo.ok "[3,4]"; Demo.refused])
           Demo.busy_day {[ 1%positive := (0, 0); 2%positive := (5, 6) ]} Demo.t0
           (Demo.busy_evening [Demo.ok "[1,2]"; Demo.ok "[3,4]"; Demo.refused])).
  - vm_compute. reflexivity.
  - vm_compute. auto.
Defined.

(** The object that was never registered is as it was in the morning. *)
Lemma busy_day_spares_the_other_object :
  let rs := [Demo.ok "[1,2]"; Demo.ok "[3,4]"; Demo.refused] in
  heap (Demo.busy_evening rs) !! 2%positive
  = ({[ 1%positive := (0, 0); 2%positive := (5, 6) ]} : gmap Ptr Demo.Val) !! 2%positive.
Proof.
  cbv zeta.
  apply (writes_only_to_destinations
           (Demo.backend [Demo.ok "[1,2]"; Demo.ok "[3,4]"; Demo.refused])
           Demo.busy_day {[ 1%positive := (0, 0); 2%positive := (5, 6) ]} Demo.t0
           (Demo.busy_evening [Demo.ok "[1,2]"; Demo.ok "[3,4]"; Demo.refused])).
  - vm_compute. reflexivity.
  - cbn. intros [H|[]]. discriminate H.
Defined.

(** What [GetCached] serves in the evening is the registered destination. *)
Lemma busy_day_serves_the_destination :
  (Demo.data = Nil /\ @None error = Some (no_cache_entry "/test"))
  \/ In ("/test", Demo.data) (setup_pairs Demo.busy_day).
Proof.
  apply (served_destination_was_registered
           (Demo.backend [Demo.ok "[1,2]"; Demo.ok "[3,4]"; Demo.refused])
           Demo.busy_day {[ 1%positive := (0, 0); 2%positive := (5, 6) ]} Demo.t0
           (Demo.busy_evening [Demo.ok "[1,2]"; Demo.ok "[3,4]"; Demo.refused])).
  - vm_compute. reflexivity.
  - vm_compute. reflexivity.
Defined.

(** One registration with a 100ms ticker: one task, on channel 0. *)
Lemma one_registration_one_task :
  let w := Demo.boot in
  let w' := Demo.registered_once [] in
  let cmd := mkClosure "/test" Demo.data (length (chans w)) in
  stopChans (client w') !! "/test" = Some (length (chans w))
  /\ is_closed (length (chans w)) w' = false
  /\ (@None error = None -> tasks w' ≡ₚ tasks w ++ [cmd])
  /\ (@None error <> None ->
      tasks w' = tasks w /\ tickers w' = tickers w
      /\ ticker (client w') = ticker (client w)
      /\ cron (client w') = cron (client w)).
Proof.
  cbv zeta.
  apply (setup_starts_one_task (Demo.backend []) (Caller 0)
           (Demo.config "@every 100ms" time.Second true) Demo.data Demo.boot None
           (Demo.registered_once [])).
  vm_compute. reflexivity.
Defined.

(** After the busy day, when no refresh is under way, both ways of stopping
    keep their promise. *)
Lemma busy_day_can_be_stopped :
  let rs := [Demo.ok "[1,2]"; Demo.ok "[3,4]"; Demo.refused] in
  let w := Demo.busy_evening rs in
  under_way any w = []
  /\ (forall path, exists w',
        StopCacheUpdates path w = Return tt w'
        /\ forall es w'',
             bg_run (Demo.backend rs) es w' = Some w'' ->
             (length (gets_of path (gets w''))
              <= length (gets_of path (gets w)) + owed (only path) w)%nat
             /\ (under_way (only path) w = [] ->
                 gets_of path (gets w'') = gets_of path (gets w)
                 /\ cache (client w'') !! path = cache (client w) !! path))
  /\ (exists w',
        Stop w = Return tt w'
        /\ forall es w'',
             bg_run (Demo.backend rs) es w' = Some w'' ->
             (length (gets w'') <= length (gets w) + owed any w)%nat
             /\ (under_way any w = [] ->
                 gets w'' = gets w /\ cache (client w'') = cache (client w)
                 /\ heap w'' = heap w)).
Proof.
  cbv zeta. split; [reflexivity|].
  apply (stopping_in_a_program
           (Demo.backend [Demo.ok "[1,2]"; Demo.ok "[3,4]"; Demo.refused])
           Demo.busy_day {[ 1%positive := (0, 0); 2%positive := (5, 6) ]} Demo.t0
           (Demo.busy_evening [Demo.ok "[1,2]"; Demo.ok "[3,4]"; Demo.refused])).
  - vm_compute. reflexivity.
  - split; [intros f []|]. vm_compute. auto.
Defined.

(** A POST of the client with an API key: both headers go out under their
    canonical names. *)
Lemma keyed_post_on_the_wire :
  let c := DemoNet.keyed in
  exists req,
    Client.doRequest DemoNet.net c (map_to_list (Client.headers c))
      (Some Background) http.MethodPost "/users" (Some "{}") []
    = (Do DemoNet.net 0%nat (Client.client c) req, [] ++ [req])
    /\ http.Request.Ctx req = Background
    /\ http.Request.Method req = http.MethodPost
    /\ http.Request.URL req = (Client.baseURL c ++ "/users")%string
    /\ http.Request.Body req = "{}"
    /\ (forall k v,
          Client.headers c !! k = Some v ->
          Client.unrivalled c k v ->
          http.Request.Header req !! textproto.CanonicalMIMEHeaderKey k = Some [v])
    /\ (forall K,
          (forall k, is_Some (Client.headers c !! k) ->
                     textproto.CanonicalMIMEHeaderKey k <> K) ->
          http.Request.Header req !! K = None).
Proof.
  cbv zeta.
  apply (request_on_the_wire DemoNet.net DemoNet.keyed
           (map_to_list (Client.headers DemoNet.keyed)) Background http.MethodPost
           "/users" (Some "{}") "{}" []).
  - reflexivity.
  - vm_compute. reflexivity.
  - vm_compute. reflexivity.
  - vm_compute. reflexivity.
Defined.

(** The lower-case [content-type] of [DemoNet.plain] against the default:
    either value can go out. *)
Lemma content_type_depends_on_order :
  let c := DemoNet.plain in
  exists order1 order2,
    order1 ≡ₚ map_to_list (Client.headers c)
    /\ order2 ≡ₚ map_to_list (Client.headers c)
    /\ forall ctx path sent,
         url_Parse DemoNet.net (Client.baseURL c ++ path) = None ->
         exists req1 req2,
           snd (Client.Get DemoNet.net c order1 (Some ctx) path sent) = sent ++ [req1]
           /\ snd (Client.Get DemoNet.net c order2 (Some ctx) path sent) = sent ++ [req2]
           /\ http.Request.Header req1 !! textproto.CanonicalMIMEHeaderKey "Content-Type"
              = Some ["application/json"]
           /\ http.Request.Header req2 !! textproto.CanonicalMIMEHeaderKey "Content-Type"
              = Some ["text/plain"].
Proof.
  cbv zeta.
  apply (clashing_headers_depend_on_order DemoNet.net DemoNet.plain
           "Content-Type" "content-type" "application/json" "text/plain").
  - vm_compute. reflexivity.
  - vm_compute. reflexivity.
  - vm_compute. reflexivity.
Defined.

(** The same client, the two orders spelled out: the request carries
    [text/plain] when the default is walked first and [application/json]
    when it is walked last. *)
Lemma content_type_both_ways :
  let sent_with order :=
    (fun r => http.Request.Header r !! "Content-Type")
      <$> snd (Client.Get DemoNet.net DemoNet.plain order (Some Background) "/users" []) in
  DemoNet.default_first ≡ₚ map_to_list (Client.headers DemoNet.plain)
  /\ DemoNet.default_last ≡ₚ map_to_list (Client.headers DemoNet.plain)
  /\ sent_with DemoNet.default_first = [Some ["text/plain"]]
  /\ sent_with DemoNet.default_last = [Some ["application/json"]].
Proof.
  cbv zeta. split; [|split; [|split]].
  - assert (map_to_list (Client.headers DemoNet.plain) = DemoNet.default_last) as ->
      by (vm_compute; reflexivity).
    apply perm_swap.
  - assert (map_to_list (Client.headers DemoNet.plain) = DemoNet.default_last) as ->
      by (vm_compute; reflexivity).
    reflexivity.
  - vm_compute. reflexivity.
  - vm_compute. reflexivity.
Qed.

(** A key registered without an initial fetch and with a one-minute window:
    the first [GetCachedOrFetch] fetches, and what it returns can be read
    back for a minute from the stamp of that refresh. *)
Lemma first_fetch_reads_back :
  let rs := [Demo.ok "[1,2]"] in
  let env := Demo.backend rs in
  let w := Demo.unpopulated in
  let w' := snd (updateCache env (Caller 1) "/test" Demo.data w) in
  let v := Demo.data in
  GetCached "/test" w' = (v, None)
  /\ GetCached "/test" (with_now (now w' + 2 * time.Minute) w')
     = (v, Some (cache_expired "/test"))
  /\ exists entry entry',
       cache (client w) !! "/test" = Some entry
       /\ cache (client w') !! "/test" = Some entry'
       /\ CacheEntry.Data entry' = v
       /\ CacheEntry.Expiration entry' = CacheEntry.Expiration entry
       /\ ((needsFetch entry w = false /\ w' = w /\ entry' = entry)
           \/ (needsFetch entry w = true
               /\ CacheEntry.UpdatedAt entry' = refresh_stamp env w
               /\ now w' = refresh_end env w
               /\ gets w' = gets w ++ [(Caller 1, "/test")]))
       /\ forall t,
            (time.Since t (CacheEntry.UpdatedAt entry')
               <= CacheEntry.Expiration entry' ->
             GetCached "/test" (with_now t w') = (v, None)
             /\ (CacheEntry.UpdatedAt entry' <> time.zero ->
                 forall ctx',
                   GetCachedOrFetch env ctx' "/test" (with_now t w')
                   = Return (v, None) (with_now t w')))
            /\ (CacheEntry.Expiration entry'
                  < time.Since t (CacheEntry.UpdatedAt entry') ->
                GetCached "/test" (with_now t w') = (v, Some (cache_expired "/test"))
                /\ forall ctx',
                     exists r w'',
                       GetCachedOrFetch env ctx' "/test" (with_now t w') = Return r w''
                       /\ gets w'' = gets w' ++ [(ctx', "/test")]).
Proof.
  cbv zeta. split; [vm_compute; reflexivity|]. split; [vm_compute; reflexivity|].
  apply (fetch_then_read (Demo.backend [Demo.ok "[1,2]"]) (Caller 1) "/test"
           Demo.unpopulated).
  vm_compute. reflexivity.
Defined.
